(** * Feature pyramid network utilities ([deepcell/utils/fpn_utils.py])

    A shallow embedding of the graph-construction functions of
    [fpn_utils.py] and the properties of its specification.

    The functions of the file build a symbolic computation graph by calling
    the layer classes the file imports, from the deep-learning framework
    and from [deepcell.layers].  The embedding keeps that shape:

    - a symbolic tensor is a node of the graph: the application of a layer
      (its class and its configuration) to input tensors;
    - the framework is a parameter: it decides which layer calls it refuses
      (shape mismatch, invalid argument), what the static shape of a tensor
      is and which image data format is configured;
    - Python's own run-time errors (an unbound global name, a list indexed
      out of range, an attribute read on [None], [int] of a malformed
      string) are values of [exn], kept apart from the framework's errors;
    - the state threaded through every function holds the graph built so
      far and the Python list objects that are passed by reference. *)

From Stdlib Require Import ZArith List String Ascii Lia Sorted.
From Stdlib Require Import DecimalString DecimalZ DecimalPos.
From stdpp Require Import base list strings sorting.

Local Open Scope string_scope.
Local Open Scope list_scope.
Local Open Scope Z_scope.

(** ** Python strings and integers *)

Definition chars (s : string) : list ascii := list_ascii_of_string s.

Definition is_digit (c : ascii) : bool :=
  let n := nat_of_ascii c in ((48 <=? n) && (n <=? 57))%nat.

Definition digit_value (c : ascii) : Z := Z.of_nat (nat_of_ascii c) - 48.

(** A character stands for the code point of its number, 0 to 255.  The
    white space [int] skips around a numeral: tab, line feed, vertical tab,
    form feed, carriage return (9 to 13) and the space (32); above 127,
    where [int] reads the white space of Unicode as a space, next line
    (133) and the no-break space (160).  The separators 28 to 31 are white
    space for [str.isspace] but are not skipped by [int]. *)
Definition is_space (c : ascii) : bool :=
  let n := nat_of_ascii c in
  (((9 <=? n) && (n <=? 13)) || (n =? 32) || (n =? 133) || (n =? 160))%nat.

Definition is_underscore (c : ascii) : bool := (nat_of_ascii c =? 95)%nat.

Fixpoint lstrip (cs : list ascii) : list ascii :=
  match cs with
  | c :: cs' => if is_space c then lstrip cs' else cs
  | [] => []
  end.

Definition strip (cs : list ascii) : list ascii :=
  rev (lstrip (rev (lstrip cs))).

(** [str(n)] for a Python int: the decimal numeral, with a minus sign. *)
Definition str (z : Z) : string := NilZero.string_of_int (Z.to_int z).

(** ** Exceptions and results *)

Inductive exn : Type :=
| NameError (name : string)          (* an unbound global name is read *)
| IndexError                         (* a list is indexed out of range *)
| ValueError                         (* int() of a malformed literal, min() of nothing *)
| AttributeError                     (* an attribute of None is read *)
| KeyError (key : string)            (* a dict has no such key *)
| FrameworkError (site : string).    (* raised inside the framework *)

Inductive result (A : Type) : Type :=
| Ok (a : A)
| Raise (e : exn).
Arguments Ok {A} a.
Arguments Raise {A} e.

Definition is_framework_error (e : exn) : bool :=
  match e with FrameworkError _ => true | _ => false end.

(** The digits of a decimal literal, single underscores allowed between
    digits; [seen] tells whether the previous character was a digit. *)
Fixpoint int_body (cs : list ascii) (acc : Z) (seen : bool) : option Z :=
  match cs with
  | [] => if seen then Some acc else None
  | c :: cs' =>
      if is_digit c then int_body cs' (10 * acc + digit_value c) true
      else if is_underscore c && seen then int_body cs' acc false
      else None
  end.

(** [int(s)] for a string [s]: surrounding white space is dropped, one sign
    is allowed, the rest is a decimal literal; anything else is a
    [ValueError]. *)
Definition py_int (s : string) : result Z :=
  let body cs :=
    match cs with
    | c :: cs' =>
        if (nat_of_ascii c =? 45)%nat then Z.opp <$> int_body cs' 0 false
        else if (nat_of_ascii c =? 43)%nat then int_body cs' 0 false
        else int_body cs 0 false
    | [] => None
    end in
  match body (strip (chars s)) with
  | Some z => Ok z
  | None => Raise ValueError
  end.

(** [x[1:]] on a string. *)
Definition tail_str (s : string) : string :=
  match s with
  | EmptyString => EmptyString
  | String _ s' => s'
  end.

Fixpoint take_digits (cs : list ascii) : list ascii :=
  match cs with
  | c :: cs' => if is_digit c then c :: take_digits cs' else []
  | [] => []
  end.

(** The first match of the regular expression [\d+]: the first maximal run
    of digits, if there is one. *)
Fixpoint first_digits (cs : list ascii) : option (list ascii) :=
  match cs with
  | [] => None
  | c :: cs' =>
      if is_digit c then Some (c :: take_digits cs') else first_digits cs'
  end.

Definition digits_value (ds : list ascii) : Z :=
  fold_left (fun acc c => 10 * acc + digit_value c) ds 0.

(** [int(re.findall(r'\d+', N)[0])]: [findall] returns the list of digit
    runs, indexing the empty list raises [IndexError], and [int] of a run
    of digits always succeeds. *)
Definition level_of (N : string) : result Z :=
  match first_digits (chars N) with
  | Some ds => Ok (digits_value ds)
  | None => Raise IndexError
  end.

(** The key of [backbone_names.sort]: [int(x[1:])]. *)
Definition sort_key (x : string) : result Z := py_int (tail_str x).

(** ** Layers, tensors and the graph *)

Definition dim : Type := option Z.

(** The layer classes the file instantiates, each with the arguments the
    file passes.  An [int] given for a kernel size or a stride stands for
    the square pair, as the framework reads it. *)
Inductive layer : Type :=
| Input (shape : list dim)
| ImageNormalization2D (norm_method : option string)
| TensorProduct (output_dim : Z)
| Conv2D (filters : Z) (kernel_size strides : Z * Z) (padding : string)
    (data_format : option string) (name : option string)
| UpsampleLike (name : option string)
| Add (name : option string)
| UpSampling2D (size : Z * Z)
| Reshape (target_shape : list dim)
| BatchNormalization (axis : Z)
| Activation (activation : string) (name : option string)
| Softmax (axis : Z).

(** A symbolic tensor: the output of a layer called on input tensors, or a
    tensor the caller brings along (a backbone feature map, an input). *)
#[warnings="-register-all"]
Inductive tensor : Type :=
| Apply (l : layer) (inputs : list tensor)
| Given (id : nat).

Definition layer_class (l : layer) : string :=
  match l with
  | Input _ => "Input"
  | ImageNormalization2D _ => "ImageNormalization2D"
  | TensorProduct _ => "TensorProduct"
  | Conv2D _ _ _ _ _ _ => "Conv2D"
  | UpsampleLike _ => "UpsampleLike"
  | Add _ => "Add"
  | UpSampling2D _ => "UpSampling2D"
  | Reshape _ => "Reshape"
  | BatchNormalization _ => "BatchNormalization"
  | Activation _ _ => "Activation"
  | Softmax _ => "Softmax"
  end.

(** The layer classes bound by the import statements of the file. *)
Definition imported_layers : list string :=
  [ "Conv2D"; "MaxPool2D"; "Softmax"; "Input"; "Concatenate"; "Add";
    "Reshape"; "Activation"; "UpSampling2D"; "BatchNormalization";
    "UpsampleLike"; "TensorProduct"; "ImageNormalization2D" ].

(** The name given to the layer that produced a tensor, when the file
    chose one. *)
Definition layer_name (l : layer) : option string :=
  match l with
  | Conv2D _ _ _ _ _ n => n
  | UpsampleLike n => n
  | Add n => n
  | Activation _ n => n
  | _ => None
  end.

Definition tensor_name (t : tensor) : option string :=
  match t with
  | Apply l _ => layer_name l
  | Given _ => None
  end.

Record keras_model : Type := Model {
  model_inputs : tensor;
  model_outputs : tensor;
  model_name : string
}.

(** What the file needs from the framework.  [fw_rejects g l xs] tells
    whether calling layer [l] on the tensors [xs] raises when the graph
    built so far is [g]; [fw_dim t i] is [t.shape[i]], [None] when the
    framework raises instead. *)
Record Framework : Type := {
  fw_rejects : list tensor -> layer -> list tensor -> bool;
  fw_dim : tensor -> Z -> option dim;
  fw_image_data_format : string;
  fw_model_rejects : list tensor -> tensor -> tensor -> string -> bool
}.

(** ** State *)

(** A reference to a list object: its index in the heap. *)
Abbreviation ref := nat.

(** The list objects that are passed by reference, and the nodes of the
    graph in the order the framework created them (its layer-name
    registry is a function of that list). *)
Record state : Type := {
  names_heap : list (list string);
  feats_heap : list (list tensor);
  graph : list tensor
}.

(** A computation: from a state to a value or an exception, and the state
    it leaves.  What was done to the state before an exception stays
    done. *)
Definition M (A : Type) : Type := state -> result A * state.

Definition ret {A} (a : A) : M A := fun s => (Ok a, s).

Definition raise {A} (e : exn) : M A := fun s => (Raise e, s).

Definition bind {A B} (m : M A) (k : A -> M B) : M B :=
  fun s =>
    match m s with
    | (Ok a, s') => k a s'
    | (Raise e, s') => (Raise e, s')
    end.

Notation "x <- m ;; k" := (bind m (fun x => k))
  (at level 20, m at level 99, k at level 200, only parsing).
Notation "' p <- m ;; k" := (bind m (fun x => let 'p := x in k))
  (at level 20, p pattern, m at level 99, k at level 200, only parsing).

(** A computation that does not touch the state. *)
Definition lift {A} (r : result A) : M A := fun s => (r, s).

(** [l[i]] for [0 <= i]. *)
Definition index {A} (l : list A) (i : nat) : result A :=
  match l !! i with
  | Some x => Ok x
  | None => Raise IndexError
  end.

(** [l[-1]]. *)
Definition index_last {A} (l : list A) : result A :=
  match last l with
  | Some x => Ok x
  | None => Raise IndexError
  end.

(** [Layer(...)(xs)]: the framework either raises or adds the node. *)
Definition apply_layer (fw : Framework) (l : layer) (xs : list tensor) : M tensor :=
  fun s =>
    if fw_rejects fw (graph s) l xs
    then (Raise (FrameworkError (layer_class l)), s)
    else
      let t := Apply l xs in
      (Ok t, {| names_heap := names_heap s;
                feats_heap := feats_heap s;
                graph := graph s ++ [t] |}).

(** [t.shape[i]]; on [None] the attribute lookup itself fails. *)
Definition shape_at (fw : Framework) (t : option tensor) (i : Z) : M dim :=
  match t with
  | None => raise AttributeError
  | Some t =>
      match fw_dim fw t i with
      | Some d => ret d
      | None => raise (FrameworkError "TensorShape")
      end
  end.

(** ** [create_pyramid_level] *)

Definition create_pyramid_level (fw : Framework)
    (backbone_input : tensor)
    (upsamplelike_input : option tensor)
    (addition_input : option tensor)
    (level : Z) (feature_size : Z) : M (tensor * option tensor) :=
  let reduced_name := "C" +:+ str level +:+ "_reduced" in
  let upsample_name := "P" +:+ str level +:+ "_upsampled" in
  let addition_name := "P" +:+ str level +:+ "_merged" in
  let final_name := "P" +:+ str level in
  pyramid <- apply_layer fw
    (Conv2D feature_size (1, 1) (1, 1) "same" None (Some reduced_name))
    [backbone_input] ;;
  pyramid_upsample <-
    match upsamplelike_input with
    | Some u =>
        t <- apply_layer fw (UpsampleLike (Some upsample_name)) [pyramid; u] ;;
        ret (Some t)
    | None => ret None
    end ;;
  pyramid <-
    match addition_input with
    | Some a => apply_layer fw (Add (Some addition_name)) [pyramid; a]
    | None => ret pyramid
    end ;;
  pyramid_final <- apply_layer fw
    (Conv2D feature_size (3, 3) (1, 1) "same" None (Some final_name))
    [pyramid] ;;
  ret (pyramid_final, pyramid_upsample).

(** ** [semantic_upsample] *)

(** [range(n)]. *)
Definition range (n : Z) : list Z := seqZ 0 n.

Definition is_Some_b {A} (o : option A) : bool :=
  match o with Some _ => true | None => false end.

(** The body of the [for] loop, run for the indices [idxs]. *)
Fixpoint upsample_loop (fw : Framework) (idxs : list Z) (n_upsample n_filters : Z)
    (target : option tensor) (x : tensor) : M tensor :=
  match idxs with
  | [] => ret x
  | i :: idxs' =>
      x <- apply_layer fw
        (Conv2D n_filters (3, 3) (1, 1) "same" (Some "channels_last") None) [x] ;;
      x <-
        match target with
        | Some tg =>
            if i =? n_upsample - 1
            then apply_layer fw (UpsampleLike None) [x; tg]
            else apply_layer fw (UpSampling2D (2, 2)) [x]
        | None => apply_layer fw (UpSampling2D (2, 2)) [x]
        end ;;
      upsample_loop fw idxs' n_upsample n_filters target x
  end.

Definition semantic_upsample (fw : Framework) (x : tensor) (n_upsample : Z)
    (n_filters : Z) (target : option tensor) : M tensor :=
  x <- upsample_loop fw (range n_upsample) n_upsample n_filters target x ;;
  if n_upsample =? 0 then
    x <- apply_layer fw
      (Conv2D n_filters (3, 3) (1, 1) "same" (Some "channels_last") None) [x] ;;
    match target with
    | Some tg => apply_layer fw (UpsampleLike None) [x; tg]
    | None => ret x
    end
  else ret x.

(** ** [semantic_prediction] *)

(** [for semantic_feature in semantic_features[1:]]. *)
Fixpoint add_all (fw : Framework) (semantic_sum : tensor) (rest : list tensor) : M tensor :=
  match rest with
  | [] => ret semantic_sum
  | semantic_feature :: rest' =>
      semantic_sum <- apply_layer fw (Add None) [semantic_sum; semantic_feature] ;;
      add_all fw semantic_sum rest'
  end.

(** [n_filters] is accepted and not used: [semantic_upsample] is called
    without it and takes its default, 256. *)
Definition semantic_prediction (fw : Framework)
    (semantic_names : list string) (semantic_features : list tensor)
    (target_level : Z) (input_target : option tensor)
    (n_filters n_dense n_classes : Z) : M tensor :=
  let channel_axis :=
    if String.eqb (fw_image_data_format fw) "channels_first" then 1 else -1 in
  semantic_sum <- lift (index semantic_features 0) ;;
  semantic_sum <- add_all fw semantic_sum (drop 1 semantic_features) ;;
  last_name <- lift (index_last semantic_names) ;;
  min_level <- lift (level_of last_name) ;;
  let n_upsample := min_level - target_level in
  x <- semantic_upsample fw semantic_sum n_upsample 256 input_target ;;
  d1 <- shape_at fw input_target 1 ;;
  d2 <- shape_at fw input_target 2 ;;
  d3 <- shape_at fw (Some x) (-1) ;;
  x <- apply_layer fw (Reshape [d1; d2; d3]) [x] ;;
  x <- apply_layer fw (TensorProduct n_dense) [x] ;;
  x <- apply_layer fw (BatchNormalization (-1)) [x] ;;
  x <- apply_layer fw (Activation "relu" None) [x] ;;
  x <- apply_layer fw (TensorProduct n_classes) [x] ;;
  apply_layer fw (Softmax channel_axis) [x].

(** ** [__create_semantic_head] *)

(** [list.reverse()] on the list object behind a reference: in place. *)
Definition reverse_names (r : ref) : M unit :=
  fun s => (Ok tt, {| names_heap := alter reverse r (names_heap s);
                      feats_heap := feats_heap s;
                      graph := graph s |}).

Definition reverse_feats (r : ref) : M unit :=
  fun s => (Ok tt, {| names_heap := names_heap s;
                      feats_heap := alter reverse r (feats_heap s);
                      graph := graph s |}).

Definition read_names (r : ref) : M (list string) :=
  fun s => (Ok (default [] (names_heap s !! r)), s).

Definition read_feats (r : ref) : M (list tensor) :=
  fun s => (Ok (default [] (feats_heap s !! r)), s).

(** A new list object. *)
Definition alloc_names (l : list string) : M ref :=
  fun s => (Ok (length (names_heap s)),
            {| names_heap := names_heap s ++ [l];
               feats_heap := feats_heap s;
               graph := graph s |}).

Definition alloc_feats (l : list tensor) : M ref :=
  fun s => (Ok (length (feats_heap s)),
            {| names_heap := names_heap s;
               feats_heap := feats_heap s ++ [l];
               graph := graph s |}).

(** [for N, P in zip(pyramid_names, pyramid_features)], with the two local
    lists the body appends to. *)
Fixpoint head_loop (fw : Framework) (items : list (string * tensor))
    (target_level n_filters : Z)
    (semantic_features : list tensor) (semantic_names : list string)
    : M (list tensor * list string) :=
  match items with
  | [] => ret (semantic_features, semantic_names)
  | (N, P) :: items' =>
      level <- lift (level_of N) ;;
      let n_upsample := level - target_level in
      let target := last semantic_features in
      f <- semantic_upsample fw P n_upsample n_filters target ;;
      head_loop fw items' target_level n_filters
        (semantic_features ++ [f]) (semantic_names ++ ["Q" +:+ str level])
  end.

(** The two list arguments are references to the caller's list objects.
    [semantic_prediction] is called without [target_level], [n_filters]
    and [n_dense]: they take their defaults 0, 256 and 256. *)
Definition __create_semantic_head (fw : Framework)
    (pyramid_names : ref) (pyramid_features : ref)
    (input_target : option tensor)
    (target_level n_classes n_filters : Z) : M tensor :=
  _ <- reverse_names pyramid_names ;;
  _ <- reverse_feats pyramid_features ;;
  names <- read_names pyramid_names ;;
  feats <- read_feats pyramid_features ;;
  '(semantic_features, semantic_names) <-
    head_loop fw (zip names feats) target_level n_filters [] [] ;;
  semantic_prediction fw semantic_names semantic_features 0 input_target
    256 256 n_classes.

(** ** [__create_pyramid_features] *)

(** A [dict] with string keys: its items in iteration order. *)
Definition dict : Type := list (string * tensor).

Definition dict_keys (d : dict) : list string := d.*1.

(** [d[name]]. *)
Definition dict_get (d : dict) (name : string) : result tensor :=
  match list_find (fun kv => kv.1 = name) d with
  | Some (_, (_, v)) => Ok v
  | None => Raise (KeyError name)
  end.

Fixpoint map_result {A B} (f : A -> result B) (l : list A) : result (list B) :=
  match l with
  | [] => Ok []
  | x :: l' =>
      match f x with
      | Raise e => Raise e
      | Ok y =>
          match map_result f l' with
          | Raise e => Raise e
          | Ok ys => Ok (y :: ys)
          end
      end
  end.

(** [list.sort(key=...)] is stable: an element goes in front of the first
    one whose key is not smaller. *)
Fixpoint insert_by_key (x : Z * string) (l : list (Z * string)) : list (Z * string) :=
  match l with
  | [] => [x]
  | y :: l' => if x.1 <=? y.1 then x :: l else y :: insert_by_key x l'
  end.

Definition sort_by_key (l : list (Z * string)) : list (Z * string) :=
  foldr insert_by_key [] l.

Definition with_key (x : string) : result (Z * string) :=
  match sort_key x with
  | Ok k => Ok (k, x)
  | Raise e => Raise e
  end.

(** The first three statements: the names of [backbone_dict] in ascending
    order of [int(x[1:])], and the features in the same order. *)
Definition derive_backbone (d : dict) : M (list string * list tensor) :=
  let backbone_names := dict_keys d in
  keyed <- lift (map_result with_key backbone_names) ;;
  let backbone_names := (sort_by_key keyed).*2 in
  backbone_features <- lift (map_result (dict_get d) backbone_names) ;;
  ret (backbone_names, backbone_features).

(** The body of [for i in range(len(backbone_names))], run for the indices
    [idxs], with the three local lists the body appends to.
    [create_pyramid_level] is called without [feature_size] and takes its
    default, 256. *)
Fixpoint pyramid_loop (fw : Framework)
    (backbone_names : list string) (backbone_features : list tensor)
    (idxs : list nat)
    (pyramid_names : list string) (pyramid_finals : list tensor)
    (pyramid_upsamples : list (option tensor))
    : M (list string * list tensor * list (option tensor)) :=
  match idxs with
  | [] => ret (pyramid_names, pyramid_finals, pyramid_upsamples)
  | i :: idxs' =>
      N <- lift (index backbone_names i) ;;
      level <- lift (level_of N) ;;
      let p_name := "P" +:+ str level in
      let pyramid_names := pyramid_names ++ [p_name] in
      backbone_input <- lift (index backbone_features i) ;;
      '(upsamplelike_input, addition_input) <-
        (if (i =? 0)%nat then
           u <- lift (index backbone_features (i + 1)) ;;
           ret (Some u, None)
         else if (i =? length backbone_names - 1)%nat then
           a <- lift (index_last pyramid_upsamples) ;;
           ret (None, a)
         else
           u <- lift (index backbone_features (i + 1)) ;;
           a <- lift (index_last pyramid_upsamples) ;;
           ret (Some u, a)) ;;
      '(pf, pu) <- create_pyramid_level fw backbone_input upsamplelike_input
                     addition_input level 256 ;;
      pyramid_loop fw backbone_names backbone_features idxs'
        pyramid_names (pyramid_finals ++ [pf]) (pyramid_upsamples ++ [pu])
  end.

Record model_kwargs : Type := {
  include_top : bool;
  input_tensor : tensor;
  weights : option string;
  pooling : option string
}.

(** The two global names the functions read that the file itself never
    binds.  A value for them can only come from outside the file. *)
Record Globals : Type := {
  backbone_dict : option dict;
  get_pyramid_layer_outputs :
    option (string -> tensor -> model_kwargs -> M (list string * list tensor))
}.

(** The names the top-level statements of the file bind: its imports and
    its function definitions. *)
Definition file_bindings : list string :=
  [ "absolute_import"; "print_function"; "division"; "re"; "K"; "Model";
    "Conv2D"; "MaxPool2D"; "Softmax"; "Input"; "Concatenate"; "Add";
    "Reshape"; "Activation"; "UpSampling2D"; "BatchNormalization";
    "applications"; "UpsampleLike"; "TensorProduct"; "ImageNormalization2D";
    "create_pyramid_level"; "__create_pyramid_features"; "semantic_upsample";
    "semantic_prediction"; "__create_semantic_head"; "FPNet" ].

(** The global names as the file leaves them once it is imported: neither
    name is among [file_bindings], nor is it a Python builtin. *)
Definition module_globals : Globals :=
  {| backbone_dict := None;
     get_pyramid_layer_outputs := None |}.

(** Reading a global name. *)
Definition lookup_global {A} (name : string) (v : option A) : M A :=
  match v with
  | Some a => ret a
  | None => raise (NameError name)
  end.

(** The two list parameters are rebound by the first statements before
    they are read. *)
Definition __create_pyramid_features (fw : Framework) (g : Globals)
    (backbone_names : list string) (backbone_features : list tensor)
    (feature_size : Z) : M (list string * list tensor) :=
  d <- lookup_global "backbone_dict" (backbone_dict g) ;;
  '(backbone_names, backbone_features) <- derive_backbone d ;;
  let backbone_names := reverse backbone_names in
  let backbone_features := reverse backbone_features in
  '(pyramid_names, pyramid_finals, pyramid_upsamples) <-
    pyramid_loop fw backbone_names backbone_features
      (seq 0 (length backbone_names)) [] [] [] ;;
  N <- lift (index backbone_names 0) ;;
  F <- lift (index backbone_features 0) ;;
  l <- lift (level_of N) ;;
  let level := l + 1 in
  let P_minus_2_name := "P" +:+ str level in
  P_minus_2 <- apply_layer fw
    (Conv2D feature_size (3, 3) (2, 2) "same" None (Some P_minus_2_name)) [F] ;;
  let pyramid_names := P_minus_2_name :: pyramid_names in
  let pyramid_finals := P_minus_2 :: pyramid_finals in
  l <- lift (level_of N) ;;
  let level := l + 2 in
  let P_minus_1_name := "P" +:+ str level in
  P_minus_1 <- apply_layer fw (Activation "relu" (Some (N +:+ "_relu"))) [P_minus_2] ;;
  P_minus_1 <- apply_layer fw
    (Conv2D feature_size (3, 3) (2, 2) "same" None (Some P_minus_1_name)) [P_minus_1] ;;
  let pyramid_names := P_minus_1_name :: pyramid_names in
  let pyramid_finals := P_minus_1 :: pyramid_finals in
  let pyramid_names := reverse pyramid_names in
  let pyramid_finals := reverse pyramid_finals in
  (* the backbone lists are put back in ascending order *)
  let backbone_names := reverse backbone_names in
  let backbone_features := reverse backbone_features in
  ret (pyramid_names, pyramid_finals).

(** ** [FPNet] *)

(** [min(levels)]. *)
Definition py_min (l : list Z) : result Z :=
  match l with
  | [] => Raise ValueError
  | x :: l' => Ok (foldl Z.min x l')
  end.

(** [l[0:-1]]: a new list without the last element. *)
Definition but_last {A} (l : list A) : list A := take (length l - 1) l.

(** [Model(inputs=..., outputs=..., name=...)]. *)
Definition make_model (fw : Framework) (inputs outputs : tensor) (name : string)
    : M keras_model :=
  fun s =>
    if fw_model_rejects fw (graph s) inputs outputs name
    then (Raise (FrameworkError "Model"), s)
    else (Ok (Model inputs outputs name), s).

Definition FPNet (fw : Framework) (g : Globals)
    (backbone : string) (input_shape : list dim) (inputs : option tensor)
    (norm_method : option string) (weights pooling : option string)
    (required_channels n_classes : Z) (name : string) : M keras_model :=
  inputs <-
    match inputs with
    | None => apply_layer fw (Input input_shape) []
    | Some t => ret t
    end ;;
  norm <- apply_layer fw (ImageNormalization2D norm_method) [inputs] ;;
  fixed_inputs <- apply_layer fw (TensorProduct required_channels) [norm] ;;
  let kwargs := {| include_top := false;
                   input_tensor := fixed_inputs;
                   weights := weights;
                   pooling := pooling |} in
  f <- lookup_global "get_pyramid_layer_outputs" (get_pyramid_layer_outputs g) ;;
  '(backbone_names, backbone_features) <- f backbone inputs kwargs ;;
  '(fpn_names, fpn_features) <-
    __create_pyramid_features fw g backbone_names backbone_features 256 ;;
  levels <- lift (map_result level_of fpn_names) ;;
  target_level <- lift (py_min levels) ;;
  fpn_names <- alloc_names (but_last fpn_names) ;;
  fpn_features <- alloc_feats (but_last fpn_features) ;;
  x <- __create_semantic_head fw fpn_names fpn_features (Some inputs)
         target_level n_classes 128 ;;
  make_model fw inputs x name.

(** ** Frameworks and states to run the functions on *)

(** A framework that accepts every call; every static dimension is
    unknown. *)
Definition permissive : Framework :=
  {| fw_rejects := fun _ _ _ => false;
     fw_dim := fun _ _ => Some None;
     fw_image_data_format := "channels_last";
     fw_model_rejects := fun _ _ _ _ => false |}.

(** A framework that refuses to merge: every call of an [Add] layer
    raises. *)
Definition no_merge : Framework :=
  {| fw_rejects := fun _ l _ => match l with Add _ => true | _ => false end;
     fw_dim := fun _ _ => Some None;
     fw_image_data_format := "channels_last";
     fw_model_rejects := fun _ _ _ _ => false |}.

(** A framework that refuses the normalization layer: every call of an
    [ImageNormalization2D] layer raises. *)
Definition no_normalization : Framework :=
  {| fw_rejects := fun _ l _ =>
       match l with ImageNormalization2D _ => true | _ => false end;
     fw_dim := fun _ _ => Some None;
     fw_image_data_format := "channels_last";
     fw_model_rejects := fun _ _ _ _ => false |}.

Definition empty_state : state :=
  {| names_heap := []; feats_heap := []; graph := [] |}.

(** ** The nodes each function is expected to add *)

Definition conv1x1 (feature_size level : Z) (x : tensor) : tensor :=
  Apply (Conv2D feature_size (1, 1) (1, 1) "same" None
           (Some ("C" +:+ str level +:+ "_reduced"))) [x].

Definition upsampled (level : Z) (p template : tensor) : tensor :=
  Apply (UpsampleLike (Some ("P" +:+ str level +:+ "_upsampled"))) [p; template].

Definition merged (level : Z) (p : tensor) (addition_input : option tensor) : tensor :=
  match addition_input with
  | Some a => Apply (Add (Some ("P" +:+ str level +:+ "_merged"))) [p; a]
  | None => p
  end.

Definition conv3x3 (feature_size level : Z) (x : tensor) : tensor :=
  Apply (Conv2D feature_size (3, 3) (1, 1) "same" None
           (Some ("P" +:+ str level))) [x].

Definition option_list {A} (o : option A) : list A :=
  match o with Some a => [a] | None => [] end.

(** The nodes of one pyramid level, in the order of the layer calls. *)
Definition level_nodes (backbone_input : tensor)
    (upsamplelike_input addition_input : option tensor)
    (level feature_size : Z) : list tensor :=
  let p := conv1x1 feature_size level backbone_input in
  [p]
  ++ option_list (upsampled level p <$> upsamplelike_input)
  ++ match addition_input with
     | Some _ => [merged level p addition_input]
     | None => []
     end
  ++ [conv3x3 feature_size level (merged level p addition_input)].

(** The 3x3 convolution of [semantic_upsample]. *)
Definition smooth (n_filters : Z) (x : tensor) : tensor :=
  Apply (Conv2D n_filters (3, 3) (1, 1) "same" (Some "channels_last") None) [x].

(** One round that ends in a 2x upsampling. *)
Definition round2x (n_filters : Z) (x : tensor) : tensor :=
  Apply (UpSampling2D (2, 2)) [smooth n_filters x].

(** The round after which the result is resized to the target, if there
    is one. *)
Definition round_to (n_filters : Z) (target : option tensor) (x : tensor) : tensor :=
  match target with
  | Some tg => Apply (UpsampleLike None) [smooth n_filters x; tg]
  | None => round2x n_filters x
  end.

(** What [semantic_upsample] computes for [n_upsample = Z.of_nat n]. *)
Definition upsample_spec (n_filters : Z) (target : option tensor) (n : nat)
    (x : tensor) : tensor :=
  match n with
  | O =>
      match target with
      | Some tg => Apply (UpsampleLike None) [smooth n_filters x; tg]
      | None => smooth n_filters x
      end
  | S k => round_to n_filters target (Nat.iter k (round2x n_filters) x)
  end.

(** The nodes of [k] rounds that each end in a 2x upsampling. *)
Fixpoint rounds_nodes (n_filters : Z) (k : nat) (x : tensor) : list tensor :=
  match k with
  | O => []
  | S k' =>
      [smooth n_filters x; round2x n_filters x]
      ++ rounds_nodes n_filters k' (round2x n_filters x)
  end.

(** The nodes [semantic_upsample] adds for [n_upsample = Z.of_nat n], in
    the order of the layer calls. *)
Definition upsample_nodes (n_filters : Z) (target : option tensor) (n : nat)
    (x : tensor) : list tensor :=
  match n with
  | O =>
      smooth n_filters x
      :: option_list
           ((fun tg => Apply (UpsampleLike None) [smooth n_filters x; tg]) <$> target)
  | S k =>
      let y := Nat.iter k (round2x n_filters) x in
      rounds_nodes n_filters k x
      ++ [smooth n_filters y; round_to n_filters target y]
  end.

Definition is_conv (t : tensor) : bool :=
  match t with
  | Apply (Conv2D _ _ _ _ _ _) _ => true
  | _ => false
  end.

Definition is_upsampling (t : tensor) : bool :=
  match t with
  | Apply (UpSampling2D _) _ => true
  | Apply (UpsampleLike _) _ => true
  | _ => false
  end.

(** The number of layer applications in a tensor expression. *)
Fixpoint size (t : tensor) : nat :=
  match t with
  | Apply _ xs => S (list_sum (map size xs))
  | Given _ => O
  end.

(** ** Definitions used to state the properties *)

(** The state once the node [t] is in the graph. *)
Definition add_node (s : state) (t : tensor) : state :=
  {| names_heap := names_heap s;
     feats_heap := feats_heap s;
     graph := graph s ++ [t] |}.

(** A framework that never raises on a layer call. *)
Definition accepts_all (fw : Framework) : Prop :=
  forall g l xs, fw_rejects fw g l xs = false.

(** [built_by fw g added]: starting from the graph [g], each node of
    [added] is a layer of an imported class that the framework accepted
    when it was called. *)
Inductive built_by (fw : Framework) : list tensor -> list tensor -> Prop :=
| built_nil g : built_by fw g []
| built_cons g l xs rest :
    fw_rejects fw g l xs = false ->
    layer_class l ∈ imported_layers ->
    built_by fw (g ++ [Apply l xs]) rest ->
    built_by fw g (Apply l xs :: rest).

(** [sound fw E m]: running [m] leaves the list objects alone, adds to the
    graph only nodes built by the framework, and raises only exceptions
    in [E]. *)
Definition sound {A} (fw : Framework) (E : exn -> Prop) (m : M A) : Prop :=
  forall s r s',
    m s = (r, s') ->
    names_heap s' = names_heap s /\
    feats_heap s' = feats_heap s /\
    (exists added, graph s' = graph s ++ added /\ built_by fw (graph s) added) /\
    (forall e, r = Raise e -> E e).

(** The exceptions of a function that fails only when the framework
    does. *)
Definition framework_only (e : exn) : Prop := is_framework_error e = true.

(** The exceptions of the semantic head: the framework's, [IndexError],
    and [AttributeError] when there is no input target. *)
Definition head_errors (input_target : option tensor) (e : exn) : Prop :=
  is_framework_error e = true \/ e = IndexError \/
  (input_target = None /\ e = AttributeError).

(** A state in which the caller holds one list of names and one list of
    features, both at reference 0. *)
Definition two_levels : state :=
  {| names_heap := [["P3"; "P4"]];
     feats_heap := [[Given 3%nat; Given 4%nat]];
     graph := [] |}.

(** The nodes [FPNet] adds before it reads [get_pyramid_layer_outputs]. *)
Definition preamble_nodes (input_shape : list dim) (inputs : option tensor)
    (norm_method : option string) (required_channels : Z) : list tensor :=
  let i := default (Apply (Input input_shape) []) inputs in
  let norm := Apply (ImageNormalization2D norm_method) [i] in
  match inputs with Some _ => [] | None => [i] end
  ++ [norm; Apply (TensorProduct required_channels) [norm]].

(** The axis of the softmax, from the configured image data format. *)
Definition channel_axis (fw : Framework) : Z :=
  if String.eqb (fw_image_data_format fw) "channels_first" then 1 else -1.

(** The nodes at the end of [semantic_prediction], from the reshaping of
    [y] to the softmax. *)
Definition prediction_nodes (fw : Framework) (shape : list dim)
    (n_dense n_classes : Z) (y : tensor) : list tensor :=
  let r := Apply (Reshape shape) [y] in
  let p1 := Apply (TensorProduct n_dense) [r] in
  let b := Apply (BatchNormalization (-1)) [p1] in
  let a := Apply (Activation "relu" None) [b] in
  let p2 := Apply (TensorProduct n_classes) [a] in
  [r; p1; b; a; p2; Apply (Softmax (channel_axis fw)) [p2]].

(** The name of the pyramid level [l]. *)
Definition pname (l : Z) : string := "P" +:+ str l.

(** A backbone name whose sort key is the level read from it: the number
    after the first character is the first run of digits of the name. *)
Definition plain_level_name (x : string) : Prop :=
  forall k, sort_key x = Ok k -> level_of x = Ok k.

(** Reading back [str]. *)
Definition unstr (s : string) : option Z :=
  Z.of_int <$> NilZero.int_of_string s.

(** The order [list.sort] puts the keyed names in. *)
Definition key_le (a b : Z * string) : Prop := a.1 <= b.1.

(** Global names with a [backbone_dict] of three levels, given out of
    order. *)
Definition three_levels : Globals :=
  {| backbone_dict :=
       Some [("C4", Given 4%nat); ("C3", Given 3%nat); ("C5", Given 5%nat)];
     get_pyramid_layer_outputs := None |}.

(** Global names with a [backbone_dict] whose names carry a sign. *)
Definition signed_levels : Globals :=
  {| backbone_dict := Some [("C-3", Given 3%nat); ("C-5", Given 5%nat)];
     get_pyramid_layer_outputs := None |}.

(** ** Further definitions: names and numerals *)

(** A string without a digit. *)
Definition no_digit (s : string) : Prop :=
  Forall (fun c => is_digit c = false) (chars s).

(** A string that does not start with a digit. *)
Definition no_leading_digit (s : string) : Prop :=
  match chars s with
  | [] => True
  | c :: _ => is_digit c = false
  end.

(** One more digit at the right of a numeral. *)
Definition digit_step (acc : Z) (c : ascii) : Z := 10 * acc + digit_value c.

(** ** Further definitions: the pyramid *)

(** What a level receives from the coarser level [prev] (its level number
    and its backbone feature): the 1x1 convolution of the coarser feature,
    resized to the feature [b] of the level. *)
Definition from_coarser (prev : option (Z * tensor)) (b : tensor) : option tensor :=
  (fun lp => upsampled lp.1 (conv1x1 256 lp.1 lp.2) b) <$> prev.

(** The tensor of level [l] with backbone feature [b]. *)
Definition level_final (prev : option (Z * tensor)) (l : Z) (b : tensor) : tensor :=
  conv3x3 256 l (merged l (conv1x1 256 l b) (from_coarser prev b)).

(** The tensors of the levels, from the coarsest to the finest. *)
Fixpoint top_down (prev : option (Z * tensor)) (items : list (Z * tensor))
    : list tensor :=
  match items with
  | [] => []
  | (l, b) :: rest => level_final prev l b :: top_down (Some (l, b)) rest
  end.

(** The two levels above the coarsest backbone level [top], whose feature
    is [F] and whose name is [N]. *)
Definition above_top (feature_size top : Z) (F : tensor) : tensor :=
  Apply (Conv2D feature_size (3, 3) (2, 2) "same" None (Some (pname (top + 1)))) [F].

Definition above_top2 (feature_size top : Z) (N : string) (F : tensor) : tensor :=
  Apply (Conv2D feature_size (3, 3) (2, 2) "same" None (Some (pname (top + 2))))
    [Apply (Activation "relu" (Some (N +:+ "_relu"))) [above_top feature_size top F]].

(** The number of filters of the convolution that produced a tensor. *)
Definition conv_filters (t : tensor) : option Z :=
  match t with
  | Apply (Conv2D filters _ _ _ _ _) _ => Some filters
  | _ => None
  end.

(** ** Further definitions: the semantic head *)

(** What [semantic_upsample] returns for any [n_upsample]. *)
Definition upsample_result (n_filters : Z) (target : option tensor) (n : Z)
    (x : tensor) : tensor :=
  if n <? 0 then x else upsample_spec n_filters target (Z.to_nat n) x.

(** The sum of the semantic features, added one by one from the left. *)
Definition sum_spec (first : tensor) (rest : list tensor) : tensor :=
  foldl (fun acc f => Apply (Add None) [acc; f]) first rest.

(** The semantic features of the levels [items] (level number and pyramid
    tensor): each one is resized to the one before it, [prev]. *)
Fixpoint head_spec (n_filters target_level : Z) (prev : option tensor)
    (items : list (Z * tensor)) : list tensor :=
  match items with
  | [] => []
  | (l, P) :: rest =>
      let f := upsample_result n_filters prev (l - target_level) P in
      f :: head_spec n_filters target_level (Some f) rest
  end.

(** The tensor at the end of [semantic_prediction]. *)
Definition prediction_spec (fw : Framework) (shape : list dim)
    (n_dense n_classes : Z) (y : tensor) : tensor :=
  Apply (Softmax (channel_axis fw))
    [Apply (TensorProduct n_classes)
       [Apply (Activation "relu" None)
          [Apply (BatchNormalization (-1))
             [Apply (TensorProduct n_dense) [Apply (Reshape shape) [y]]]]]].

(** Global names with both free names bound: a [backbone_dict] of three
    levels and a [get_pyramid_layer_outputs] that returns two empty
    lists. *)
Definition bound_levels : Globals :=
  {| backbone_dict :=
       Some [("C4", Given 4%nat); ("C3", Given 3%nat); ("C5", Given 5%nat)];
     get_pyramid_layer_outputs := Some (fun _ _ _ => ret ([], [])) |}.

(** ** Where the tensors of a call come from *)

(** The layer classes imported from the framework's own
    [tensorflow.python.keras.layers], and those imported from
    [deepcell.layers], the layers of the package this file belongs to. *)
Definition framework_layers : list string :=
  [ "Conv2D"; "MaxPool2D"; "Softmax"; "Input"; "Concatenate"; "Add";
    "Reshape"; "Activation"; "UpSampling2D"; "BatchNormalization" ].

Definition deepcell_layers : list string :=
  [ "UpsampleLike"; "TensorProduct"; "ImageNormalization2D" ].

(** [delegated fw g known added]: starting from the graph [g], each node
    of [added] is the output of a layer of an imported class, accepted by
    the framework when it was called, and called on tensors that were at
    hand: the tensors of [known], or the outputs of the layers called
    before it. *)
Inductive delegated (fw : Framework)
    : list tensor -> list tensor -> list tensor -> Prop :=
| delegated_nil g known : delegated fw g known []
| delegated_cons g known l xs rest :
    fw_rejects fw g l xs = false ->
    layer_class l ∈ framework_layers ++ deepcell_layers ->
    Forall (fun x => x ∈ known) xs ->
    delegated fw (g ++ [Apply l xs]) (Apply l xs :: known) rest ->
    delegated fw g known (Apply l xs :: rest).

(** [delegates fw known m out]: whether [m] returns or raises, the graph
    grows by layer calls on tensors at hand only, and each tensor of the
    value returned is one of [known] or the output of one of these
    calls. *)
Definition delegates {A} (fw : Framework) (known : list tensor) (m : M A)
    (out : A -> list tensor) : Prop :=
  forall s r s',
    m s = (r, s') ->
    exists added,
      graph s' = graph s ++ added /\
      delegated fw (graph s) known added /\
      forall a, r = Ok a -> Forall (fun t => t ∈ known \/ t ∈ added) (out a).

(** The tensors a value of [backbone_dict] holds. *)
Definition globals_tensors (g : Globals) : list tensor :=
  match backbone_dict g with
  | Some d => d.*2
  | None => []
  end.

(** * Properties *)

(** ** Running the monad *)

Lemma bind_Ok {A B} (m : M A) (k : A -> M B) s b s' :
  bind m k s = (Ok b, s') ->
  exists a s1, m s = (Ok a, s1) /\ k a s1 = (Ok b, s').
Proof.
  unfold bind. destruct (m s) as [[a|e] s1]; intros H.
  - exists a, s1. split; [reflexivity | exact H].
  - discriminate H.
Qed.

Lemma bind_Raise {A B} (m : M A) (k : A -> M B) s e s' :
  bind m k s = (Raise e, s') ->
  m s = (Raise e, s') \/
  exists a s1, m s = (Ok a, s1) /\ k a s1 = (Raise e, s').
Proof.
  unfold bind. destruct (m s) as [[a|e0] s1]; intros H.
  - right. exists a, s1. split; [reflexivity | exact H].
  - left. inversion H; subst. reflexivity.
Qed.

Lemma bind_run {A B} (m : M A) (k : A -> M B) s a s1 :
  m s = (Ok a, s1) -> bind m k s = k a s1.
Proof. intros H. unfold bind. rewrite H. reflexivity. Qed.

Lemma bind_fail {A B} (m : M A) (k : A -> M B) s e s1 :
  m s = (Raise e, s1) -> bind m k s = (Raise e, s1).
Proof. intros H. unfold bind. rewrite H. reflexivity. Qed.

Lemma apply_layer_Ok fw l xs s t s' :
  apply_layer fw l xs s = (Ok t, s') ->
  fw_rejects fw (graph s) l xs = false /\ t = Apply l xs /\ s' = add_node s t.
Proof.
  unfold apply_layer. destruct (fw_rejects fw (graph s) l xs); intros H.
  - discriminate H.
  - inversion H; subst. auto.
Qed.

Lemma apply_layer_Raise fw l xs s e s' :
  apply_layer fw l xs s = (Raise e, s') ->
  fw_rejects fw (graph s) l xs = true /\
  e = FrameworkError (layer_class l) /\ s' = s.
Proof.
  unfold apply_layer. destruct (fw_rejects fw (graph s) l xs); intros H.
  - inversion H; subst. auto.
  - discriminate H.
Qed.

Lemma apply_layer_accept fw l xs s :
  fw_rejects fw (graph s) l xs = false ->
  apply_layer fw l xs s = (Ok (Apply l xs), add_node s (Apply l xs)).
Proof. intros H. unfold apply_layer. rewrite H. reflexivity. Qed.

Lemma permissive_accepts_all : accepts_all permissive.
Proof. intros g l xs. reflexivity. Qed.

(** ** [create_pyramid_level] *)

Lemma create_pyramid_level_Ok fw b u a level fs s pf pu s' :
  create_pyramid_level fw b u a level fs s = (Ok (pf, pu), s') ->
  pf = conv3x3 fs level (merged level (conv1x1 fs level b) a) /\
  pu = (upsampled level (conv1x1 fs level b) <$> u) /\
  graph s' = graph s ++ level_nodes b u a level fs /\
  names_heap s' = names_heap s /\ feats_heap s' = feats_heap s.
Proof.
  unfold create_pyramid_level. intros H.
  apply bind_Ok in H as (p & s1 & Hp & H).
  apply apply_layer_Ok in Hp as (_ & -> & ->).
  apply bind_Ok in H as (pu0 & s2 & Hu & H).
  apply bind_Ok in H as (p2 & s3 & Ha & H).
  apply bind_Ok in H as (pf0 & s4 & Hf & H).
  apply apply_layer_Ok in Hf as (_ & -> & ->).
  inversion H; subst; clear H.
  destruct u as [t|]; destruct a as [t'|].
  - apply bind_Ok in Hu as (x & sx & Hx & Hu).
    apply apply_layer_Ok in Hx as (_ & -> & ->). inversion Hu; subst.
    apply apply_layer_Ok in Ha as (_ & -> & ->).
    unfold level_nodes, add_node; simpl. rewrite <- !app_assoc. auto.
  - apply bind_Ok in Hu as (x & sx & Hx & Hu).
    apply apply_layer_Ok in Hx as (_ & -> & ->). inversion Hu; subst.
    inversion Ha; subst.
    unfold level_nodes, add_node; simpl. rewrite <- !app_assoc. auto.
  - inversion Hu; subst.
    apply apply_layer_Ok in Ha as (_ & -> & ->).
    unfold level_nodes, add_node; simpl. rewrite <- !app_assoc. auto.
  - inversion Hu; subst. inversion Ha; subst.
    unfold level_nodes, add_node; simpl. rewrite <- !app_assoc. auto.
Qed.

Lemma create_pyramid_level_returns fw b u a level fs s :
  accepts_all fw ->
  exists s',
    create_pyramid_level fw b u a level fs s =
      (Ok (conv3x3 fs level (merged level (conv1x1 fs level b) a),
           upsampled level (conv1x1 fs level b) <$> u), s').
Proof.
  intros Hfw. unfold create_pyramid_level, bind, apply_layer, ret.
  destruct u, a; simpl; unfold bind, apply_layer, ret; simpl;
    rewrite ?Hfw; simpl; rewrite ?Hfw; simpl; rewrite ?Hfw; eauto.
Qed.

(** C4: when [create_pyramid_level] returns, the graph has grown by the
    1x1 convolution of the backbone input with [feature_size] filters,
    then the [UpsampleLike] of that convolution to the template (if one is
    given), then the [Add] of that convolution with the addition input (if
    one is given), then the 3x3 convolution, in this order; the first
    component returned is the 3x3 convolution and the second is the
    upsampled tensor. *)
Theorem create_pyramid_level_layer_order fw b u a level fs s pf pu s' :
  create_pyramid_level fw b u a level fs s = (Ok (pf, pu), s') ->
  let p := conv1x1 fs level b in
  graph s' =
    graph s
    ++ [p]
    ++ option_list (upsampled level p <$> u)
    ++ match a with Some _ => [merged level p a] | None => [] end
    ++ [pf]
  /\ pf = conv3x3 fs level (merged level p a)
  /\ pu = (upsampled level p <$> u).
Proof.
  intros H p. subst p.
  apply create_pyramid_level_Ok in H as (Hpf & Hpu & Hg & _).
  rewrite Hg. unfold level_nodes. cbv zeta. rewrite <- Hpf. auto.
Qed.

Lemma create_pyramid_level_layer_order_witness :
  exists pf pu s',
    create_pyramid_level permissive (Given 0%nat) (Some (Given 1%nat))
      (Some (Given 2%nat)) 5 256 empty_state = (Ok (pf, pu), s') /\
    graph s' =
      [conv1x1 256 5 (Given 0%nat);
       upsampled 5 (conv1x1 256 5 (Given 0%nat)) (Given 1%nat);
       merged 5 (conv1x1 256 5 (Given 0%nat)) (Some (Given 2%nat));
       pf] /\
    pf = conv3x3 256 5 (merged 5 (conv1x1 256 5 (Given 0%nat)) (Some (Given 2%nat))) /\
    pu = Some (upsampled 5 (conv1x1 256 5 (Given 0%nat)) (Given 1%nat)).
Proof.
  eexists _, _, _. split; [reflexivity |].
  apply (create_pyramid_level_layer_order permissive (Given 0%nat)
           (Some (Given 1%nat)) (Some (Given 2%nat)) 5 256 empty_state).
  reflexivity.
Defined.

(** C9: when [create_pyramid_level] returns, the second component is
    [None] exactly when no template was given; with a template it is the
    [UpsampleLike] of the 1x1 convolution to the template, whatever the
    addition input is. *)
Theorem create_pyramid_level_upsample fw b u a a' level fs s pf pu s1 pf' pu' s2 :
  create_pyramid_level fw b u a level fs s = (Ok (pf, pu), s1) ->
  create_pyramid_level fw b u a' level fs s = (Ok (pf', pu'), s2) ->
  (pu = None <-> u = None)
  /\ (forall t, u = Some t -> pu = Some (upsampled level (conv1x1 fs level b) t))
  /\ pu' = pu.
Proof.
  intros H H'.
  apply create_pyramid_level_Ok in H as (_ & Hpu & _).
  apply create_pyramid_level_Ok in H' as (_ & Hpu' & _).
  subst pu pu'. repeat split.
  - destruct u; [discriminate | reflexivity].
  - intros ->. reflexivity.
  - intros t ->. reflexivity.
Qed.

Lemma create_pyramid_level_upsample_witness :
  exists pf pu s1 pf' pu' s2,
    create_pyramid_level permissive (Given 0%nat) (Some (Given 1%nat))
      (Some (Given 2%nat)) 4 256 empty_state = (Ok (pf, pu), s1) /\
    create_pyramid_level permissive (Given 0%nat) (Some (Given 1%nat))
      None 4 256 empty_state = (Ok (pf', pu'), s2) /\
    (pu = None <-> Some (Given 1%nat) = None)
    /\ (forall t, Some (Given 1%nat) = Some t ->
         pu = Some (upsampled 4 (conv1x1 256 4 (Given 0%nat)) t))
    /\ pu' = pu.
Proof.
  eexists _, _, _, _, _, _.
  split; [reflexivity |]. split; [reflexivity |].
  eapply (create_pyramid_level_upsample permissive (Given 0%nat)
            (Some (Given 1%nat)) (Some (Given 2%nat)) None 4 256 empty_state);
    reflexivity.
Defined.

(** ** [semantic_upsample] *)

Lemma add_node_graph s t : graph (add_node s t) = graph s ++ [t].
Proof. reflexivity. Qed.

Lemma iter_round2x nf k x :
  Nat.iter k (round2x nf) (round2x nf x) = Nat.iter (S k) (round2x nf) x.
Proof. symmetry. apply Nat.iter_succ_r. Qed.

(** The loop, from index [i] with [S k] indices left, when the last index
    is [n_upsample - 1]. *)
Lemma upsample_loop_Ok fw nf tg n k :
  forall i x s r s',
    i + Z.of_nat (S k) = n ->
    upsample_loop fw (seqZ i (Z.of_nat (S k))) n nf tg x s = (Ok r, s') ->
    r = round_to nf tg (Nat.iter k (round2x nf) x) /\
    graph s' =
      graph s ++ rounds_nodes nf k x
      ++ [smooth nf (Nat.iter k (round2x nf) x); r] /\
    names_heap s' = names_heap s /\ feats_heap s' = feats_heap s.
Proof.
  induction k as [|k IH]; intros i x s r s' Hi H.
  - change (Z.of_nat 1) with 1 in H.
    rewrite seqZ_cons, seqZ_nil in H by lia. simpl in H.
    apply bind_Ok in H as (c & s1 & Hc & H).
    apply apply_layer_Ok in Hc as (_ & -> & ->).
    apply bind_Ok in H as (u & s2 & Hu & H).
    inversion H; subst r s'; clear H.
    assert (Hlast : (i =? n - 1) = true) by (apply Z.eqb_eq; lia).
    rewrite Hlast in Hu.
    destruct tg as [tg|]; apply apply_layer_Ok in Hu as (_ & -> & ->);
      simpl; rewrite <- app_assoc; auto.
  - rewrite seqZ_cons in H by lia. simpl in H.
    apply bind_Ok in H as (c & s1 & Hc & H).
    apply apply_layer_Ok in Hc as (_ & -> & ->).
    apply bind_Ok in H as (u & s2 & Hu & H).
    assert (Hnot : (i =? n - 1) = false) by (apply Z.eqb_neq; lia).
    rewrite Hnot in Hu.
    assert (Hu' : u = round2x nf x /\ s2 = add_node (add_node s (smooth nf x)) u).
    { destruct tg; apply apply_layer_Ok in Hu as (_ & -> & ->); auto. }
    destruct Hu' as [-> ->].
    replace (Z.pred (Z.of_nat (S (S k)))) with (Z.of_nat (S k)) in H by lia.
    apply IH in H as (Hr & Hg & Hn & Hf); [| lia].
    rewrite iter_round2x in Hr, Hg.
    split; [exact Hr |]. split; [| auto].
    rewrite Hg. simpl. rewrite <- !app_assoc. reflexivity.
Qed.

Lemma upsample_loop_returns fw n nf tg :
  accepts_all fw ->
  forall idxs x s, exists r s',
    upsample_loop fw idxs n nf tg x s = (Ok r, s').
Proof.
  intros Hfw idxs. induction idxs as [|i idxs IH]; intros x s; simpl.
  - eexists _, _. reflexivity.
  - rewrite (bind_run _ _ _ _ _ (apply_layer_accept _ _ _ _ (Hfw _ _ _))).
    destruct tg as [tg|]; [destruct (i =? n - 1) |];
      rewrite (bind_run _ _ _ _ _ (apply_layer_accept _ _ _ _ (Hfw _ _ _)));
      apply IH.
Qed.

Lemma semantic_upsample_Ok fw x n nf tg s r s' :
  0 <= n ->
  semantic_upsample fw x n nf tg s = (Ok r, s') ->
  r = upsample_spec nf tg (Z.to_nat n) x /\
  graph s' = graph s ++ upsample_nodes nf tg (Z.to_nat n) x /\
  names_heap s' = names_heap s /\ feats_heap s' = feats_heap s.
Proof.
  intros Hn H. unfold semantic_upsample, range in H.
  apply bind_Ok in H as (y & s1 & Hloop & H).
  destruct (Z.to_nat n) as [|k] eqn:Hk.
  - assert (n = 0) by lia. subst n. simpl in Hloop.
    inversion Hloop; subst y s1; clear Hloop. simpl in H.
    apply bind_Ok in H as (c & s2 & Hc & H).
    apply apply_layer_Ok in Hc as (_ & -> & ->).
    destruct tg as [tg|].
    + apply apply_layer_Ok in H as (_ & -> & ->).
      simpl. rewrite <- app_assoc. auto.
    + inversion H; subst. simpl. auto.
  - assert (Hn' : n = Z.of_nat (S k)) by lia.
    rewrite Hn' in Hloop at 1.
    apply (upsample_loop_Ok fw nf tg n k 0) in Hloop as (Hr & Hg & Hh); [| lia].
    assert (Hz : (n =? 0) = false) by (apply Z.eqb_neq; lia).
    rewrite Hz in H. inversion H; subst r s1; clear H.
    subst y. simpl. rewrite Hg. auto.
Qed.

Lemma semantic_upsample_negative fw x n nf tg s :
  n < 0 -> semantic_upsample fw x n nf tg s = (Ok x, s).
Proof.
  intros Hn. unfold semantic_upsample, range.
  rewrite seqZ_nil by lia. simpl. unfold bind, ret.
  assert (Hz : (n =? 0) = false) by (apply Z.eqb_neq; lia).
  rewrite Hz. reflexivity.
Qed.

Lemma semantic_upsample_returns fw x n nf tg s :
  accepts_all fw ->
  exists r s', semantic_upsample fw x n nf tg s = (Ok r, s').
Proof.
  intros Hfw. unfold semantic_upsample.
  destruct (upsample_loop_returns fw n nf tg Hfw (range n) x s) as (y & s1 & Hy).
  rewrite (bind_run _ _ _ _ _ Hy).
  destruct (n =? 0).
  - rewrite (bind_run _ _ _ _ _ (apply_layer_accept _ _ _ _ (Hfw _ _ _))).
    destruct tg as [tg|].
    + rewrite (apply_layer_accept _ _ _ _ (Hfw _ _ _)). eauto.
    + eexists _, _. reflexivity.
  - eexists _, _. reflexivity.
Qed.

Lemma size_round2x nf x : size (round2x nf x) = S (S (size x)).
Proof. simpl. lia. Qed.

Lemma size_iter_round2x nf k x :
  (size x <= size (Nat.iter k (round2x nf) x))%nat.
Proof.
  induction k as [|k IH]; simpl Nat.iter.
  - lia.
  - rewrite size_round2x. lia.
Qed.

Lemma size_upsample_spec nf tg n x :
  (size x < size (upsample_spec nf tg n x))%nat.
Proof.
  destruct n as [|k]; simpl.
  - destruct tg; simpl; lia.
  - pose proof (size_iter_round2x nf k x).
    unfold round_to. destruct tg; simpl; lia.
Qed.

Lemma upsample_spec_fresh nf tg n x : upsample_spec nf tg n x <> x.
Proof.
  intros H. pose proof (size_upsample_spec nf tg n x) as Hs.
  rewrite H in Hs. lia.
Qed.

(** C10, as amended: for [0 <= n_upsample] the tensor returned is never
    the input.  With [n_upsample = 0] exactly one 3x3 convolution with
    [n_filters] filters is applied to [x], followed by an [UpsampleLike] to
    the target when there is one; with [n_upsample > 0] there are
    [n_upsample] rounds of a convolution and an upsampling, the last
    upsampling being [UpsampleLike] to the target when there is one and a
    2x [UpSampling2D] otherwise.  For [n_upsample < 0] no layer is applied
    and the input itself is returned. *)
Theorem semantic_upsample_rounds fw x n nf tg s r s' :
  semantic_upsample fw x n nf tg s = (Ok r, s') ->
  (0 <= n ->
     r <> x /\
     r = upsample_spec nf tg (Z.to_nat n) x /\
     graph s' = graph s ++ upsample_nodes nf tg (Z.to_nat n) x /\
     length (filter (fun t => is_conv t = true) (upsample_nodes nf tg (Z.to_nat n) x))
       = Z.to_nat (Z.max 1 n)) /\
  (n < 0 -> r = x /\ s' = s).
Proof.
  intros H. split.
  - intros Hn. apply semantic_upsample_Ok in H as (Hr & Hg & _); [| exact Hn].
    split; [rewrite Hr; apply upsample_spec_fresh |].
    split; [exact Hr |]. split; [exact Hg |].
    destruct (Z.to_nat n) as [|k] eqn:Hk.
    + replace (Z.max 1 n) with 1 by lia. destruct tg; reflexivity.
    + replace (Z.to_nat (Z.max 1 n)) with (S k) by lia.
      unfold upsample_nodes. rewrite filter_app, length_app.
      assert (Hrounds : forall j y,
                 length (filter (fun t => is_conv t = true) (rounds_nodes nf j y)) = j).
      { induction j as [|j IH]; intros y; [reflexivity |].
        simpl rounds_nodes. rewrite filter_cons_True by reflexivity.
        rewrite filter_cons_False by (simpl; discriminate).
        simpl. rewrite IH. reflexivity. }
      rewrite Hrounds.
      rewrite filter_cons_True by reflexivity.
      rewrite filter_cons_False by (unfold round_to; destruct tg; simpl; discriminate).
      simpl. lia.
  - intros Hn. rewrite semantic_upsample_negative in H by exact Hn.
    inversion H; subst. auto.
Qed.

Lemma semantic_upsample_rounds_witness :
  exists r s',
    semantic_upsample permissive (Given 0%nat) 2 256 (Some (Given 1%nat))
      empty_state = (Ok r, s') /\
    (0 <= 2 ->
       r <> Given 0%nat /\
       r = upsample_spec 256 (Some (Given 1%nat)) (Z.to_nat 2) (Given 0%nat) /\
       graph s' =
         graph empty_state
         ++ upsample_nodes 256 (Some (Given 1%nat)) (Z.to_nat 2) (Given 0%nat) /\
       length (filter (fun t => is_conv t = true)
                 (upsample_nodes 256 (Some (Given 1%nat)) (Z.to_nat 2) (Given 0%nat)))
         = Z.to_nat (Z.max 1 2)) /\
    (2 < 0 -> r = Given 0%nat /\ s' = empty_state).
Proof.
  eexists _, _. split; [reflexivity |].
  apply (semantic_upsample_rounds permissive (Given 0%nat) 2 256
           (Some (Given 1%nat)) empty_state).
  reflexivity.
Defined.

(** C10, as stated, fails: with [n_upsample = -1] the loop body never runs,
    the test [n_upsample == 0] is false, and the input is returned
    unchanged. *)
Lemma semantic_upsample_returns_input :
  semantic_upsample permissive (Given 0%nat) (-1) 256 None empty_state
  = (Ok (Given 0%nat), empty_state).
Proof. reflexivity. Qed.

(** ** Invariants of the monadic code *)

Lemma built_by_app fw g a b :
  built_by fw g a -> built_by fw (g ++ a) b -> built_by fw g (a ++ b).
Proof.
  intros Ha. revert b. induction Ha as [g | g l xs rest Hr Hc Hrest IH]; intros b Hb.
  - rewrite app_nil_r in Hb. exact Hb.
  - simpl. constructor; [exact Hr | exact Hc |].
    apply IH. rewrite <- app_assoc. exact Hb.
Qed.

Lemma layer_class_imported l : layer_class l ∈ imported_layers.
Proof.
  apply list_elem_of_In. destruct l; simpl; tauto.
Qed.

Lemma sound_ret {A} fw E (a : A) : sound fw E (ret a).
Proof.
  intros s r s' H. inversion H; subst.
  repeat split; [| discriminate].
  exists []. rewrite app_nil_r. split; [reflexivity | constructor].
Qed.

Lemma sound_lift {A} fw (E : exn -> Prop) (r : result A) :
  (forall e, r = Raise e -> E e) -> sound fw E (lift r).
Proof.
  intros HE s r' s' H. inversion H; subst.
  repeat split; [| exact HE].
  exists []. rewrite app_nil_r. split; [reflexivity | constructor].
Qed.

Lemma sound_raise {A} fw (E : exn -> Prop) e : E e -> sound fw E (@raise A e).
Proof.
  intros HE. apply (sound_lift fw E (Raise e)).
  intros e' He'. inversion He'; subst. exact HE.
Qed.

Lemma sound_bind {A B} fw E (m : M A) (k : A -> M B) :
  sound fw E m -> (forall a, sound fw E (k a)) -> sound fw E (bind m k).
Proof.
  intros Hm Hk s r s' H. unfold bind in H.
  destruct (m s) as [[a|e] s1] eqn:Hms.
  - destruct (Hm _ _ _ Hms) as (Hn1 & Hf1 & (a1 & Hg1 & Hb1) & _).
    destruct (Hk a _ _ _ H) as (Hn2 & Hf2 & (a2 & Hg2 & Hb2) & He).
    split; [congruence |]. split; [congruence |]. split; [| exact He].
    exists (a1 ++ a2). split.
    + rewrite Hg2, Hg1, app_assoc. reflexivity.
    + apply built_by_app; [exact Hb1 |]. rewrite <- Hg1. exact Hb2.
  - inversion H; subst.
    destruct (Hm _ _ _ Hms) as (Hn1 & Hf1 & Hadd & He).
    repeat split; try assumption.
    intros e' He'. inversion He'; subst. apply He. reflexivity.
Qed.

Lemma sound_weaken {A} fw (E E' : exn -> Prop) (m : M A) :
  (forall e, E e -> E' e) -> sound fw E m -> sound fw E' m.
Proof.
  intros HE Hm s r s' H.
  destruct (Hm _ _ _ H) as (Hn & Hf & Hadd & He).
  repeat split; try assumption. intros e Hr. apply HE, He, Hr.
Qed.

Lemma sound_apply_layer fw (E : exn -> Prop) l xs :
  (forall c, E (FrameworkError c)) -> sound fw E (apply_layer fw l xs).
Proof.
  intros HE s r s' H. unfold apply_layer in H.
  destruct (fw_rejects fw (graph s) l xs) eqn:Hrej; inversion H; subst; simpl.
  - repeat split.
    + exists []. rewrite app_nil_r. split; [reflexivity | constructor].
    + intros e He. inversion He; subst. apply HE.
  - repeat split; [| discriminate].
    exists [Apply l xs]. split; [reflexivity |].
    constructor; [exact Hrej | apply layer_class_imported | constructor].
Qed.

Lemma index_Raise {A} (l : list A) i e : index l i = Raise e -> e = IndexError.
Proof. unfold index. destruct (l !! i); [discriminate | congruence]. Qed.

Lemma index_last_Raise {A} (l : list A) e : index_last l = Raise e -> e = IndexError.
Proof. unfold index_last. destruct (last l); [discriminate | congruence]. Qed.

Lemma level_of_Raise N e : level_of N = Raise e -> e = IndexError.
Proof. unfold level_of. destruct (first_digits (chars N)); [discriminate | congruence]. Qed.

Lemma sound_create_pyramid_level fw b u a level fs :
  sound fw framework_only (create_pyramid_level fw b u a level fs).
Proof.
  unfold create_pyramid_level.
  apply sound_bind; [apply sound_apply_layer; reflexivity | intros p].
  apply sound_bind.
  { destruct u.
    - apply sound_bind; [apply sound_apply_layer; reflexivity | intros up].
      apply sound_ret.
    - apply sound_ret. }
  intros pu. apply sound_bind.
  { destruct a; [apply sound_apply_layer; reflexivity | apply sound_ret]. }
  intros p2. apply sound_bind; [apply sound_apply_layer; reflexivity | intros pf].
  apply sound_ret.
Qed.

Lemma sound_upsample_loop fw (E : exn -> Prop) n nf tg :
  (forall c, E (FrameworkError c)) ->
  forall idxs x, sound fw E (upsample_loop fw idxs n nf tg x).
Proof.
  intros HE idxs. induction idxs as [|i idxs IH]; intros x; simpl.
  - apply sound_ret.
  - apply sound_bind; [apply sound_apply_layer; exact HE | intros c].
    apply sound_bind; [| intros y; apply IH].
    destruct tg; [destruct (i =? n - 1) |]; apply sound_apply_layer; exact HE.
Qed.

Lemma sound_semantic_upsample fw (E : exn -> Prop) x n nf tg :
  (forall c, E (FrameworkError c)) ->
  sound fw E (semantic_upsample fw x n nf tg).
Proof.
  intros HE. unfold semantic_upsample.
  apply sound_bind; [apply sound_upsample_loop; exact HE | intros y].
  destruct (n =? 0); [| apply sound_ret].
  apply sound_bind; [apply sound_apply_layer; exact HE | intros c].
  destruct tg; [apply sound_apply_layer; exact HE | apply sound_ret].
Qed.

Lemma sound_add_all fw (E : exn -> Prop) :
  (forall c, E (FrameworkError c)) ->
  forall rest x, sound fw E (add_all fw x rest).
Proof.
  intros HE rest. induction rest as [|f rest IH]; intros x; simpl.
  - apply sound_ret.
  - apply sound_bind; [apply sound_apply_layer; exact HE | intros y; apply IH].
Qed.

Lemma head_errors_framework it c : head_errors it (FrameworkError c).
Proof. left. reflexivity. Qed.

Lemma sound_shape_at fw it t i :
  (t = None -> it = None) -> sound fw (head_errors it) (shape_at fw t i).
Proof.
  intros Ht. unfold shape_at. destruct t as [t|].
  - destruct (fw_dim fw t i); [apply sound_ret |].
    apply sound_raise, head_errors_framework.
  - apply sound_raise. right. right. split; [apply Ht |]; reflexivity.
Qed.

Lemma sound_semantic_prediction fw names feats tl it nf nd nc :
  sound fw (head_errors it) (semantic_prediction fw names feats tl it nf nd nc).
Proof.
  unfold semantic_prediction.
  pose proof (head_errors_framework it) as HE.
  apply sound_bind.
  { apply sound_lift. intros e He. right. left. eapply index_Raise, He. }
  intros sum0. apply sound_bind; [apply sound_add_all; exact HE | intros sum].
  apply sound_bind.
  { apply sound_lift. intros e He. right. left. eapply index_last_Raise, He. }
  intros last_name. apply sound_bind.
  { apply sound_lift. intros e He. right. left. eapply level_of_Raise, He. }
  intros min_level.
  apply sound_bind; [apply sound_semantic_upsample; exact HE | intros x].
  apply sound_bind; [apply sound_shape_at; auto | intros d1].
  apply sound_bind; [apply sound_shape_at; auto | intros d2].
  apply sound_bind; [apply sound_shape_at; discriminate | intros d3].
  repeat (apply sound_bind; [apply sound_apply_layer; exact HE | intros ?]).
  apply sound_apply_layer; exact HE.
Qed.

Lemma sound_head_loop fw it tl nf :
  forall items feats names,
    sound fw (head_errors it) (head_loop fw items tl nf feats names).
Proof.
  intros items. induction items as [|[N P] items IH]; intros feats names; simpl.
  - apply sound_ret.
  - apply sound_bind.
    { apply sound_lift. intros e He. right. left. eapply level_of_Raise, He. }
    intros level. apply sound_bind; [| intros f; apply IH].
    apply sound_semantic_upsample, head_errors_framework.
Qed.

(** ** [__create_semantic_head] *)

Lemma create_semantic_head_run fw rn rf it tl nc nf s r s' :
  __create_semantic_head fw rn rf it tl nc nf s = (r, s') ->
  names_heap s' = alter reverse rn (names_heap s) /\
  feats_heap s' = alter reverse rf (feats_heap s) /\
  (exists added, graph s' = graph s ++ added /\ built_by fw (graph s) added) /\
  (forall e, r = Raise e -> head_errors it e).
Proof.
  unfold __create_semantic_head. intros H.
  rewrite (bind_run (reverse_names rn) _ s tt _ eq_refl) in H.
  rewrite (bind_run (reverse_feats rf) _ _ tt _ eq_refl) in H.
  rewrite (bind_run (read_names rn) _ _ _ _ eq_refl) in H.
  rewrite (bind_run (read_feats rf) _ _ _ _ eq_refl) in H.
  match type of H with
  | bind ?m ?k ?s0 = _ =>
      assert (Hs : sound fw (head_errors it) (bind m k))
  end.
  { apply sound_bind; [apply sound_head_loop | intros [feats names]].
    apply sound_semantic_prediction. }
  apply Hs in H as (Hn & Hf & Hg & He). simpl in Hn, Hf, Hg.
  auto.
Qed.

(** C6: [__create_semantic_head] leaves both list objects it was given
    reversed, whether it returns or raises; the caller's lists are not what
    they were before the call (unless they read the same backwards). *)
Theorem create_semantic_head_reverses_arguments
    fw rn rf it tl nc nf s (ns : list string) (fs : list tensor) r s' :
  names_heap s !! rn = Some ns ->
  feats_heap s !! rf = Some fs ->
  __create_semantic_head fw rn rf it tl nc nf s = (r, s') ->
  names_heap s' !! rn = Some (reverse ns) /\
  feats_heap s' !! rf = Some (reverse fs).
Proof.
  intros Hns Hfs H.
  apply create_semantic_head_run in H as (Hn & Hf & _).
  rewrite Hn, Hf, !list_lookup_alter_eq, Hns, Hfs. auto.
Qed.

Lemma create_semantic_head_reverses_arguments_witness :
  exists r s',
    __create_semantic_head permissive 0%nat 0%nat (Some (Given 0%nat)) 3 3 128
      two_levels = (Ok r, s') /\
    names_heap two_levels !! 0%nat = Some ["P3"; "P4"] /\
    feats_heap two_levels !! 0%nat = Some [Given 3%nat; Given 4%nat] /\
    names_heap s' !! 0%nat = Some ["P4"; "P3"] /\
    feats_heap s' !! 0%nat = Some [Given 4%nat; Given 3%nat].
Proof.
  eexists _, _. split; [vm_compute; reflexivity |].
  split; [reflexivity |]. split; [reflexivity |].
  eapply (create_semantic_head_reverses_arguments permissive 0%nat 0%nat
            (Some (Given 0%nat)) 3 3 128 two_levels
            ["P3"; "P4"] [Given 3%nat; Given 4%nat]);
    [reflexivity | reflexivity | vm_compute; reflexivity].
Defined.

(** ** [FPNet] with the global names of the file *)

Lemma apply_layer_reject fw l xs s :
  fw_rejects fw (graph s) l xs = true ->
  apply_layer fw l xs s = (Raise (FrameworkError (layer_class l)), s).
Proof. intros H. unfold apply_layer. rewrite H. reflexivity. Qed.

Ltac layer_step H :=
  match goal with
  | |- context [bind (apply_layer ?fw ?l ?xs) ?k ?s] =>
      destruct (fw_rejects fw (graph s) l xs) eqn:H;
      [ rewrite (bind_fail _ k s _ _ (apply_layer_reject fw l xs s H))
      | rewrite (bind_run _ k s _ _ (apply_layer_accept fw l xs s H)) ]
  end.

Ltac built_step :=
  first [ apply built_nil
        | apply built_cons;
          [ simpl in *; rewrite <- ?app_assoc in *; assumption
          | apply layer_class_imported |] ].

Lemma FPNet_unbound fw backbone input_shape inputs nm w p rc nc name s :
  exists e s' added,
    FPNet fw module_globals backbone input_shape inputs nm w p rc nc name s
      = (Raise e, s') /\
    names_heap s' = names_heap s /\ feats_heap s' = feats_heap s /\
    graph s' = graph s ++ added /\
    built_by fw (graph s) added /\
    added `prefix_of` preamble_nodes input_shape inputs nm rc /\
    ((e = NameError "get_pyramid_layer_outputs" /\
      added = preamble_nodes input_shape inputs nm rc) \/
     (is_framework_error e = true /\
      (length added < length (preamble_nodes input_shape inputs nm rc))%nat)).
Proof.
  unfold FPNet, preamble_nodes. destruct inputs as [t|]; simpl default.
  - set (norm := Apply (ImageNormalization2D nm) [t]).
    rewrite (bind_run (ret t) _ s t s eq_refl).
    layer_step H1.
    { exists (FrameworkError "ImageNormalization2D"), s, [].
      rewrite app_nil_r. repeat split; try built_step.
      - apply prefix_nil.
      - right. split; [reflexivity | simpl; lia]. }
    layer_step H2.
    { exists (FrameworkError "TensorProduct"), (add_node s norm), [norm].
      repeat split; try (repeat built_step).
      - eexists. reflexivity.
      - right. split; [reflexivity | simpl; lia]. }
    exists (NameError "get_pyramid_layer_outputs"),
      (add_node (add_node s norm) (Apply (TensorProduct rc) [norm])),
      [norm; Apply (TensorProduct rc) [norm]].
    split; [reflexivity |]. simpl.
    repeat split; try (repeat built_step).
    + rewrite <- app_assoc. reflexivity.
    + reflexivity.
    + left. auto.
  - set (i := Apply (Input input_shape) []).
    set (norm := Apply (ImageNormalization2D nm) [i]).
    layer_step H0.
    { exists (FrameworkError "Input"), s, [].
      rewrite app_nil_r. repeat split; try built_step.
      - apply prefix_nil.
      - right. split; [reflexivity | simpl; lia]. }
    layer_step H1.
    { exists (FrameworkError "ImageNormalization2D"), (add_node s i), [i].
      repeat split; try (repeat built_step).
      - eexists. reflexivity.
      - right. split; [reflexivity | simpl; lia]. }
    layer_step H2.
    { exists (FrameworkError "TensorProduct"), (add_node (add_node s i) norm),
        [i; norm].
      repeat split; try (repeat built_step).
      - simpl. rewrite <- app_assoc. reflexivity.
      - eexists. reflexivity.
      - right. split; [reflexivity | simpl; lia]. }
    exists (NameError "get_pyramid_layer_outputs"),
      (add_node (add_node (add_node s i) norm) (Apply (TensorProduct rc) [norm])),
      [i; norm; Apply (TensorProduct rc) [norm]].
    split; [reflexivity |]. simpl.
    repeat split; try (repeat built_step).
    + rewrite <- !app_assoc. reflexivity.
    + reflexivity.
    + left. auto.
Qed.

Lemma pyramid_features_NameError fw bn bf fs s :
  __create_pyramid_features fw module_globals bn bf fs s
  = (Raise (NameError "backbone_dict"), s).
Proof. reflexivity. Qed.

Lemma create_pyramid_features_ignores_arguments fw g bn bf bn' bf' fs :
  __create_pyramid_features fw g bn bf fs
  = __create_pyramid_features fw g bn' bf' fs.
Proof. reflexivity. Qed.

(** C1: the documented result of [FPNet] is a model, but with the global
    names of the file no call returns one: the call with the default
    arguments raises [NameError], and every call ends in an exception. *)
Theorem FPNet_raises_instead_of_model :
  (FPNet permissive module_globals "resnet50" [Some 32; Some 32; Some 1] None
     (Some "whole_image") None None 3 3 "fpnet" empty_state).1
  = Raise (NameError "get_pyramid_layer_outputs")
  /\ forall fw backbone input_shape inputs nm w p rc nc name s,
       exists e,
         (FPNet fw module_globals backbone input_shape inputs nm w p rc nc name s).1
         = Raise e.
Proof.
  split; [reflexivity |]. intros.
  destruct (FPNet_unbound fw backbone input_shape inputs nm w p rc nc name s)
    as (e & s' & added & H & _).
  exists e. rewrite H. reflexivity.
Qed.

Lemma FPNet_first_exception fw backbone input_shape inputs nm w p rc nc name s :
  exists e s' added,
    FPNet fw module_globals backbone input_shape inputs nm w p rc nc name s
      = (Raise e, s') /\
    graph s' = graph s ++ added /\
    ((e = NameError "get_pyramid_layer_outputs" /\
      added = preamble_nodes input_shape inputs nm rc) \/
     (exists l xs rest,
        preamble_nodes input_shape inputs nm rc = added ++ Apply l xs :: rest /\
        fw_rejects fw (graph s ++ added) l xs = true /\
        e = FrameworkError (layer_class l))).
Proof.
  unfold FPNet, preamble_nodes. destruct inputs as [t|]; simpl default.
  - set (norm := Apply (ImageNormalization2D nm) [t]).
    rewrite (bind_run (ret t) _ s t s eq_refl).
    layer_step H1.
    { exists (FrameworkError "ImageNormalization2D"), s, [].
      rewrite app_nil_r. split; [reflexivity |]. split; [reflexivity |].
      right. eexists _, _, _. split; [reflexivity |]. auto. }
    layer_step H2.
    { exists (FrameworkError "TensorProduct"), (add_node s norm), [norm].
      split; [reflexivity |]. split; [reflexivity |].
      right. eexists _, _, _. split; [reflexivity |]. auto. }
    exists (NameError "get_pyramid_layer_outputs"),
      (add_node (add_node s norm) (Apply (TensorProduct rc) [norm])),
      [norm; Apply (TensorProduct rc) [norm]].
    split; [reflexivity |]. simpl.
    split; [rewrite <- app_assoc; reflexivity | left; auto].
  - set (i := Apply (Input input_shape) []).
    set (norm := Apply (ImageNormalization2D nm) [i]).
    layer_step H0.
    { exists (FrameworkError "Input"), s, [].
      rewrite app_nil_r. split; [reflexivity |]. split; [reflexivity |].
      right. eexists _, _, _. split; [reflexivity |]. auto. }
    layer_step H1.
    { exists (FrameworkError "ImageNormalization2D"), (add_node s i), [i].
      split; [reflexivity |]. split; [reflexivity |].
      right. eexists _, _, _. split; [reflexivity |]. auto. }
    layer_step H2.
    { exists (FrameworkError "TensorProduct"), (add_node (add_node s i) norm),
        [i; norm].
      split; [reflexivity |].
      split; [simpl; rewrite <- app_assoc; reflexivity |].
      right. eexists _, _, _. split; [reflexivity |].
      simpl in H2. rewrite <- app_assoc in H2. auto. }
    exists (NameError "get_pyramid_layer_outputs"),
      (add_node (add_node (add_node s i) norm) (Apply (TensorProduct rc) [norm])),
      [i; norm; Apply (TensorProduct rc) [norm]].
    split; [reflexivity |]. simpl.
    split; [rewrite <- !app_assoc; reflexivity | left; auto].
Qed.

(** C2, as amended: [backbone_dict] and [get_pyramid_layer_outputs] are
    bound nowhere in the file; [__create_pyramid_features] does not depend
    on the two lists it is given and, with the global names of the file,
    raises [NameError] at once, leaving the state as it was; [FPNet] never
    returns and builds no pyramid level: the graph grows by the layers of
    the input only, and the call raises [NameError] for
    [get_pyramid_layer_outputs] once the three of them are built, unless
    the framework refuses one of them, in which case the call raises the
    error of the framework for that layer.  With a framework that accepts
    every call the exception is the [NameError]. *)
Theorem create_pyramid_features_unbound_name :
  ("backbone_dict" ∉ file_bindings)
  /\ ("get_pyramid_layer_outputs" ∉ file_bindings)
  /\ (forall fw g bn bf bn' bf' fs,
        __create_pyramid_features fw g bn bf fs
        = __create_pyramid_features fw g bn' bf' fs)
  /\ (forall fw bn bf fs s,
        __create_pyramid_features fw module_globals bn bf fs s
        = (Raise (NameError "backbone_dict"), s))
  /\ (forall fw backbone input_shape inputs nm w p rc nc name s,
        exists e s' added,
          FPNet fw module_globals backbone input_shape inputs nm w p rc nc name s
            = (Raise e, s') /\
          graph s' = graph s ++ added /\
          ((e = NameError "get_pyramid_layer_outputs" /\
            added = preamble_nodes input_shape inputs nm rc) \/
           (exists l xs rest,
              preamble_nodes input_shape inputs nm rc
                = added ++ Apply l xs :: rest /\
              fw_rejects fw (graph s ++ added) l xs = true /\
              e = FrameworkError (layer_class l))))
  /\ (forall fw backbone input_shape inputs nm w p rc nc name s,
        accepts_all fw ->
        (FPNet fw module_globals backbone input_shape inputs nm w p rc nc
           name s).1
        = Raise (NameError "get_pyramid_layer_outputs")).
Proof.
  split; [apply (bool_decide_eq_false_1 _); vm_compute; reflexivity |].
  split; [apply (bool_decide_eq_false_1 _); vm_compute; reflexivity |].
  split; [intros; apply create_pyramid_features_ignores_arguments |].
  split; [intros; apply pyramid_features_NameError |].
  split; [intros; apply FPNet_first_exception |].
  intros fw backbone input_shape inputs nm w p rc nc name s Hfw.
  destruct (FPNet_first_exception fw backbone input_shape inputs nm w p rc nc
              name s) as (e & s' & added & H & _ & [[-> _] | Hrej]).
  - rewrite H. reflexivity.
  - destruct Hrej as (l & xs & rest & _ & Hrej & _).
    rewrite Hfw in Hrej. discriminate.
Qed.

Lemma create_pyramid_features_unbound_name_witness :
  accepts_all permissive
  /\ (FPNet permissive module_globals "resnet50" [Some 32; Some 32; Some 1]
        None (Some "whole_image") None None 3 3 "fpnet" empty_state).1
     = Raise (NameError "get_pyramid_layer_outputs").
Proof.
  split; [intros g l xs; reflexivity |].
  apply (proj2 (proj2 (proj2 (proj2 (proj2 create_pyramid_features_unbound_name))))
           permissive).
  intros g l xs. reflexivity.
Defined.

(** C2, as stated, fails: with a framework that refuses the normalization
    layer, [FPNet] raises the error of the framework, which is not a
    [NameError]; the lookup of [get_pyramid_layer_outputs] is never
    reached. *)
Lemma FPNet_framework_error_first :
  FPNet no_normalization module_globals "resnet50" [Some 32; Some 32; Some 1]
    None (Some "whole_image") None None 3 3 "fpnet" empty_state
  = (Raise (FrameworkError "ImageNormalization2D"),
     {| names_heap := []; feats_heap := [];
        graph := [Apply (Input [Some 32; Some 32; Some 1]) []] |})
  /\ forall name, FrameworkError "ImageNormalization2D" <> NameError name.
Proof. split; [reflexivity | discriminate]. Qed.

(** C7: with the global names of the file the call sequence stops at its
    first step: every call of [FPNet] ends in an exception with nothing in
    the graph but nodes of the input (no backbone output, no pyramid level,
    no semantic head, no prediction); and whatever the global names are,
    the pyramid levels are not built from the backbone outputs that [FPNet]
    passes on. *)
Theorem FPNet_call_sequence_stops :
  FPNet permissive module_globals "resnet50" [Some 32; Some 32; Some 1] None
    (Some "whole_image") None None 3 3 "fpnet" empty_state
  = (Raise (NameError "get_pyramid_layer_outputs"),
     {| names_heap := []; feats_heap := [];
        graph := preamble_nodes [Some 32; Some 32; Some 1] None
                   (Some "whole_image") 3 |})
  /\ (forall fw backbone input_shape inputs nm w p rc nc name s,
        exists e s' added,
          FPNet fw module_globals backbone input_shape inputs nm w p rc nc name s
            = (Raise e, s') /\
          graph s' = graph s ++ added /\
          Forall (fun t => t ∈ preamble_nodes input_shape inputs nm rc) added)
  /\ (forall fw g bn bf bn' bf' fs,
        __create_pyramid_features fw g bn bf fs
        = __create_pyramid_features fw g bn' bf' fs).
Proof.
  split; [reflexivity |]. split.
  - intros.
    destruct (FPNet_unbound fw backbone input_shape inputs nm w p rc nc name s)
      as (e & s' & added & H & _ & _ & Hg & _ & [rest Hp] & _).
    exists e, s', added. repeat split; try assumption.
    apply Forall_forall. intros t Ht. rewrite Hp.
    apply elem_of_app. left. exact Ht.
  - intros. apply create_pyramid_features_ignores_arguments.
Qed.

(** ** Exceptions *)

Lemma sound_errors {A} fw (E : exn -> Prop) (m : M A) s e s' :
  sound fw E m -> m s = (Raise e, s') -> E e.
Proof. intros Hm H. apply Hm in H as (_ & _ & _ & He). apply He. reflexivity. Qed.

Lemma head_errors_Some t e :
  head_errors (Some t) e -> is_framework_error e = true \/ e = IndexError.
Proof. intros [H | [H | [H _]]]; [auto | auto | discriminate H]. Qed.

(** C5, as amended: the file defines no exception of its own.
    [create_pyramid_level] and [semantic_upsample] raise only what the
    framework raises; [semantic_prediction] and [__create_semantic_head],
    called with an input target, raise only what the framework raises or
    Python's [IndexError] (an empty list of features, a level name without
    a digit). *)
Theorem exceptions_of_the_functions fw :
  (forall b u a level fs s e s',
     create_pyramid_level fw b u a level fs s = (Raise e, s') ->
     is_framework_error e = true)
  /\ (forall x n nf tg s e s',
        semantic_upsample fw x n nf tg s = (Raise e, s') ->
        is_framework_error e = true)
  /\ (forall names feats tl it nf nd nc s e s',
        semantic_prediction fw names feats tl (Some it) nf nd nc s = (Raise e, s') ->
        is_framework_error e = true \/ e = IndexError)
  /\ (forall rn rf it tl nc nf s e s',
        __create_semantic_head fw rn rf (Some it) tl nc nf s = (Raise e, s') ->
        is_framework_error e = true \/ e = IndexError).
Proof.
  split; [| split; [| split]].
  - intros * H. eapply (sound_errors fw framework_only); [| exact H].
    apply sound_create_pyramid_level.
  - intros * H. eapply (sound_errors fw framework_only); [| exact H].
    apply sound_semantic_upsample. reflexivity.
  - intros * H. apply (head_errors_Some it).
    eapply sound_errors; [| exact H]. apply sound_semantic_prediction.
  - intros * H. apply (head_errors_Some it).
    apply create_semantic_head_run in H as (_ & _ & _ & He).
    apply He. reflexivity.
Qed.

Lemma exceptions_of_the_functions_witness :
  create_pyramid_level no_merge (Given 0%nat) None (Some (Given 1%nat)) 5 256
    empty_state
  = (Raise (FrameworkError "Add"),
     add_node empty_state (conv1x1 256 5 (Given 0%nat)))
  /\ is_framework_error (FrameworkError "Add") = true
  /\ semantic_prediction permissive [] [] 0 (Some (Given 0%nat)) 256 256 3
       empty_state
     = (Raise IndexError, empty_state)
  /\ (is_framework_error IndexError = true \/ IndexError = IndexError).
Proof.
  split; [reflexivity |]. split.
  - apply (proj1 (exceptions_of_the_functions no_merge) (Given 0%nat) None
             (Some (Given 1%nat)) 5 256 empty_state (FrameworkError "Add")
             (add_node empty_state (conv1x1 256 5 (Given 0%nat)))).
    reflexivity.
  - split; [reflexivity |].
    apply (proj1 (proj2 (proj2 (exceptions_of_the_functions permissive)))
             [] [] 0 (Given 0%nat) 256 256 3 empty_state IndexError empty_state).
    reflexivity.
Defined.

(** C5, as stated, fails: with a framework that accepts every call,
    [semantic_prediction] on empty lists fails all the same, with an
    [IndexError] of the file's own indexing [semantic_features[0]]. *)
Lemma semantic_prediction_own_error :
  semantic_prediction permissive [] [] 0 (Some (Given 0%nat)) 256 256 3
    empty_state
  = (Raise IndexError, empty_state)
  /\ is_framework_error IndexError = false.
Proof. split; reflexivity. Qed.

(** ** The last nodes of [semantic_prediction] *)

Lemma lift_Ok {A} (r : result A) s a s' :
  lift r s = (Ok a, s') -> r = Ok a /\ s' = s.
Proof. unfold lift. intros H. inversion H; subst. auto. Qed.

Lemma shape_at_Ok fw t i s d s' : shape_at fw t i s = (Ok d, s') -> s' = s.
Proof.
  unfold shape_at. destruct t as [t|]; [| discriminate].
  destruct (fw_dim fw t i); intros H; inversion H; reflexivity.
Qed.

Lemma semantic_prediction_Ok fw names feats tl it nf nd nc s t s' :
  semantic_prediction fw names feats tl it nf nd nc s = (Ok t, s') ->
  exists y shape g0,
    graph s' = g0 ++ prediction_nodes fw shape nd nc y /\
    last (prediction_nodes fw shape nd nc y) = Some t.
Proof.
  unfold semantic_prediction. intros H.
  apply bind_Ok in H as (sum0 & s1 & _ & H).
  apply bind_Ok in H as (sum & s2 & _ & H).
  apply bind_Ok in H as (last_name & s3 & _ & H).
  apply bind_Ok in H as (min_level & s4 & _ & H).
  apply bind_Ok in H as (x & s5 & _ & H).
  apply bind_Ok in H as (d1 & s6 & Hd1 & H). apply shape_at_Ok in Hd1 as ->.
  apply bind_Ok in H as (d2 & s7 & Hd2 & H). apply shape_at_Ok in Hd2 as ->.
  apply bind_Ok in H as (d3 & s8 & Hd3 & H). apply shape_at_Ok in Hd3 as ->.
  apply bind_Ok in H as (r & s9 & Hr & H). apply apply_layer_Ok in Hr as (_ & -> & ->).
  apply bind_Ok in H as (p1 & s10 & Hp1 & H). apply apply_layer_Ok in Hp1 as (_ & -> & ->).
  apply bind_Ok in H as (b & s11 & Hb & H). apply apply_layer_Ok in Hb as (_ & -> & ->).
  apply bind_Ok in H as (a & s12 & Ha & H). apply apply_layer_Ok in Ha as (_ & -> & ->).
  apply bind_Ok in H as (p2 & s13 & Hp2 & H). apply apply_layer_Ok in Hp2 as (_ & -> & ->).
  apply apply_layer_Ok in H as (_ & -> & ->).
  exists x, [d1; d2; d3], (graph s5). split; [| reflexivity].
  simpl. rewrite <- !app_assoc. reflexivity.
Qed.

(** ** [__create_pyramid_features] when [backbone_dict] is bound *)

Lemma unstr_str z : unstr (str z) = Some z.
Proof.
  unfold unstr, str. rewrite NilZero.isi.
  - simpl. f_equal. apply DecimalZ.of_to.
  - destruct z; simpl; try discriminate.
    intros H. inversion H as [H']. revert H'. apply DecimalPos.Unsigned.to_uint_nonnil.
  - destruct z; simpl; try discriminate.
    intros H. inversion H as [H']. revert H'. apply DecimalPos.Unsigned.to_uint_nonnil.
Qed.

Lemma pname_inj a b : pname a = pname b -> a = b.
Proof.
  intros H. apply (f_equal tail_str) in H. change (str a = str b) in H.
  apply (f_equal unstr) in H. rewrite !unstr_str in H. congruence.
Qed.

#[local] Instance pname_Inj : Inj (=) (=) pname.
Proof. intros a b. apply pname_inj. Qed.

Lemma map_result_Forall2 {A B} (f : A -> result B) l l' :
  map_result f l = Ok l' -> Forall2 (fun x y => f x = Ok y) l l'.
Proof.
  revert l'. induction l as [|x l IH]; intros l' H; simpl in H.
  - inversion H. constructor.
  - destruct (f x) as [y|] eqn:Hy; [| discriminate].
    destruct (map_result f l) as [ys|]; [| discriminate].
    inversion H; subst. constructor; [exact Hy | apply IH; reflexivity].
Qed.

Lemma Forall2_map_result {A B} (f : A -> result B) l l' :
  Forall2 (fun x y => f x = Ok y) l l' -> map_result f l = Ok l'.
Proof.
  induction 1 as [|x y l l' Hxy _ IH]; simpl; [reflexivity |].
  rewrite Hxy, IH. reflexivity.
Qed.

Lemma insert_by_key_Permutation x l : insert_by_key x l ≡ₚ x :: l.
Proof.
  induction l as [|y l IH]; simpl; [reflexivity |].
  destruct (x.1 <=? y.1); [reflexivity |].
  rewrite IH. apply Permutation_swap.
Qed.

Lemma sort_by_key_Permutation l : sort_by_key l ≡ₚ l.
Proof.
  induction l as [|x l IH]; simpl; [reflexivity |].
  rewrite insert_by_key_Permutation, IH. reflexivity.
Qed.

Lemma insert_by_key_sorted x l :
  StronglySorted key_le l -> StronglySorted key_le (insert_by_key x l).
Proof.
  induction 1 as [|y l Hl IH Hy]; simpl.
  - repeat constructor.
  - destruct (x.1 <=? y.1) eqn:Hxy.
    + apply Z.leb_le in Hxy. constructor; [constructor; assumption |].
      constructor; [exact Hxy |].
      eapply Forall_impl; [exact Hy |]. unfold key_le. intros z Hz. simpl in *. lia.
    + apply Z.leb_gt in Hxy. constructor; [exact IH |].
      rewrite insert_by_key_Permutation. constructor; [| exact Hy].
      unfold key_le. lia.
Qed.

Lemma sort_by_key_sorted l : StronglySorted key_le (sort_by_key l).
Proof.
  induction l as [|x l IH]; simpl; [constructor |].
  apply insert_by_key_sorted, IH.
Qed.

Lemma StronglySorted_keys (l : list (Z * string)) :
  StronglySorted key_le l -> StronglySorted Z.le (l.*1).
Proof.
  induction 1 as [|x l Hl IH Hx]; simpl; constructor; [exact IH |].
  apply Forall_fmap. exact Hx.
Qed.

Lemma with_key_Ok x kx : with_key x = Ok kx -> kx.2 = x /\ sort_key x = Ok kx.1.
Proof.
  unfold with_key. destruct (sort_key x); intros H; inversion H; auto.
Qed.

Lemma with_key_Forall2 ks keyed :
  Forall2 (fun x kx => with_key x = Ok kx) ks keyed ->
  keyed.*2 = ks /\ Forall (fun kx => sort_key kx.2 = Ok kx.1) keyed.
Proof.
  induction 1 as [|x kx l l' Hx _ [IH1 IH2]]; [split; constructor |].
  apply with_key_Ok in Hx as [Hx1 Hx2].
  split; simpl; [f_equal; assumption |].
  constructor; [rewrite Hx1; exact Hx2 | exact IH2].
Qed.

(** What the first three statements leave in [backbone_names] and
    [backbone_features]. *)
Lemma derive_backbone_Ok d s names feats s' :
  derive_backbone d s = (Ok (names, feats), s') ->
  s' = s /\
  exists sorted,
    names = sorted.*2 /\
    sorted.*2 ≡ₚ dict_keys d /\
    Forall (fun kx => sort_key kx.2 = Ok kx.1) sorted /\
    StronglySorted Z.le (sorted.*1) /\
    Forall2 (fun n t => dict_get d n = Ok t) names feats.
Proof.
  unfold derive_backbone. intros H.
  apply bind_Ok in H as (keyed & s1 & Hk & H). apply lift_Ok in Hk as [Hk ->].
  apply bind_Ok in H as (fs & s2 & Hf & H). apply lift_Ok in Hf as [Hf ->].
  inversion H; subst. split; [reflexivity |].
  exists (sort_by_key keyed).
  apply map_result_Forall2 in Hk. apply map_result_Forall2 in Hf.
  apply with_key_Forall2 in Hk as [Hk1 Hk2].
  split; [reflexivity |]. split.
  { rewrite sort_by_key_Permutation, Hk1. reflexivity. }
  split.
  { rewrite sort_by_key_Permutation. exact Hk2. }
  split; [apply StronglySorted_keys, sort_by_key_sorted | exact Hf].
Qed.

Lemma index_Ok {A} (l : list A) i x : index l i = Ok x -> l !! i = Some x.
Proof. unfold index. destruct (l !! i); intros H; inversion H; reflexivity. Qed.

(** The loop appends, for each index, the name of the level read from the
    backbone name at that index and the 3x3 convolution of that name. *)
Lemma pyramid_loop_Ok fw bn bf :
  forall idxs pn pf pu s pn' pf' pu' s',
    pyramid_loop fw bn bf idxs pn pf pu s = (Ok (pn', pf', pu'), s') ->
    exists lv new,
      Forall2 (fun i l => exists N, bn !! i = Some N /\ level_of N = Ok l) idxs lv /\
      pn' = pn ++ (pname <$> lv) /\
      pf' = pf ++ new /\
      Forall2 (fun l t => tensor_name t = Some (pname l)) lv new.
Proof.
  intros idxs. induction idxs as [|i idxs IH]; intros pn pf pu s pn' pf' pu' s' H;
    simpl in H.
  - inversion H; subst. exists [], []. simpl. rewrite !app_nil_r.
    repeat split; constructor.
  - apply bind_Ok in H as (N & s1 & HN & H). apply lift_Ok in HN as [HN ->].
    apply bind_Ok in H as (level & s2 & Hl & H). apply lift_Ok in Hl as [Hl ->].
    apply bind_Ok in H as (b & s3 & _ & H).
    apply bind_Ok in H as ([u a] & s4 & _ & H).
    apply bind_Ok in H as ([pf0 pu0] & s5 & Hc & H).
    apply create_pyramid_level_Ok in Hc as (Hpf0 & _).
    apply IH in H as (lv & new & Hlv & Hpn & Hpf & Hnew).
    exists (level :: lv), (pf0 :: new). split; [| split; [| split]].
    + constructor; [| exact Hlv]. exists N. split; [apply index_Ok, HN | exact Hl].
    + rewrite Hpn, <- app_assoc. reflexivity.
    + rewrite Hpf, <- app_assoc. reflexivity.
    + constructor; [| exact Hnew]. rewrite Hpf0. reflexivity.
Qed.

Lemma Forall2_seq_lookup {A B} (P : A -> B -> Prop) (l : list A) (k : list B) :
  Forall2 (fun i y => exists x, l !! i = Some x /\ P x y) (seq 0 (length l)) k ->
  Forall2 P l k.
Proof.
  intros H. apply Forall2_same_length_lookup.
  pose proof (Forall2_length _ _ _ H) as Hlen. rewrite length_seq in Hlen.
  split; [exact Hlen |]. intros i x y Hx Hy.
  assert (Hi : seq 0 (length l) !! i = Some i).
  { apply lookup_seq. split; [reflexivity |]. eapply lookup_lt_Some, Hx. }
  destruct (Forall2_lookup_lr _ _ _ _ _ _ H Hi Hy) as (x' & Hx' & HP).
  congruence.
Qed.

Lemma level_of_functional (names : list string) (l1 l2 : list Z) :
  Forall2 (fun N l => level_of N = Ok l) names l1 ->
  Forall2 (fun N l => level_of N = Ok l) names l2 ->
  l1 = l2.
Proof.
  intros H1. revert l2. induction H1 as [|N l names l1 HN _ IH]; intros l2 H2.
  - apply Forall2_nil_inv_l in H2. congruence.
  - apply Forall2_cons_inv_l in H2 as (l' & l2' & HN' & H2 & ->).
    f_equal; [congruence | apply IH, H2].
Qed.

(** Names made of one character that is not a digit followed by digits,
    such as C3, are plain level names. *)

Lemma digit_codes c :
  is_digit c = true ->
  is_space c = false /\ is_underscore c = false /\
  (nat_of_ascii c =? 45)%nat = false /\ (nat_of_ascii c =? 43)%nat = false.
Proof.
  unfold is_digit, is_space, is_underscore. cbv zeta.
  destruct (Nat.leb_spec 48 (nat_of_ascii c)); [| discriminate].
  destruct (Nat.leb_spec (nat_of_ascii c) 57); [| discriminate].
  intros _.
  destruct (Nat.leb_spec 9 (nat_of_ascii c)); [| lia].
  destruct (Nat.leb_spec (nat_of_ascii c) 13); [lia |].
  destruct (Nat.eqb_spec (nat_of_ascii c) 32); [lia |].
  destruct (Nat.eqb_spec (nat_of_ascii c) 133); [lia |].
  destruct (Nat.eqb_spec (nat_of_ascii c) 160); [lia |].
  repeat split; apply Nat.eqb_neq; lia.
Qed.

Lemma lstrip_digits ds :
  Forall (fun c => is_digit c = true) ds -> lstrip ds = ds.
Proof.
  destruct 1 as [|c ds Hc _]; [reflexivity |]. simpl.
  destruct (digit_codes c Hc) as (-> & _). reflexivity.
Qed.

Lemma strip_digits ds :
  Forall (fun c => is_digit c = true) ds -> strip ds = ds.
Proof.
  intros H. unfold strip. rewrite (lstrip_digits ds H).
  rewrite lstrip_digits by (apply Forall_rev, H). apply rev_involutive.
Qed.

Lemma int_body_digits ds :
  Forall (fun c => is_digit c = true) ds ->
  forall acc seen,
    ds <> [] \/ seen = true ->
    int_body ds acc seen
    = Some (fold_left (fun a c => 10 * a + digit_value c) ds acc).
Proof.
  induction 1 as [|c ds Hc _ IH]; intros acc seen Hne; simpl.
  - destruct Hne as [Hne | ->]; [contradiction | reflexivity].
  - rewrite Hc. apply IH. right. reflexivity.
Qed.

Lemma take_digits_all ds :
  Forall (fun c => is_digit c = true) ds -> take_digits ds = ds.
Proof.
  induction 1 as [|c ds Hc _ IH]; simpl; [reflexivity |].
  rewrite Hc, IH. reflexivity.
Qed.

Lemma letter_digits_plain c ds :
  is_digit c = false ->
  ds <> [] ->
  Forall (fun d => is_digit d = true) ds ->
  plain_level_name (String c (string_of_list_ascii ds)).
Proof.
  intros Hc Hne Hds k. unfold sort_key, level_of, py_int, chars. simpl tail_str.
  simpl list_ascii_of_string. rewrite list_ascii_of_string_of_list_ascii.
  simpl first_digits. rewrite Hc.
  rewrite (strip_digits ds Hds).
  destruct ds as [|d ds]; [contradiction |].
  inversion Hds as [|? ? Hd Hrest]; subst.
  destruct (digit_codes d Hd) as (_ & _ & -> & ->).
  rewrite (int_body_digits (d :: ds) Hds) by (left; discriminate).
  simpl first_digits. rewrite Hd, (take_digits_all ds Hrest).
  intros H. inversion H; subst. reflexivity.
Qed.

(** With plain level names the level read from each sorted name is its
    sort key. *)
Lemma sorted_levels d (sorted : list (Z * string)) :
  Forall plain_level_name (dict_keys d) ->
  sorted.*2 ≡ₚ dict_keys d ->
  Forall (fun kx => sort_key kx.2 = Ok kx.1) sorted ->
  Forall2 (fun N l => level_of N = Ok l) (sorted.*2) (sorted.*1).
Proof.
  intros Hplain Hperm Hkeys.
  rewrite <- Hperm in Hplain. clear Hperm.
  induction sorted as [|[k x] sorted IH]; simpl; [constructor |].
  inversion Hplain as [|? ? Hx Hrest]; subst.
  inversion Hkeys as [|? ? Hk Hks]; subst.
  constructor; [apply Hx, Hk | apply IH; assumption].
Qed.

Lemma sorted_with_top (keys : list Z) (top : Z) :
  StronglySorted Z.le keys ->
  head (reverse keys) = Some top ->
  Sorted Z.le (keys ++ [top + 1; top + 2]).
Proof.
  intros Hs Htop. apply StronglySorted_Sorted.
  rewrite head_reverse in Htop.
  destruct (decide (keys = [])) as [-> | Hne]; [discriminate |].
  destruct (exists_last Hne) as (ks & x & ->).
  rewrite last_snoc in Htop. inversion Htop; subst x.
  apply StronglySorted_app_2.
  - intros x1 x2 Hx1 Hx2.
    assert (x1 <= top).
    { apply elem_of_app in Hx1 as [Hx1 | Hx1].
      - eapply (StronglySorted_app_1_elem_of Z.le ks [top]); [exact Hs | exact Hx1 |].
        apply list_elem_of_singleton. reflexivity.
      - apply list_elem_of_singleton in Hx1. lia. }
    apply elem_of_cons in Hx2 as [-> | Hx2]; [lia |].
    apply list_elem_of_singleton in Hx2. lia.
  - exact Hs.
  - repeat constructor. lia.
Qed.

(** C3, as amended: when [backbone_dict] is bound, every one of its names
    carries its level as the plain number after the first character, and
    [__create_pyramid_features] returns, the two lists returned have the
    same length, the names are ["P"] followed by the level numbers, in
    ascending order of level, and the tensor at each index is the one
    produced by the layer of that name; the backbone names and features
    derived by the first statements are aligned as well (each feature is
    the entry of its name) and in ascending order of level. *)
Theorem pyramid_lists_aligned_and_sorted fw g bn bf fs s pn pf s' d :
  backbone_dict g = Some d ->
  Forall plain_level_name (dict_keys d) ->
  __create_pyramid_features fw g bn bf fs s = (Ok (pn, pf), s') ->
  (exists levels,
     pn = pname <$> levels /\
     Sorted Z.le levels /\
     length pn = length pf /\
     Forall2 (fun n t => tensor_name t = Some n) pn pf)
  /\ (exists names feats keys,
        derive_backbone d s = (Ok (names, feats), s) /\
        length names = length feats /\
        Forall2 (fun n t => dict_get d n = Ok t) names feats /\
        map_result level_of names = Ok keys /\
        Sorted Z.le keys).
Proof.
  intros Hg Hplain H. unfold __create_pyramid_features in H.
  apply bind_Ok in H as (d' & s1 & Hd' & H).
  rewrite Hg in Hd'. inversion Hd'; subst d' s1; clear Hd'.
  apply bind_Ok in H as ([names feats] & s2 & Hder & H).
  pose proof Hder as Hder'.
  apply derive_backbone_Ok in Hder' as (-> & sorted & Hnames & Hperm & Hkeys & Hsorted & Hfeats).
  apply bind_Ok in H as ([[pn0 pf0] pu0] & s3 & Hloop & H).
  apply pyramid_loop_Ok in Hloop as (lv & new & Hlv & Hpn0 & Hpf0 & Hnew).
  apply Forall2_seq_lookup in Hlv. simpl in Hpn0, Hpf0.
  apply bind_Ok in H as (N & s4 & HN & H). apply lift_Ok in HN as [HN ->].
  apply bind_Ok in H as (F & s5 & _ & H).
  apply bind_Ok in H as (l1 & s6 & Hl1 & H). apply lift_Ok in Hl1 as [Hl1 _].
  apply bind_Ok in H as (p2 & s7 & Hp2 & H).
  apply apply_layer_Ok in Hp2 as (_ & -> & _).
  apply bind_Ok in H as (l2 & s8 & Hl2 & H). apply lift_Ok in Hl2 as [Hl2 _].
  assert (l2 = l1) by congruence. subst l2.
  apply bind_Ok in H as (p1 & s9 & _ & H).
  apply bind_Ok in H as (p1' & s10 & Hp1 & H).
  apply apply_layer_Ok in Hp1 as (_ & -> & _).
  inversion H; subst pn pf s'; clear H.
  pose proof (sorted_levels d sorted Hplain Hperm Hkeys) as Hlevels.
  rewrite <- Hnames in Hlevels.
  assert (Hrev : lv = reverse (sorted.*1)).
  { eapply level_of_functional; [exact Hlv |]. apply Forall2_reverse, Hlevels. }
  assert (Htop : head (reverse (sorted.*1)) = Some l1).
  { rewrite <- Hrev, head_lookup. apply index_Ok in HN.
    destruct (Forall2_lookup_l _ _ _ _ _ Hlv HN) as (l & Hl & HNl).
    rewrite Hl. congruence. }
  split.
  - exists (reverse ((l1 + 2) :: (l1 + 1) :: lv)). split; [| split; [| split]].
    + rewrite Hpn0, fmap_reverse. reflexivity.
    + rewrite !reverse_cons, Hrev, reverse_involutive, <- app_assoc.
      apply sorted_with_top; assumption.
    + rewrite Hpn0, Hpf0, !length_reverse. simpl. rewrite length_fmap.
      f_equal. f_equal. apply (Forall2_length _ _ _ Hnew).
    + apply Forall2_reverse. rewrite Hpn0, Hpf0.
      constructor; [reflexivity |]. constructor; [reflexivity |].
      apply Forall2_fmap_l. exact Hnew.
  - exists names, feats, (sorted.*1). split; [exact Hder |].
    split; [apply (Forall2_length _ _ _ Hfeats) |].
    split; [exact Hfeats |].
    split; [apply Forall2_map_result, Hlevels |].
    apply StronglySorted_Sorted, Hsorted.
Qed.

Lemma pyramid_lists_aligned_and_sorted_witness :
  exists pn pf s',
    __create_pyramid_features permissive three_levels [] [] 256 empty_state
      = (Ok (pn, pf), s') /\
    pn = ["P3"; "P4"; "P5"; "P6"; "P7"] /\
    (exists levels,
       pn = pname <$> levels /\
       Sorted Z.le levels /\
       length pn = length pf /\
       Forall2 (fun n t => tensor_name t = Some n) pn pf)
    /\ (exists names feats keys,
          derive_backbone
            [("C4", Given 4%nat); ("C3", Given 3%nat); ("C5", Given 5%nat)]
            empty_state = (Ok (names, feats), empty_state) /\
          length names = length feats /\
          Forall2
            (fun n t =>
               dict_get [("C4", Given 4%nat); ("C3", Given 3%nat); ("C5", Given 5%nat)] n
               = Ok t) names feats /\
          map_result level_of names = Ok keys /\
          Sorted Z.le keys).
Proof.
  eexists _, _, _. split; [vm_compute; reflexivity |].
  split; [reflexivity |].
  eapply (pyramid_lists_aligned_and_sorted permissive three_levels [] [] 256
            empty_state).
  - reflexivity.
  - repeat constructor; intros k Hk; vm_compute in Hk; inversion Hk; reflexivity.
  - vm_compute. reflexivity.
Defined.

(** C3, as stated, fails: with the names ["C-3"] and ["C-5"] the sort keys
    are -3 and -5 while the levels read from the names are 3 and 5; the
    function returns the names P5, P3, P4, P5, which are not in ascending
    order of level. *)
Lemma pyramid_names_not_sorted :
  exists pn pf s',
    __create_pyramid_features permissive signed_levels [] [] 256 empty_state
      = (Ok (pn, pf), s') /\
    pn = ["P5"; "P3"; "P4"; "P5"] /\
    ~ (exists levels, pn = pname <$> levels /\ Sorted Z.le levels).
Proof.
  eexists _, _, _. split; [vm_compute; reflexivity |].
  split; [reflexivity |].
  intros (levels & Hpn & Hs).
  change ["P5"; "P3"; "P4"; "P5"] with (pname <$> [5; 3; 4; 5]) in Hpn.
  apply (inj (fmap pname)) in Hpn. subst levels.
  inversion Hs as [|? ? _ Hhd]; subst. inversion Hhd; subst. lia.
Qed.

(** ** Every tensor comes from a layer call or from the caller *)

Lemma delegated_weaken fw g known known' added :
  delegated fw g known added ->
  (forall t, t ∈ known -> t ∈ known') ->
  delegated fw g known' added.
Proof.
  intros H. revert known'.
  induction H as [g known | g known l xs rest Hr Hc Hx Hrest IH]; intros known' Hk.
  - constructor.
  - constructor; [exact Hr | exact Hc | |].
    + eapply Forall_impl; [exact Hx | exact Hk].
    + apply IH. intros t Ht. apply elem_of_cons in Ht as [-> | Ht].
      * left.
      * right. apply Hk, Ht.
Qed.

Lemma delegated_app fw g known known' a b :
  delegated fw g known a ->
  delegated fw (g ++ a) known' b ->
  (forall t, t ∈ known' -> t ∈ known \/ t ∈ a) ->
  delegated fw g known (a ++ b).
Proof.
  intros Ha. revert known' b.
  induction Ha as [g known | g known l xs rest Hr Hc Hx Hrest IH];
    intros known' b Hb Hk.
  - rewrite app_nil_r in Hb. simpl. eapply delegated_weaken; [exact Hb |].
    intros t Ht. destruct (Hk t Ht) as [H | H]; [exact H |].
    apply elem_of_nil in H. destruct H.
  - simpl. constructor; [exact Hr | exact Hc | exact Hx |].
    apply (IH known'); [rewrite <- app_assoc; exact Hb |].
    intros t Ht. destruct (Hk t Ht) as [H | H].
    + left. right. exact H.
    + apply elem_of_cons in H as [-> | H]; [left; left | right; exact H].
Qed.

Lemma layer_class_origin l : layer_class l ∈ framework_layers ++ deepcell_layers.
Proof.
  destruct l; apply (bool_decide_eq_true_1 _); vm_compute; reflexivity.
Qed.

Lemma delegates_ret {A} fw known (a : A) out :
  Forall (fun t => t ∈ known) (out a) -> delegates fw known (ret a) out.
Proof.
  intros Ha s r s' H. inversion H; subst. exists [].
  rewrite app_nil_r. split; [reflexivity |]. split; [constructor |].
  intros a' Ha'. inversion Ha'; subst.
  eapply Forall_impl; [exact Ha | auto].
Qed.

Lemma delegates_lift {A} fw known (r : result A) out :
  (forall a, r = Ok a -> Forall (fun t => t ∈ known) (out a)) ->
  delegates fw known (lift r) out.
Proof.
  intros Ha s r' s' H. inversion H; subst. exists [].
  rewrite app_nil_r. split; [reflexivity |]. split; [constructor |].
  intros a' Ha'. eapply Forall_impl; [exact (Ha a' Ha') | auto].
Qed.

Lemma delegates_raise {A} fw known e (out : A -> list tensor) :
  delegates fw known (raise e) out.
Proof.
  intros s r s' H. inversion H; subst. exists [].
  rewrite app_nil_r. split; [reflexivity |]. split; [constructor |].
  intros a Ha. discriminate.
Qed.

Lemma delegates_apply_layer fw known l xs :
  Forall (fun x => x ∈ known) xs ->
  delegates fw known (apply_layer fw l xs) (fun t => [t]).
Proof.
  intros Hx s r s' H. unfold apply_layer in H.
  destruct (fw_rejects fw (graph s) l xs) eqn:Hr; inversion H; subst.
  - exists []. rewrite app_nil_r. split; [reflexivity |].
    split; [constructor |]. intros a Ha. discriminate.
  - exists [Apply l xs]. split; [reflexivity |]. split.
    + constructor; [exact Hr | apply layer_class_origin | exact Hx | constructor].
    + intros a Ha. inversion Ha; subst.
      constructor; [right; left | constructor].
Qed.

Lemma delegates_bind {A B} fw known (m : M A) (k : A -> M B) out1 out2 :
  delegates fw known m out1 ->
  (forall a, delegates fw (out1 a ++ known) (k a) out2) ->
  delegates fw known (bind m k) out2.
Proof.
  intros Hm Hk s r s' H. unfold bind in H.
  destruct (m s) as [[a | e] s1] eqn:E.
  - destruct (Hm _ _ _ E) as (added1 & Hg1 & Hd1 & Ho1).
    destruct (Hk a _ _ _ H) as (added2 & Hg2 & Hd2 & Ho2).
    specialize (Ho1 a eq_refl). rewrite Forall_forall in Ho1.
    exists (added1 ++ added2). split; [rewrite Hg2, Hg1, app_assoc; reflexivity |].
    split.
    + eapply delegated_app; [exact Hd1 | rewrite <- Hg1; exact Hd2 |].
      intros t Ht. apply elem_of_app in Ht as [Ht | Ht]; auto.
    + intros b Hb. specialize (Ho2 b Hb).
      eapply Forall_impl; [exact Ho2 |]. cbv beta. intros t [Ht | Ht].
      * apply elem_of_app in Ht as [Ht | Ht]; [| auto].
        destruct (Ho1 t Ht); [auto |]. right. apply elem_of_app. auto.
      * right. apply elem_of_app. auto.
  - inversion H; subst. destruct (Hm _ _ _ E) as (added1 & Hg1 & Hd1 & _).
    exists added1. split; [exact Hg1 |]. split; [exact Hd1 |].
    intros b Hb. discriminate.
Qed.

Lemma delegates_out {A} fw known (m : M A) out out' :
  delegates fw known m out ->
  (forall a t, t ∈ out' a -> t ∈ out a) ->
  delegates fw known m out'.
Proof.
  intros Hm Ho s r s' H. destruct (Hm _ _ _ H) as (added & Hg & Hd & Hout).
  exists added. split; [exact Hg |]. split; [exact Hd |].
  intros a Ha. specialize (Hout a Ha). rewrite Forall_forall in Hout.
  apply Forall_forall. intros t Ht. apply Hout, Ho, Ht.
Qed.

Lemma delegates_shape_at fw known t i :
  delegates fw known (shape_at fw t i) (fun _ => []).
Proof.
  unfold shape_at. destruct t as [t|]; [| apply delegates_raise].
  destruct (fw_dim fw t i); [apply delegates_ret; constructor | apply delegates_raise].
Qed.

Lemma index_elem_of {A} (l : list A) i x : index l i = Ok x -> x ∈ l.
Proof.
  unfold index. destruct (l !! i) eqn:E; [| discriminate].
  intros H. inversion H; subst. eapply list_elem_of_lookup_2, E.
Qed.

Lemma index_last_elem_of {A} (l : list A) x : index_last l = Ok x -> x ∈ l.
Proof.
  unfold index_last. destruct (last l) eqn:E; [| discriminate].
  intros H. inversion H; subst. rewrite last_lookup in E.
  eapply list_elem_of_lookup_2, E.
Qed.

Lemma known_here (t : tensor) (known : list tensor) : t ∈ t :: known.
Proof. left. Qed.

Lemma known_app_r (t : tensor) (k1 k2 : list tensor) : t ∈ k2 -> t ∈ k1 ++ k2.
Proof. intros H. apply elem_of_app. right. exact H. Qed.

Lemma known_app_l (t : tensor) (k1 k2 : list tensor) : t ∈ k1 -> t ∈ k1 ++ k2.
Proof. intros H. apply elem_of_app. left. exact H. Qed.

Lemma known_all_app_r (l k1 k2 : list tensor) :
  Forall (fun t => t ∈ k2) l -> Forall (fun t => t ∈ k1 ++ k2) l.
Proof.
  intros H. eapply Forall_impl; [exact H | intros t; apply known_app_r].
Qed.

Lemma known_all_app_l (l k1 k2 : list tensor) :
  Forall (fun t => t ∈ k1) l -> Forall (fun t => t ∈ k1 ++ k2) l.
Proof.
  intros H. eapply Forall_impl; [exact H | intros t; apply known_app_l].
Qed.

Lemma known_self (l : list tensor) : Forall (fun t => t ∈ l) l.
Proof. apply Forall_forall. auto. Qed.

Lemma known_all_cons (l : list tensor) (t : tensor) (known : list tensor) :
  Forall (fun x => x ∈ known) l -> Forall (fun x => x ∈ t :: known) l.
Proof.
  intros H. eapply Forall_impl; [exact H | intros x; apply list_elem_of_further].
Qed.

Create HintDb known discriminated.
#[local] Hint Resolve known_here known_app_r known_app_l known_all_app_r
  known_all_app_l known_self known_all_cons : known.
#[local] Hint Constructors Forall : known.
#[local] Hint Resolve list_elem_of_further : known.

Ltac mem := solve [simpl in *; eauto 12 with known].

Lemma delegates_create_pyramid_level fw known b u a level fs :
  b ∈ known ->
  Forall (fun t => t ∈ known) (option_list u) ->
  Forall (fun t => t ∈ known) (option_list a) ->
  delegates fw known (create_pyramid_level fw b u a level fs)
    (fun r => r.1 :: option_list r.2).
Proof.
  intros Hb Hu Ha. unfold create_pyramid_level.
  eapply delegates_bind; [apply delegates_apply_layer; mem | intros p].
  eapply (delegates_bind _ _ _ _ (fun o => option_list o)).
  { destruct u as [t|].
    - inversion Hu; subst.
      eapply delegates_bind; [apply delegates_apply_layer; mem | intros t'].
      apply delegates_ret. mem.
    - apply delegates_ret. constructor. }
  intros pu.
  eapply (delegates_bind _ _ _ _ (fun t => [t])).
  { destruct a as [t|]; [inversion Ha; subst; apply delegates_apply_layer
                        | apply delegates_ret]; mem. }
  intros p'.
  eapply delegates_bind; [apply delegates_apply_layer; mem | intros pf].
  apply delegates_ret. destruct pu; mem.
Qed.

Lemma delegates_upsample_loop fw n nf tg :
  forall idxs known x,
    x ∈ known ->
    Forall (fun t => t ∈ known) (option_list tg) ->
    delegates fw known (upsample_loop fw idxs n nf tg x) (fun r => [r]).
Proof.
  induction idxs as [|i idxs IH]; intros known x Hx Htg; simpl.
  - apply delegates_ret. mem.
  - eapply delegates_bind; [apply delegates_apply_layer; mem | intros y].
    eapply (delegates_bind _ _ _ _ (fun t => [t])).
    { destruct tg as [t|]; [inversion Htg; subst; destruct (i =? n - 1) |];
        apply delegates_apply_layer; mem. }
    intros z. apply IH; mem.
Qed.

Lemma delegates_semantic_upsample fw known x n nf tg :
  x ∈ known ->
  Forall (fun t => t ∈ known) (option_list tg) ->
  delegates fw known (semantic_upsample fw x n nf tg) (fun r => [r]).
Proof.
  intros Hx Htg. unfold semantic_upsample.
  eapply delegates_bind; [apply delegates_upsample_loop; assumption | intros y].
  destruct (n =? 0); [| apply delegates_ret; mem].
  eapply delegates_bind; [apply delegates_apply_layer; mem | intros z].
  destruct tg as [t|]; [inversion Htg; subst; apply delegates_apply_layer
                       | apply delegates_ret]; mem.
Qed.

Lemma delegates_add_all fw :
  forall rest known x,
    x ∈ known ->
    Forall (fun t => t ∈ known) rest ->
    delegates fw known (add_all fw x rest) (fun r => [r]).
Proof.
  induction rest as [|f rest IH]; intros known x Hx Hrest; simpl.
  - apply delegates_ret. mem.
  - inversion Hrest; subst.
    eapply delegates_bind; [apply delegates_apply_layer; mem | intros y].
    apply IH; mem.
Qed.

Lemma delegates_semantic_prediction fw known names feats tl it nf nd nc :
  Forall (fun t => t ∈ known) feats ->
  Forall (fun t => t ∈ known) (option_list it) ->
  delegates fw known (semantic_prediction fw names feats tl it nf nd nc)
    (fun t => [t]).
Proof.
  intros Hf Hit. unfold semantic_prediction.
  eapply (delegates_bind _ _ _ _ (fun t => [t])).
  { apply delegates_lift. intros a Ha. apply index_elem_of in Ha.
    rewrite Forall_forall in Hf. mem. }
  intros sum0.
  eapply delegates_bind.
  { apply delegates_add_all; [mem |].
    apply known_all_app_r, Forall_drop, Hf. }
  intros sum.
  eapply (delegates_bind _ _ _ _ (fun _ => [])); [apply delegates_lift; mem |].
  intros last_name.
  eapply (delegates_bind _ _ _ _ (fun _ => [])); [apply delegates_lift; mem |].
  intros min_level.
  eapply delegates_bind.
  { apply delegates_semantic_upsample; [mem |].
    do 4 apply known_all_app_r. exact Hit. }
  intros x.
  eapply delegates_bind; [apply delegates_shape_at | intros d1].
  eapply delegates_bind; [apply delegates_shape_at | intros d2].
  eapply delegates_bind; [apply delegates_shape_at | intros d3].
  eapply delegates_bind; [apply delegates_apply_layer; mem | intros x1].
  eapply delegates_bind; [apply delegates_apply_layer; mem | intros x2].
  eapply delegates_bind; [apply delegates_apply_layer; mem | intros x3].
  eapply delegates_bind; [apply delegates_apply_layer; mem | intros x4].
  eapply delegates_bind; [apply delegates_apply_layer; mem | intros x5].
  apply delegates_apply_layer; mem.
Qed.

Lemma known_last (l known : list tensor) :
  Forall (fun t => t ∈ known) l ->
  Forall (fun t => t ∈ known) (option_list (last l)).
Proof.
  intros H. destruct (last l) as [t|] eqn:E; [| constructor].
  rewrite last_lookup in E. apply list_elem_of_lookup_2 in E.
  rewrite Forall_forall in H. simpl. auto.
Qed.

Lemma delegates_head_loop fw tl nf :
  forall items known sf sn,
    Forall (fun t => t ∈ known) items.*2 ->
    Forall (fun t => t ∈ known) sf ->
    delegates fw known (head_loop fw items tl nf sf sn) (fun r => r.1).
Proof.
  induction items as [|[N P] items IH]; intros known sf sn Hi Hs; simpl.
  - apply delegates_ret. exact Hs.
  - inversion Hi; subst.
    eapply (delegates_bind _ _ _ _ (fun _ => [])); [apply delegates_lift; mem |].
    intros level.
    eapply delegates_bind.
    { apply delegates_semantic_upsample; [mem | apply known_last, Hs]. }
    intros f. apply IH; [mem |].
    apply Forall_app. split; mem.
Qed.

Lemma known_index (l known : list tensor) i :
  Forall (fun t => t ∈ known) l ->
  forall a, index l i = Ok a -> Forall (fun t => t ∈ known) [a].
Proof.
  intros H a Ha. apply index_elem_of in Ha. rewrite Forall_forall in H. auto.
Qed.

Lemma known_index_last (l : list (option tensor)) (known : list tensor) :
  Forall (fun o => Forall (fun t => t ∈ known) (option_list o)) l ->
  forall a, index_last l = Ok a -> Forall (fun t => t ∈ known) (option_list a).
Proof.
  intros H a Ha. apply index_last_elem_of in Ha. rewrite Forall_forall in H. auto.
Qed.

Lemma delegates_pyramid_loop fw bn bf :
  forall idxs known pn pf pu,
    Forall (fun t => t ∈ known) bf ->
    Forall (fun t => t ∈ known) pf ->
    Forall (fun o => Forall (fun t => t ∈ known) (option_list o)) pu ->
    delegates fw known (pyramid_loop fw bn bf idxs pn pf pu) (fun r => r.1.2).
Proof.
  induction idxs as [|i idxs IH]; intros known pn pf pu Hbf Hpf Hpu; simpl.
  - apply delegates_ret. exact Hpf.
  - eapply (delegates_bind _ _ _ _ (fun _ => [])); [apply delegates_lift; mem |].
    intros N.
    eapply (delegates_bind _ _ _ _ (fun _ => [])); [apply delegates_lift; mem |].
    intros level.
    eapply (delegates_bind _ _ _ _ (fun t => [t]));
      [apply delegates_lift, known_index, Hbf |].
    intros b.
    eapply (delegates_bind _ _ _ _ (fun r => option_list r.1 ++ option_list r.2)).
    { destruct (i =? 0)%nat; [| destruct (i =? length bn - 1)%nat].
      - eapply (delegates_bind _ _ _ _ (fun t => [t])).
        + apply delegates_lift, known_index. mem.
        + intros u. apply delegates_ret. mem.
      - eapply (delegates_bind _ _ _ _ (fun o => option_list o)).
        + apply delegates_lift, known_index_last.
          eapply Forall_impl; [exact Hpu | intros o Ho; mem].
        + intros a. apply delegates_ret. simpl.
          apply known_all_app_l, known_self.
      - eapply (delegates_bind _ _ _ _ (fun t => [t])).
        + apply delegates_lift, known_index. mem.
        + intros u.
          eapply (delegates_bind _ _ _ _ (fun o => option_list o)).
          * apply delegates_lift, known_index_last.
            eapply Forall_impl; [exact Hpu | intros o Ho; mem].
          * intros a. apply delegates_ret. simpl. constructor; mem. }
    intros [u a].
    eapply delegates_bind.
    { apply delegates_create_pyramid_level; simpl fst; simpl snd.
      - mem.
      - apply known_all_app_l, Forall_forall. intros t Ht.
        apply elem_of_app. auto.
      - apply known_all_app_l, Forall_forall. intros t Ht.
        apply elem_of_app. auto. }
    intros [pf0 pu0]. simpl fst; simpl snd.
    apply IH.
    + do 5 apply known_all_app_r. exact Hbf.
    + apply Forall_app. split.
      * do 5 apply known_all_app_r. exact Hpf.
      * constructor; [| constructor]. mem.
    + apply Forall_app. split.
      * eapply Forall_impl; [exact Hpu |]. intros o Ho. simpl in Ho.
        do 5 apply known_all_app_r. exact Ho.
      * constructor; [| constructor].
        apply Forall_forall. intros t Ht. simpl. right. apply elem_of_app. auto.
Qed.

Lemma dict_get_value d x t : dict_get d x = Ok t -> t ∈ d.*2.
Proof.
  unfold dict_get.
  destruct (list_find (fun kv => kv.1 = x) d) as [[i [k v]]|] eqn:Hfind;
    [| discriminate].
  intros H. inversion H; subst. apply list_find_Some in Hfind as (Hi & _).
  apply list_elem_of_fmap. exists (k, t). split; [reflexivity |].
  eapply list_elem_of_lookup_2, Hi.
Qed.

Lemma known_dict_values d (known : list tensor) names feats :
  Forall (fun t => t ∈ known) d.*2 ->
  map_result (dict_get d) names = Ok feats ->
  Forall (fun t => t ∈ known) feats.
Proof.
  intros Hd H. apply map_result_Forall2 in H. rewrite Forall_forall in Hd.
  induction H as [|x y l l' Hxy _ IH]; constructor; [| exact IH].
  eapply Hd, dict_get_value, Hxy.
Qed.

Lemma delegates_derive_backbone fw known d :
  Forall (fun t => t ∈ known) d.*2 ->
  delegates fw known (derive_backbone d) (fun r => r.2).
Proof.
  intros Hd. unfold derive_backbone.
  eapply (delegates_bind _ _ _ _ (fun _ => [])); [apply delegates_lift; mem |].
  intros keyed.
  eapply (delegates_bind _ _ _ _ (fun feats => feats)).
  { apply delegates_lift. intros feats. apply known_dict_values, Hd. }
  intros feats. apply delegates_ret. simpl. apply known_all_app_l, known_self.
Qed.

Lemma delegates_bind_raise {A B} fw known e (k : A -> M B) out :
  delegates fw known (bind (raise e) k) out.
Proof.
  intros s r s' H. inversion H; subst. exists [].
  rewrite app_nil_r. split; [reflexivity |]. split; [constructor |].
  intros a Ha. discriminate.
Qed.

Lemma delegates_create_pyramid_features fw g bn bf fs :
  delegates fw (globals_tensors g) (__create_pyramid_features fw g bn bf fs)
    (fun r => r.2).
Proof.
  unfold __create_pyramid_features, globals_tensors.
  destruct (backbone_dict g) as [d|]; [| apply delegates_bind_raise].
  eapply (delegates_bind _ _ _ _ (fun d' : dict => d'.*2));
    [apply delegates_ret, known_self |].
  intros d'.
  eapply delegates_bind;
    [apply delegates_derive_backbone, known_all_app_l, known_self |].
  intros [names feats]. simpl snd.
  eapply delegates_bind.
  { apply delegates_pyramid_loop.
    - apply Forall_reverse, known_all_app_l, known_self.
    - constructor.
    - constructor. }
  intros [[pn pf] pu]. simpl fst; simpl snd.
  eapply (delegates_bind _ _ _ _ (fun _ => [])); [apply delegates_lift; mem |].
  intros N.
  eapply (delegates_bind _ _ _ _ (fun t => [t])).
  { apply delegates_lift, known_index.
    apply Forall_reverse, known_all_app_r, known_all_app_r, known_all_app_l,
      known_self. }
  intros F.
  eapply (delegates_bind _ _ _ _ (fun _ => [])); [apply delegates_lift; mem |].
  intros l1.
  eapply delegates_bind; [apply delegates_apply_layer; mem | intros P2].
  eapply (delegates_bind _ _ _ _ (fun _ => [])); [apply delegates_lift; mem |].
  intros l2.
  eapply delegates_bind; [apply delegates_apply_layer; mem | intros R].
  eapply delegates_bind; [apply delegates_apply_layer; mem | intros P1].
  apply delegates_ret. simpl snd. apply Forall_reverse.
  constructor; [mem |]. constructor; [mem |].
  simpl. repeat apply known_all_cons. apply known_all_app_l, known_self.
Qed.

Lemma delegates_FPNet fw backbone input_shape inputs nm w p rc nc name :
  delegates fw (option_list inputs)
    (FPNet fw module_globals backbone input_shape inputs nm w p rc nc name)
    (fun m => [model_inputs m; model_outputs m]).
Proof.
  unfold FPNet.
  eapply (delegates_bind _ _ _ _ (fun t => [t])).
  { destruct inputs as [t|]; [apply delegates_ret | apply delegates_apply_layer];
      mem. }
  intros i.
  eapply delegates_bind; [apply delegates_apply_layer; mem | intros norm].
  eapply delegates_bind; [apply delegates_apply_layer; mem | intros fixed].
  apply delegates_bind_raise.
Qed.

Lemma delegates_create_semantic_head fw rn rf it tl nc nf s r s' :
  __create_semantic_head fw rn rf it tl nc nf s = (r, s') ->
  exists added,
    graph s' = graph s ++ added /\
    delegated fw (graph s) (default [] (feats_heap s !! rf) ++ option_list it)
      added /\
    forall t, r = Ok t ->
      t ∈ default [] (feats_heap s !! rf) ++ option_list it \/ t ∈ added.
Proof.
  unfold __create_semantic_head. intros H.
  rewrite (bind_run (reverse_names rn) _ s tt _ eq_refl) in H.
  rewrite (bind_run (reverse_feats rf) _ _ tt _ eq_refl) in H.
  rewrite (bind_run (read_names rn) _ _ _ _ eq_refl) in H.
  rewrite (bind_run (read_feats rf) _ _ _ _ eq_refl) in H.
  simpl in H. rewrite !list_lookup_alter_eq in H.
  match type of H with
  | bind ?m ?k ?s0 = _ =>
      assert (Hd : delegates fw (default [] (feats_heap s !! rf) ++ option_list it)
                     (bind m k) (fun t => [t]))
  end.
  { eapply delegates_bind.
    - apply delegates_head_loop; [| constructor].
      apply Forall_forall. intros t Ht.
      apply list_elem_of_fmap in Ht as ([n t'] & -> & Ht).
      apply elem_of_zip_r in Ht. simpl in *.
      apply elem_of_app. left. revert Ht.
      destruct (feats_heap s !! rf) as [fs|]; simpl; [| auto].
      apply elem_of_reverse.
    - intros [sf sn]. simpl fst.
      apply delegates_semantic_prediction.
      + apply known_all_app_l, known_self.
      + apply known_all_app_r, known_all_app_r, known_self. }
  apply Hd in H as (added & Hg & Hdel & Hout). simpl in Hg, Hdel.
  exists added. split; [exact Hg |]. split; [exact Hdel |].
  intros t Ht. specialize (Hout t Ht). inversion Hout; subst. assumption.
Qed.

Lemma last_graph_app (g nodes : list tensor) t :
  last nodes = Some t -> last (g ++ nodes) = Some t.
Proof. intros H. rewrite last_app, H. reflexivity. Qed.

Lemma create_pyramid_level_last fw b u a level fs s pf pu s' :
  create_pyramid_level fw b u a level fs s = (Ok (pf, pu), s') ->
  last (graph s') = Some pf.
Proof.
  intros H. apply create_pyramid_level_Ok in H as (-> & _ & -> & _).
  unfold level_nodes. rewrite !app_assoc. apply last_snoc.
Qed.

Lemma semantic_upsample_last fw x n nf tg s r s' :
  0 <= n ->
  semantic_upsample fw x n nf tg s = (Ok r, s') ->
  last (graph s') = Some r.
Proof.
  intros Hn H. apply semantic_upsample_Ok in H as (-> & -> & _); [| exact Hn].
  apply last_graph_app. unfold upsample_nodes, upsample_spec.
  destruct (Z.to_nat n) as [|k].
  - destruct tg; reflexivity.
  - rewrite last_app. reflexivity.
Qed.

Lemma semantic_prediction_last fw names feats tl it nf nd nc s t s' :
  semantic_prediction fw names feats tl it nf nd nc s = (Ok t, s') ->
  last (graph s') = Some t /\
  exists x, t = Apply (Softmax (channel_axis fw)) [x].
Proof.
  intros H. apply semantic_prediction_Ok in H as (y & shape & g0 & -> & Hlast).
  split; [apply last_graph_app, Hlast |].
  simpl in Hlast. inversion Hlast. eauto.
Qed.

Lemma create_semantic_head_last fw rn rf it tl nc nf s t s' :
  __create_semantic_head fw rn rf it tl nc nf s = (Ok t, s') ->
  last (graph s') = Some t /\
  exists x, t = Apply (Softmax (channel_axis fw)) [x].
Proof.
  unfold __create_semantic_head. intros H.
  rewrite (bind_run (reverse_names rn) _ s tt _ eq_refl) in H.
  rewrite (bind_run (reverse_feats rf) _ _ tt _ eq_refl) in H.
  rewrite (bind_run (read_names rn) _ _ _ _ eq_refl) in H.
  rewrite (bind_run (read_feats rf) _ _ _ _ eq_refl) in H.
  apply bind_Ok in H as ([sem qnames] & s1 & _ & H).
  eapply semantic_prediction_last, H.
Qed.

Lemma create_pyramid_features_last fw g bn bf fs s pn pf s' :
  __create_pyramid_features fw g bn bf fs s = (Ok (pn, pf), s') ->
  exists t, last pf = Some t /\ last (graph s') = Some t.
Proof.
  unfold __create_pyramid_features. intros H.
  apply bind_Ok in H as (d & s1 & _ & H).
  apply bind_Ok in H as ([names feats] & s2 & _ & H).
  apply bind_Ok in H as ([[pn0 pf0] pu0] & s3 & _ & H).
  apply bind_Ok in H as (N & s4 & _ & H).
  apply bind_Ok in H as (F & s5 & _ & H).
  apply bind_Ok in H as (l1 & s6 & _ & H).
  apply bind_Ok in H as (P2 & s7 & _ & H).
  apply bind_Ok in H as (l2 & s8 & _ & H).
  apply bind_Ok in H as (R & s9 & _ & H).
  apply bind_Ok in H as (P1 & s10 & HP1 & H).
  apply apply_layer_Ok in HP1 as (_ & -> & ->).
  inversion H; subst. eexists. split.
  - rewrite reverse_cons. apply last_snoc.
  - simpl. apply last_snoc.
Qed.

(** A computation that returns a tensor it put together itself, without a
    layer call, does not satisfy [delegates]. *)
Lemma delegates_excludes_own_tensors :
  ~ delegates permissive [Given 0%nat; Given 1%nat]
      (ret (Apply (Add None) [Given 0%nat; Given 1%nat])) (fun t => [t]).
Proof.
  intros H.
  destruct (H empty_state _ _ eq_refl) as (added & Hg & _ & Hout).
  simpl in Hg. subst added.
  specialize (Hout _ eq_refl). inversion Hout as [|t l [Ht | Ht] _]; subst.
  - apply elem_of_cons in Ht as [Ht | Ht]; [discriminate |].
    apply elem_of_cons in Ht as [Ht | Ht]; [discriminate |].
    apply elem_of_nil in Ht. exact Ht.
  - apply elem_of_nil in Ht. exact Ht.
Qed.

(** C8, as amended: every tensor operation of the file is a call of a layer
    class the file imports, from the framework's own layers or, for
    [UpsampleLike], [TensorProduct] and [ImageNormalization2D], from
    [deepcell.layers]; there is no other tensor computation.  For each
    function, whether it returns or raises: the graph grows only by layers
    of these classes that the framework accepted, each called on tensors
    the function was given or on outputs of its earlier layer calls, and
    every tensor returned is one of these.  The tensor returned by
    [create_pyramid_level], by [semantic_upsample] for a number of rounds
    that is not negative, by [semantic_prediction], by
    [__create_semantic_head] and the last one returned by
    [__create_pyramid_features] is the output of the last layer called;
    for the two functions of the semantic head it is the output of the
    [Softmax] layer. *)
Theorem tensor_operations_delegated fw :
  imported_layers = framework_layers ++ deepcell_layers
  /\ (forall b u a level fs,
        delegates fw (b :: option_list u ++ option_list a)
          (create_pyramid_level fw b u a level fs)
          (fun r => r.1 :: option_list r.2))
  /\ (forall x n nf tg,
        delegates fw (x :: option_list tg) (semantic_upsample fw x n nf tg)
          (fun r => [r]))
  /\ (forall names feats tl it nf nd nc,
        delegates fw (feats ++ option_list it)
          (semantic_prediction fw names feats tl it nf nd nc)
          (fun t => [t]))
  /\ (forall rn rf it tl nc nf s r s',
        __create_semantic_head fw rn rf it tl nc nf s = (r, s') ->
        exists added,
          graph s' = graph s ++ added /\
          delegated fw (graph s)
            (default [] (feats_heap s !! rf) ++ option_list it) added /\
          forall t, r = Ok t ->
            t ∈ default [] (feats_heap s !! rf) ++ option_list it \/ t ∈ added)
  /\ (forall g bn bf fs,
        delegates fw (globals_tensors g)
          (__create_pyramid_features fw g bn bf fs) (fun r => r.2))
  /\ (forall backbone input_shape inputs nm w p rc nc name,
        delegates fw (option_list inputs)
          (FPNet fw module_globals backbone input_shape inputs nm w p rc nc name)
          (fun m => [model_inputs m; model_outputs m]))
  /\ (forall b u a level fs s pf pu s',
        create_pyramid_level fw b u a level fs s = (Ok (pf, pu), s') ->
        last (graph s') = Some pf)
  /\ (forall x n nf tg s r s',
        0 <= n ->
        semantic_upsample fw x n nf tg s = (Ok r, s') ->
        last (graph s') = Some r)
  /\ (forall names feats tl it nf nd nc s t s',
        semantic_prediction fw names feats tl it nf nd nc s = (Ok t, s') ->
        last (graph s') = Some t /\
        exists x, t = Apply (Softmax (channel_axis fw)) [x])
  /\ (forall rn rf it tl nc nf s t s',
        __create_semantic_head fw rn rf it tl nc nf s = (Ok t, s') ->
        last (graph s') = Some t /\
        exists x, t = Apply (Softmax (channel_axis fw)) [x])
  /\ (forall g bn bf fs s pn pf s',
        __create_pyramid_features fw g bn bf fs s = (Ok (pn, pf), s') ->
        exists t, last pf = Some t /\ last (graph s') = Some t).
Proof.
  split; [reflexivity |].
  split.
  { intros. apply delegates_create_pyramid_level.
    - left.
    - apply known_all_cons, known_all_app_l, known_self.
    - apply known_all_cons, known_all_app_r, known_self. }
  split.
  { intros. apply delegates_semantic_upsample; [left |].
    apply known_all_cons, known_self. }
  split.
  { intros. apply delegates_semantic_prediction.
    - apply known_all_app_l, known_self.
    - apply known_all_app_r, known_self. }
  split; [intros *; apply delegates_create_semantic_head |].
  split; [intros; apply delegates_create_pyramid_features |].
  split; [intros; apply delegates_FPNet |].
  split; [intros *; apply create_pyramid_level_last |].
  split; [intros *; apply semantic_upsample_last |].
  split; [intros *; apply semantic_prediction_last |].
  split; [intros *; apply create_semantic_head_last |].
  intros *; apply create_pyramid_features_last.
Qed.

Lemma tensor_operations_delegated_witness :
  exists t s',
    semantic_prediction permissive ["P3"] [Given 3%nat] 3 (Some (Given 0%nat))
      256 256 3 empty_state = (Ok t, s')
    /\ last (graph s') = Some t
    /\ exists x, t = Apply (Softmax (channel_axis permissive)) [x].
Proof.
  eexists _, _. split; [vm_compute; reflexivity |].
  apply (proj1 (proj2 (proj2 (proj2 (proj2 (proj2 (proj2 (proj2 (proj2 (proj2
           (tensor_operations_delegated permissive))))))))))
           ["P3"] [Given 3%nat] 3 (Some (Given 0%nat)) 256 256 3 empty_state).
  vm_compute. reflexivity.
Defined.

(** C8, as stated, fails: the two dense layers of [semantic_prediction] are
    [TensorProduct] layers, a class the file imports from [deepcell.layers]
    and not from the layers of the framework. *)
Lemma semantic_prediction_calls_deepcell_layer :
  exists t s' xs,
    semantic_prediction permissive ["P3"] [Given 3%nat] 3 (Some (Given 0%nat))
      256 256 3 empty_state = (Ok t, s')
    /\ Apply (TensorProduct 256) xs ∈ graph s'
    /\ (layer_class (TensorProduct 256) ∉ framework_layers)
    /\ layer_class (TensorProduct 256) ∈ deepcell_layers.
Proof.
  eexists _, _, _. split; [vm_compute; reflexivity |].
  split; [| split].
  - simpl. do 3 right. left.
  - apply (bool_decide_eq_false_1 _). vm_compute. reflexivity.
  - apply (bool_decide_eq_true_1 _). vm_compute. reflexivity.
Qed.

(** * Further properties *)

(** ** Numerals in names *)

Lemma chars_app a b : chars (a +:+ b) = chars a ++ chars b.
Proof.
  unfold chars. induction a as [|c a IH]; simpl; [reflexivity |].
  f_equal. exact IH.
Qed.

Lemma uint_chars_digits d :
  Forall (fun c => is_digit c = true) (chars (NilEmpty.string_of_uint d)).
Proof.
  induction d; simpl; constructor; try reflexivity; assumption.
Qed.

Lemma uint_value_acc d :
  forall acc : positive,
    fold_left digit_step (chars (NilEmpty.string_of_uint d)) (Z.pos acc)
    = Z.pos (Pos.of_uint_acc d acc).
Proof.
  induction d; intros acc; simpl; [reflexivity | ..];
    rewrite <- IHd; f_equal; unfold digit_step, digit_value;
    match goal with
    | |- context [Z.of_nat (nat_of_ascii ?c)] =>
        let v := eval vm_compute in (Z.of_nat (nat_of_ascii c)) in
        change (Z.of_nat (nat_of_ascii c)) with v
    end; lia.
Qed.

Lemma uint_value d :
  fold_left digit_step (chars (NilEmpty.string_of_uint d)) 0
  = Z.of_N (Pos.of_uint d).
Proof.
  induction d; simpl; [reflexivity | exact IHd | ..];
    rewrite <- uint_value_acc; reflexivity.
Qed.

Lemma nilzero_nonnil d :
  d <> Decimal.Nil -> NilZero.string_of_uint d = NilEmpty.string_of_uint d.
Proof. destruct d; [contradiction | reflexivity ..]. Qed.

Lemma str_pos p : str (Z.pos p) = NilEmpty.string_of_uint (Pos.to_uint p).
Proof.
  unfold str. simpl. apply nilzero_nonnil, DecimalPos.Unsigned.to_uint_nonnil.
Qed.

Lemma str_neg p : chars (str (Z.neg p)) = "-"%char :: chars (str (Z.pos p)).
Proof.
  rewrite str_pos. unfold str. simpl.
  rewrite nilzero_nonnil by apply DecimalPos.Unsigned.to_uint_nonnil.
  reflexivity.
Qed.

(** The numeral of a natural number: digits only, at least one, and their
    value is the number. *)
Lemma str_nonneg l :
  0 <= l ->
  Forall (fun c => is_digit c = true) (chars (str l)) /\
  chars (str l) <> [] /\
  fold_left digit_step (chars (str l)) 0 = l.
Proof.
  intros Hl. destruct l as [|p|p]; [| | lia].
  - repeat split; [repeat constructor | discriminate].
  - rewrite str_pos. split; [apply uint_chars_digits |]. split.
    + pose proof (DecimalPos.Unsigned.to_uint_nonnil p) as Hnil.
      destruct (Pos.to_uint p); [contradiction | discriminate ..].
    + rewrite uint_value, DecimalPos.Unsigned.of_to. reflexivity.
Qed.

Lemma first_digits_skip pre cs :
  Forall (fun c => is_digit c = false) pre ->
  first_digits (pre ++ cs) = first_digits cs.
Proof.
  induction 1 as [|c pre Hc _ IH]; simpl; [reflexivity |].
  rewrite Hc. exact IH.
Qed.

Lemma take_digits_app ds suf :
  Forall (fun c => is_digit c = true) ds ->
  match suf with [] => True | c :: _ => is_digit c = false end ->
  take_digits (ds ++ suf) = ds.
Proof.
  intros Hds Hsuf. induction Hds as [|c ds Hc _ IH]; simpl.
  - destruct suf as [|c suf]; [reflexivity |]. simpl. rewrite Hsuf. reflexivity.
  - rewrite Hc, IH. reflexivity.
Qed.

Lemma first_digits_run ds suf :
  Forall (fun c => is_digit c = true) ds ->
  ds <> [] ->
  match suf with [] => True | c :: _ => is_digit c = false end ->
  first_digits (ds ++ suf) = Some ds.
Proof.
  intros Hds Hne Hsuf. destruct Hds as [|c ds Hc Hds]; [contradiction |].
  simpl. rewrite Hc, take_digits_app by assumption. reflexivity.
Qed.

Lemma level_of_numeral_chars pre l suf :
  Forall (fun c => is_digit c = false) pre ->
  match suf with [] => True | c :: _ => is_digit c = false end ->
  first_digits (pre ++ chars (str l) ++ suf) = Some (chars (str (Z.abs l))).
Proof.
  intros Hpre Hsuf. rewrite first_digits_skip by exact Hpre.
  destruct (str_nonneg (Z.abs l) (Z.abs_nonneg l)) as (Hd & Hne & _).
  destruct l as [|p|p]; simpl Z.abs in *.
  - apply first_digits_run; assumption.
  - apply first_digits_run; assumption.
  - rewrite str_neg.
    change (("-"%char :: chars (str (Z.pos p))) ++ suf)
      with (["-"%char] ++ chars (str (Z.pos p)) ++ suf).
    rewrite first_digits_skip by (repeat constructor).
    apply first_digits_run; assumption.
Qed.

Lemma level_of_numeral_gen prefix l suffix :
  no_digit prefix ->
  no_leading_digit suffix ->
  level_of (prefix +:+ str l +:+ suffix) = Ok (Z.abs l).
Proof.
  intros Hpre Hsuf. unfold level_of.
  rewrite !chars_app, level_of_numeral_chars by assumption.
  f_equal. apply (str_nonneg (Z.abs l) (Z.abs_nonneg l)).
Qed.

(** X1: a name built as a prefix without digits, the numeral of a level
    and a suffix that does not start with a digit reads back as that level
    (as its absolute value when the level is negative: the sign is not
    part of the run of digits). *)
Theorem level_of_numeral prefix l suffix :
  no_digit prefix ->
  no_leading_digit suffix ->
  level_of (prefix +:+ str l +:+ suffix) = Ok (Z.abs l).
Proof. apply level_of_numeral_gen. Qed.

Lemma level_of_numeral_witness :
  level_of ("P" +:+ str 5 +:+ "_upsampled") = Ok (Z.abs 5).
Proof.
  apply (level_of_numeral "P" 5 "_upsampled").
  - repeat constructor.
  - reflexivity.
Defined.

Lemma lstrip_head c cs : is_space c = false -> lstrip (c :: cs) = c :: cs.
Proof. intros H. simpl. rewrite H. reflexivity. Qed.

Lemma strip_signed c ds :
  is_space c = false ->
  Forall (fun d => is_digit d = true) ds ->
  strip (c :: ds) = c :: ds.
Proof.
  intros Hc Hds. unfold strip. rewrite lstrip_head by exact Hc.
  replace (lstrip (rev (c :: ds))) with (rev (c :: ds)); [apply rev_involutive |].
  simpl rev. apply Forall_rev in Hds.
  destruct (rev ds) as [|d r] eqn:Hr; simpl.
  - rewrite Hc. reflexivity.
  - inversion Hds as [|? ? Hd _]; subst.
    destruct (digit_codes d Hd) as (-> & _). reflexivity.
Qed.

Lemma py_int_str l : py_int (str l) = Ok l.
Proof.
  unfold py_int. fold (chars (str l)).
  destruct l as [|p|p].
  - reflexivity.
  - destruct (str_nonneg (Z.pos p)) as (Hd & Hne & Hv); [lia |].
    rewrite strip_digits by exact Hd.
    destruct (chars (str (Z.pos p))) as [|d ds] eqn:Hcs; [contradiction |].
    inversion Hd as [|? ? Hd1 _]; subst.
    destruct (digit_codes d Hd1) as (_ & _ & -> & ->).
    rewrite (int_body_digits (d :: ds) Hd) by (left; discriminate).
    unfold digit_step in Hv. rewrite Hv. reflexivity.
  - destruct (str_nonneg (Z.pos p)) as (Hd & Hne & Hv); [lia |].
    rewrite str_neg, strip_signed by (reflexivity || exact Hd).
    change (nat_of_ascii "-" =? 45)%nat with true. cbv iota.
    rewrite (int_body_digits _ Hd) by (left; exact Hne).
    unfold digit_step in Hv. rewrite Hv. reflexivity.
Qed.

(** X2: for a name made of one character that is not a digit and the
    numeral of [l], the sort key [int(x[1:])] is [l] and the level read by
    [re.findall] is the absolute value of [l]: the two readings of a name
    agree exactly when [l] is not negative. *)
Theorem sort_key_and_level_of_numeral c l :
  is_digit c = false ->
  sort_key (String c (str l)) = Ok l /\
  level_of (String c (str l)) = Ok (Z.abs l) /\
  (plain_level_name (String c (str l)) <-> 0 <= l).
Proof.
  intros Hc.
  assert (Hk : sort_key (String c (str l)) = Ok l) by apply py_int_str.
  assert (Hl : level_of (String c (str l)) = Ok (Z.abs l)).
  { pose proof (level_of_numeral_gen (String c "") l "") as H.
    unfold level_of in *. rewrite !chars_app in H. simpl in H.
    rewrite app_nil_r in H. apply H; [repeat constructor; exact Hc | exact I]. }
  split; [exact Hk |]. split; [exact Hl |].
  unfold plain_level_name. rewrite Hk, Hl. split.
  - intros H. specialize (H l eq_refl). inversion H. lia.
  - intros H0 k Hk'. inversion Hk'; subst. f_equal. lia.
Qed.

Lemma sort_key_and_level_of_numeral_witness :
  sort_key (String "C" (str (-3))) = Ok (-3) /\
  level_of (String "C" (str (-3))) = Ok (Z.abs (-3)) /\
  (plain_level_name (String "C" (str (-3))) <-> 0 <= -3).
Proof.
  apply (sort_key_and_level_of_numeral "C" (-3)). reflexivity.
Defined.

(** ** The backbone lists derived from [backbone_dict] *)

Lemma py_int_Raise x e : py_int x = Raise e -> e = ValueError.
Proof.
  unfold py_int.
  match goal with |- context [match ?b with Some _ => _ | None => _ end] => destruct b end;
    intros H; inversion H; reflexivity.
Qed.

Lemma with_key_Raise x e : with_key x = Raise e -> sort_key x = Raise ValueError.
Proof.
  unfold with_key. destruct (sort_key x) as [k|e'] eqn:Hk; [discriminate |].
  intros _. apply py_int_Raise in Hk as ->. reflexivity.
Qed.

Lemma map_result_Raise {A B} (f : A -> result B) l e :
  map_result f l = Raise e -> exists x, x ∈ l /\ f x = Raise e.
Proof.
  induction l as [|x l IH]; simpl; [discriminate |].
  destruct (f x) as [y|e'] eqn:Hx.
  - destruct (map_result f l) as [ys|e'']; [discriminate |].
    intros H. destruct (IH H) as (x' & Hin & Hx').
    exists x'. split; [apply list_elem_of_further, Hin | exact Hx'].
  - intros H. inversion H; subst. exists x. split; [apply list_elem_of_here | exact Hx].
Qed.

Lemma dict_get_key d x : x ∈ dict_keys d -> exists t, dict_get d x = Ok t.
Proof.
  intros Hin. unfold dict_get.
  destruct (list_find (fun kv => kv.1 = x) d) as [[i [k v]]|] eqn:Hfind.
  - exists v. reflexivity.
  - apply list_find_None in Hfind.
    apply list_elem_of_fmap in Hin as ([k v] & -> & Hkv).
    rewrite Forall_forall in Hfind. destruct (Hfind _ Hkv). reflexivity.
Qed.

Lemma derive_backbone_cases d s :
  match derive_backbone d s with
  | (Ok (names, feats), s') =>
      s' = s /\ names ≡ₚ dict_keys d /\ length feats = length names /\
      Forall (fun x => exists k, sort_key x = Ok k) (dict_keys d)
  | (Raise e, s') =>
      s' = s /\ e = ValueError /\
      Exists (fun x => sort_key x = Raise ValueError) (dict_keys d)
  end.
Proof.
  destruct (derive_backbone d s) as [[[names feats]|e] s'] eqn:H.
  - apply derive_backbone_Ok in H
      as (-> & sorted & -> & Hperm & Hkeys & _ & Hfeats).
    split; [reflexivity |]. split; [exact Hperm |].
    split; [symmetry; apply (Forall2_length _ _ _ Hfeats) |].
    rewrite <- Hperm. apply Forall_fmap.
    eapply Forall_impl; [exact Hkeys |]. intros [k x] Hk. exists k. exact Hk.
  - unfold derive_backbone in H.
    apply bind_Raise in H as [H | (keyed & s1 & Hk & H)].
    + unfold lift in H. inversion H as [[Hm Hs]]. clear H.
      apply map_result_Raise in Hm as (x & Hin & Hx).
      apply with_key_Raise in Hx as Hx'.
      assert (e = ValueError) as ->.
      { unfold with_key in Hx. rewrite Hx' in Hx. congruence. }
      repeat split. apply Exists_exists. exists x. split; [exact Hin | exact Hx'].
    + apply lift_Ok in Hk as [Hk ->].
      apply bind_Raise in H as [H | (fs & s2 & _ & H)]; [| discriminate H].
      unfold lift in H. inversion H as [[Hm Hs]]. clear H.
      apply map_result_Raise in Hm as (n & Hin & Hn).
      apply map_result_Forall2, with_key_Forall2 in Hk as [Hk _].
      assert (Hn' : n ∈ dict_keys d).
      { rewrite <- Hk. rewrite <- (sort_by_key_Permutation keyed). exact Hin. }
      destruct (dict_get_key d n Hn') as (t & Ht). congruence.
Qed.

(** X3: the first three statements either leave [backbone_names] a
    rearrangement of the keys of [backbone_dict], with one feature per
    name, or raise [ValueError]; they raise exactly when some key has no
    integer after its first character, and a lookup [backbone_dict[name]]
    never fails. *)
Theorem derive_backbone_outcome d s :
  match derive_backbone d s with
  | (Ok (names, feats), s') =>
      s' = s /\ names ≡ₚ dict_keys d /\ length feats = length names /\
      Forall (fun x => exists k, sort_key x = Ok k) (dict_keys d)
  | (Raise e, s') =>
      s' = s /\ e = ValueError /\
      Exists (fun x => sort_key x = Raise ValueError) (dict_keys d)
  end.
Proof. apply derive_backbone_cases. Qed.

(** ** The wiring of the pyramid *)

Lemma index_last_Ok {A} (l : list A) x : index_last l = Ok x -> last l = Some x.
Proof. unfold index_last. destruct (last l); intros H; inversion H; reflexivity. Qed.

Lemma lookup_zip {A B} (l : list A) (k : list B) i x y :
  l !! i = Some x -> k !! i = Some y -> zip l k !! i = Some (x, y).
Proof.
  intros Hx Hy. apply lookup_zip_with_Some. exists x, y. auto.
Qed.

(** The loop, from index [i] with [k] indices left: when the list of
    upsampled tensors ends with the one made for index [i] by the level
    before, the loop appends the tensors of the levels from [i] on. *)
Lemma pyramid_loop_wiring fw bn bf lv :
  Forall2 (fun N l => level_of N = Ok l) bn lv ->
  length bf = length bn ->
  forall k i pn pf pu s pn' pf' pu' s',
    (i + k = length bn)%nat ->
    (forall j lj bj b,
       i = S j -> lv !! j = Some lj -> bf !! j = Some bj -> bf !! i = Some b ->
       last pu = Some (Some (upsampled lj (conv1x1 256 lj bj) b))) ->
    pyramid_loop fw bn bf (seq i k) pn pf pu s = (Ok (pn', pf', pu'), s') ->
    pf' = pf ++ top_down (match i with O => None | S j => zip lv bf !! j end)
                  (drop i (zip lv bf)).
Proof.
  intros Hlv Hlen. pose proof (Forall2_length _ _ _ Hlv) as Hlenlv.
  induction k as [|k IH]; intros i pn pf pu s pn' pf' pu' s' Hi Hprev H.
  - simpl in H. inversion H; subst.
    rewrite drop_ge by (rewrite length_zip_with; lia).
    destruct i; simpl; rewrite app_nil_r; reflexivity.
  - simpl in H.
    apply bind_Ok in H as (N & s1 & HN & H). apply lift_Ok in HN as [HN ->].
    apply index_Ok in HN.
    apply bind_Ok in H as (level & s2 & Hl & H). apply lift_Ok in Hl as [Hl ->].
    destruct (Forall2_lookup_l _ _ _ _ _ Hlv HN) as (l & Hlvi & HNl).
    assert (level = l) by congruence. subst level.
    apply bind_Ok in H as (b & s3 & Hb & H). apply lift_Ok in Hb as [Hb ->].
    apply index_Ok in Hb.
    pose proof (lookup_zip lv bf i l b Hlvi Hb) as Hzip.
    rewrite (drop_S _ _ _ Hzip).
    apply bind_Ok in H as ([u a] & s4 & Hbranch & H).
    apply bind_Ok in H as ([pf0 pu0] & s5 & Hc & H).
    apply create_pyramid_level_Ok in Hc as (Hpf0 & Hpu0 & _).
    destruct i as [|j].
    + (* the coarsest level *)
      simpl in Hbranch.
      apply bind_Ok in Hbranch as (b1 & s6 & Hb1 & Hbranch).
      apply lift_Ok in Hb1 as [Hb1 _]. apply index_Ok in Hb1.
      inversion Hbranch; subst u a.
      apply (IH 1%nat) in H; [| lia |].
      * rewrite H, <- app_assoc. simpl. rewrite Hzip, Hpf0. reflexivity.
      * intros j lj bj b' Hj Hlj Hbj Hb'. inversion Hj; subst j.
        rewrite last_snoc. rewrite Hpu0.
        assert (lj = l) by congruence. assert (bj = b) by congruence.
        assert (b' = b1) by (simpl in Hb1; congruence). subst. reflexivity.
    + (* a level below the coarsest *)
      assert (Hj : (j < length bn)%nat) by lia.
      destruct (lookup_lt_is_Some_2 lv j) as [lj Hlj]; [lia |].
      destruct (lookup_lt_is_Some_2 bf j) as [bj Hbj]; [lia |].
      pose proof (Hprev j lj bj b eq_refl Hlj Hbj Hb) as Hlast.
      rewrite (lookup_zip lv bf j lj bj Hlj Hbj).
      assert (Ha : a = Some (upsampled lj (conv1x1 256 lj bj) b)).
      { change (S j =? 0)%nat with false in Hbranch. cbv iota in Hbranch.
        destruct (S j =? length bn - 1)%nat.
        - apply bind_Ok in Hbranch as (a' & s6 & Ha' & Hbranch).
          apply lift_Ok in Ha' as [Ha' _]. apply index_last_Ok in Ha'.
          inversion Hbranch; subst. congruence.
        - apply bind_Ok in Hbranch as (u' & s6 & _ & Hbranch).
          apply bind_Ok in Hbranch as (a' & s7 & Ha' & Hbranch).
          apply lift_Ok in Ha' as [Ha' _]. apply index_last_Ok in Ha'.
          inversion Hbranch; subst. congruence. }
      apply (IH (S (S j))) in H; [| lia |].
      * rewrite H, <- app_assoc. simpl. rewrite Hzip, Hpf0, Ha. reflexivity.
      * intros j' lj' bj' b' Hj' Hlj' Hbj' Hb'. inversion Hj'; subst j'.
        rewrite last_snoc, Hpu0.
        assert (lj' = l) by congruence. assert (bj' = b) by congruence. subst.
        change (S j =? 0)%nat with false in Hbranch. cbv iota in Hbranch.
        destruct (S j =? length bn - 1)%nat eqn:Htest.
        -- apply Nat.eqb_eq in Htest.
           apply lookup_lt_Some in Hb'. lia.
        -- apply bind_Ok in Hbranch as (u' & s6 & Hu' & Hbranch).
           apply lift_Ok in Hu' as [Hu' _]. apply index_Ok in Hu'.
           apply bind_Ok in Hbranch as (a' & s7 & _ & Hbranch).
           inversion Hbranch; subst.
           rewrite Nat.add_1_r in Hu'. assert (b' = u') by congruence. subst.
           reflexivity.
Qed.

Lemma pyramid_features_closed_form fw g bn bf fs s pn pf s' d :
  backbone_dict g = Some d ->
  __create_pyramid_features fw g bn bf fs s = (Ok (pn, pf), s') ->
  exists names feats levels N F top,
    derive_backbone d s = (Ok (names, feats), s) /\
    map_result level_of names = Ok levels /\
    last names = Some N /\ last feats = Some F /\ last levels = Some top /\
    pn = (pname <$> levels) ++ [pname (top + 1); pname (top + 2)] /\
    pf = reverse (top_down None (zip (reverse levels) (reverse feats)))
         ++ [above_top fs top F; above_top2 fs top N F].
Proof.
  intros Hg H. unfold __create_pyramid_features in H.
  apply bind_Ok in H as (d' & s1 & Hd' & H).
  rewrite Hg in Hd'. inversion Hd'; subst d' s1; clear Hd'.
  apply bind_Ok in H as ([names feats] & s2 & Hder & H).
  pose proof Hder as Hder'.
  apply derive_backbone_Ok in Hder' as (-> & sorted & Hnames & _ & _ & _ & Hfeats).
  apply bind_Ok in H as ([[pn0 pf0] pu0] & s3 & Hloop & H).
  pose proof Hloop as Hloop'.
  apply pyramid_loop_Ok in Hloop' as (lv & new & Hlv & Hpn0 & _ & _).
  apply Forall2_seq_lookup in Hlv. simpl in Hpn0.
  apply (pyramid_loop_wiring fw _ _ lv Hlv) in Hloop;
    [| rewrite !length_reverse; symmetry; apply (Forall2_length _ _ _ Hfeats)
     | lia | discriminate].
  simpl in Hloop.
  apply bind_Ok in H as (N & s4 & HN & H). apply lift_Ok in HN as [HN ->].
  apply bind_Ok in H as (F & s5 & HF & H). apply lift_Ok in HF as [HF ->].
  apply bind_Ok in H as (l1 & s6 & Hl1 & H). apply lift_Ok in Hl1 as [Hl1 ->].
  apply bind_Ok in H as (p2 & s7 & Hp2 & H).
  apply apply_layer_Ok in Hp2 as (_ & -> & _).
  apply bind_Ok in H as (l2 & s8 & Hl2 & H). apply lift_Ok in Hl2 as [Hl2 _].
  assert (l2 = l1) by congruence. subst l2.
  apply bind_Ok in H as (p1 & s9 & Hp1 & H).
  apply apply_layer_Ok in Hp1 as (_ & -> & _).
  apply bind_Ok in H as (p1' & s10 & Hp1' & H).
  apply apply_layer_Ok in Hp1' as (_ & -> & _).
  inversion H; subst pn pf s'; clear H.
  apply index_Ok in HN. apply index_Ok in HF.
  rewrite <- head_lookup, head_reverse in HN.
  rewrite <- head_lookup, head_reverse in HF.
  destruct (Forall2_lookup_l _ _ _ _ _ Hlv
              (eq_trans (eq_sym (head_lookup _)) (eq_trans (head_reverse _) HN)))
    as (l & Hl & HNl).
  assert (l = l1) by congruence. subst l.
  exists names, feats, (reverse lv), N, F, l1.
  split; [exact Hder |]. split.
  { apply Forall2_map_result.
    rewrite <- (reverse_involutive names). apply Forall2_reverse, Hlv. }
  split; [exact HN |]. split; [exact HF |]. split.
  { rewrite <- head_reverse, reverse_involutive, head_lookup. exact Hl. }
  split.
  - rewrite Hpn0, !reverse_cons, <- fmap_reverse, <- app_assoc. reflexivity.
  - rewrite Hloop, !reverse_cons, reverse_involutive, <- app_assoc. reflexivity.
Qed.

Lemma top_down_filters prev items :
  Forall (fun t => conv_filters t = Some 256) (top_down prev items).
Proof.
  revert prev. induction items as [|[l b] items IH]; intros prev; simpl;
    constructor; [reflexivity | apply IH].
Qed.

Lemma length_top_down prev items : length (top_down prev items) = length items.
Proof.
  revert prev. induction items as [|[l b] items IH]; intros prev; simpl;
    [reflexivity | rewrite IH; reflexivity].
Qed.

(** X4: when [backbone_dict] is bound and [__create_pyramid_features]
    returns, the names returned are those of the levels read from the
    backbone names, in ascending order of sort key, followed by the two
    levels above the coarsest one.  The tensor of the coarsest backbone
    level is the 3x3 convolution of its 1x1 convolution; the tensor of
    every finer level is the 3x3 convolution of the sum of its own 1x1
    convolution and the 1x1 convolution of the next coarser level, resized
    to the finer backbone feature.  The first level above is a stride-2
    convolution of the coarsest backbone feature and the second a stride-2
    convolution of the rectified first. *)
Theorem pyramid_wiring fw g bn bf fs s pn pf s' d :
  backbone_dict g = Some d ->
  __create_pyramid_features fw g bn bf fs s = (Ok (pn, pf), s') ->
  exists names feats levels N F top,
    derive_backbone d s = (Ok (names, feats), s) /\
    map_result level_of names = Ok levels /\
    last names = Some N /\ last feats = Some F /\ last levels = Some top /\
    pn = (pname <$> levels) ++ [pname (top + 1); pname (top + 2)] /\
    pf = reverse (top_down None (zip (reverse levels) (reverse feats)))
         ++ [above_top fs top F; above_top2 fs top N F].
Proof. apply pyramid_features_closed_form. Qed.

Lemma pyramid_wiring_witness :
  exists pn pf s',
    __create_pyramid_features permissive three_levels [] [] 64 empty_state
      = (Ok (pn, pf), s') /\
    exists names feats levels N F top,
      derive_backbone
        [("C4", Given 4%nat); ("C3", Given 3%nat); ("C5", Given 5%nat)]
        empty_state = (Ok (names, feats), empty_state) /\
      map_result level_of names = Ok levels /\
      last names = Some N /\ last feats = Some F /\ last levels = Some top /\
      pn = (pname <$> levels) ++ [pname (top + 1); pname (top + 2)] /\
      pf = reverse (top_down None (zip (reverse levels) (reverse feats)))
           ++ [above_top 64 top F; above_top2 64 top N F].
Proof.
  eexists _, _, _. split; [vm_compute; reflexivity |].
  eapply (pyramid_wiring permissive three_levels [] [] 64 empty_state);
    [reflexivity | vm_compute; reflexivity].
Defined.

Lemma pyramid_features_needs_two fw g bn bf fs s r s' d :
  backbone_dict g = Some d ->
  __create_pyramid_features fw g bn bf fs s = (Ok r, s') ->
  (2 <= length d)%nat.
Proof.
  intros Hg H. unfold __create_pyramid_features in H.
  apply bind_Ok in H as (d' & s1 & Hd' & H).
  rewrite Hg in Hd'. inversion Hd'; subst d' s1; clear Hd'.
  apply bind_Ok in H as ([names feats] & s2 & Hder & H).
  apply derive_backbone_Ok in Hder as (-> & sorted & Hnames & Hperm & _ & _ & Hfeats).
  assert (Hlen : length feats = length d).
  { rewrite <- (Forall2_length _ _ _ Hfeats), Hnames, Hperm.
    unfold dict_keys. apply length_fmap. }
  apply bind_Ok in H as ([[pn0 pf0] pu0] & s3 & Hloop & H).
  apply bind_Ok in H as (N & s4 & HN & _). apply lift_Ok in HN as [HN _].
  apply index_Ok in HN. apply lookup_lt_Some in HN.
  destruct (length (reverse names)) as [|n] eqn:Hn; [lia |].
  simpl in Hloop.
  apply bind_Ok in Hloop as (N0 & s5 & _ & Hloop).
  apply bind_Ok in Hloop as (l0 & s6 & _ & Hloop).
  apply bind_Ok in Hloop as (b0 & s7 & _ & Hloop).
  apply bind_Ok in Hloop as (ua & s8 & Hbranch & _).
  apply bind_Ok in Hbranch as (u & s9 & Hu & _). apply lift_Ok in Hu as [Hu _].
  apply index_Ok in Hu. apply lookup_lt_Some in Hu.
  rewrite length_reverse in Hu. simpl in Hu. lia.
Qed.

(** X5: when [backbone_dict] is bound and [__create_pyramid_features]
    returns, the dictionary has at least two entries, the list of tensors
    has one tensor per entry followed by two more, and [feature_size]
    reaches only these two: the tensors of the backbone levels are
    convolutions with 256 filters whatever [feature_size] is, because
    [create_pyramid_level] is called without it. *)
Theorem pyramid_filters fw g bn bf fs s pn pf s' d :
  backbone_dict g = Some d ->
  __create_pyramid_features fw g bn bf fs s = (Ok (pn, pf), s') ->
  (2 <= length d)%nat /\
  length pn = (length d + 2)%nat /\
  exists low p6 p7,
    pf = low ++ [p6; p7] /\
    length low = length d /\
    Forall (fun t => conv_filters t = Some 256) low /\
    conv_filters p6 = Some fs /\ conv_filters p7 = Some fs.
Proof.
  intros Hg H.
  split; [eapply pyramid_features_needs_two; eassumption |].
  apply (pyramid_features_closed_form fw g bn bf fs s pn pf s' d Hg) in H
    as (names & feats & levels & N & F & top & Hder & Hlv & _ & _ & _ & Hpn & Hpf).
  apply derive_backbone_Ok in Hder as (_ & sorted & Hnames & Hperm & _ & _ & Hfeats).
  apply map_result_Forall2 in Hlv.
  assert (Hlen : length names = length d).
  { rewrite Hnames, Hperm. unfold dict_keys. apply length_fmap. }
  split.
  { rewrite Hpn, length_app, length_fmap, <- (Forall2_length _ _ _ Hlv), Hlen.
    reflexivity. }
  eexists _, _, _. split; [exact Hpf |]. split.
  { rewrite length_reverse, length_top_down, length_zip_with, !length_reverse.
    rewrite <- (Forall2_length _ _ _ Hlv), <- (Forall2_length _ _ _ Hfeats). lia. }
  split; [| split; reflexivity].
  apply Forall_reverse, top_down_filters.
Qed.

Lemma pyramid_filters_witness :
  exists pn pf s',
    __create_pyramid_features permissive three_levels [] [] 64 empty_state
      = (Ok (pn, pf), s') /\
    (2 <= 3)%nat /\
    length pn = (3 + 2)%nat /\
    exists low p6 p7,
      pf = low ++ [p6; p7] /\
      length low = 3%nat /\
      Forall (fun t => conv_filters t = Some 256) low /\
      conv_filters p6 = Some 64 /\ conv_filters p7 = Some 64.
Proof.
  eexists _, _, _. split; [vm_compute; reflexivity |].
  eapply (pyramid_filters permissive three_levels [] [] 64 empty_state _ _ _
            [("C4", Given 4%nat); ("C3", Given 3%nat); ("C5", Given 5%nat)]);
    [reflexivity | vm_compute; reflexivity].
Defined.

(** X6: with a [backbone_dict] of fewer than two entries
    [__create_pyramid_features] builds nothing and raises: [IndexError]
    (an empty dictionary has no coarsest level, a single level has no
    finer feature to be resized to), or [ValueError] when the only name
    has no integer after its first character. *)
Theorem pyramid_too_few_levels fw g bn bf fs s d :
  backbone_dict g = Some d ->
  (length d < 2)%nat ->
  exists e,
    __create_pyramid_features fw g bn bf fs s = (Raise e, s) /\
    (e = IndexError \/ e = ValueError).
Proof.
  intros Hg Hlen. unfold __create_pyramid_features. rewrite Hg.
  destruct d as [|[x t] [|? ?]]; [| | simpl in Hlen; lia].
  - exists IndexError. split; [reflexivity | left; reflexivity].
  - rewrite (bind_run _ _ s [(x, t)] s eq_refl).
    destruct (sort_key x) as [k|e] eqn:Hk.
    + assert (Hder : derive_backbone [(x, t)] s = (Ok ([x], [t]), s)).
      { unfold derive_backbone, bind, lift, ret, dict_keys, with_key, dict_get.
        simpl. rewrite Hk. simpl. rewrite decide_True by reflexivity.
        reflexivity. }
      rewrite (bind_run _ _ _ _ _ Hder). cbv beta iota.
      change (reverse [x]) with [x]. change (reverse [t]) with [t].
      assert (Hloop : pyramid_loop fw [x] [t] (seq 0 (length [x])) [] [] [] s
                      = (Raise IndexError, s)).
      { simpl. unfold bind, lift, ret. simpl.
        destruct (level_of x) as [l|e] eqn:Hl; [reflexivity |].
        apply level_of_Raise in Hl as ->. reflexivity. }
      rewrite (bind_fail _ _ _ _ _ Hloop).
      exists IndexError. split; [reflexivity | left; reflexivity].
    + assert (Hder : derive_backbone [(x, t)] s = (Raise ValueError, s)).
      { unfold derive_backbone, bind, lift, ret, dict_keys, with_key.
        simpl. rewrite Hk. apply py_int_Raise in Hk as ->. reflexivity. }
      rewrite (bind_fail _ _ _ _ _ Hder).
      exists ValueError. split; [reflexivity | right; reflexivity].
Qed.

Lemma pyramid_too_few_levels_witness :
  exists e,
    __create_pyramid_features permissive
      {| backbone_dict := Some [("C5", Given 5%nat)];
         get_pyramid_layer_outputs := None |} [] [] 256 empty_state
    = (Raise e, empty_state) /\
    (e = IndexError \/ e = ValueError).
Proof.
  apply (pyramid_too_few_levels permissive
           {| backbone_dict := Some [("C5", Given 5%nat)];
              get_pyramid_layer_outputs := None |} [] [] 256 empty_state
           [("C5", Given 5%nat)]).
  - reflexivity.
  - simpl. lia.
Defined.

(** ** When [__create_pyramid_features] returns *)

Lemma int_body_starts_with_digit c cs acc z :
  int_body (c :: cs) acc false = Some z -> is_digit c = true.
Proof.
  simpl. destruct (is_digit c); [reflexivity |].
  rewrite andb_false_r. discriminate.
Qed.

Lemma lstrip_incl cs c : In c (lstrip cs) -> In c cs.
Proof.
  induction cs as [|c' cs IH]; simpl; [tauto |].
  destruct (is_space c'); [right; apply IH; assumption | tauto].
Qed.

Lemma strip_incl cs c : In c (strip cs) -> In c cs.
Proof.
  unfold strip. intros H.
  apply in_rev, lstrip_incl, in_rev, lstrip_incl in H. exact H.
Qed.

Lemma first_digits_of_digit cs c :
  In c cs -> is_digit c = true -> exists ds, first_digits cs = Some ds.
Proof.
  induction cs as [|c' cs IH]; simpl; [tauto |].
  intros Hin Hc. destruct (is_digit c') eqn:Hc'; [eauto |].
  destruct Hin as [-> | Hin]; [congruence | apply IH; assumption].
Qed.

Lemma chars_tail_incl x c : In c (chars (tail_str x)) -> In c (chars x).
Proof. destruct x; simpl; tauto. Qed.

(** A name that has a sort key has a level. *)
Lemma sort_key_has_level x k :
  sort_key x = Ok k -> exists l, level_of x = Ok l.
Proof.
  unfold sort_key, py_int. intros H.
  assert (Hd : exists c, In c (strip (chars (tail_str x))) /\ is_digit c = true).
  { destruct (strip (chars (tail_str x))) as [|c cs]; [discriminate |].
    destruct (nat_of_ascii c =? 45)%nat; [| destruct (nat_of_ascii c =? 43)%nat].
    - destruct cs as [|c' cs]; [discriminate |].
      destruct (int_body (c' :: cs) 0 false) as [z|] eqn:Hb; [| discriminate].
      exists c'. split; [right; left; reflexivity |].
      eapply int_body_starts_with_digit, Hb.
    - destruct cs as [|c' cs]; [discriminate |].
      destruct (int_body (c' :: cs) 0 false) as [z|] eqn:Hb; [| discriminate].
      exists c'. split; [right; left; reflexivity |].
      eapply int_body_starts_with_digit, Hb.
    - destruct (int_body (c :: cs) 0 false) as [z|] eqn:Hb; [| discriminate].
      exists c. split; [left; reflexivity |].
      eapply int_body_starts_with_digit, Hb. }
  destruct Hd as (c & Hin & Hc).
  apply strip_incl, chars_tail_incl in Hin.
  destruct (first_digits_of_digit _ _ Hin Hc) as (ds & Hds).
  unfold level_of. rewrite Hds. eauto.
Qed.

Lemma derive_backbone_returns d s :
  Forall (fun x => exists k, sort_key x = Ok k) (dict_keys d) ->
  exists names feats, derive_backbone d s = (Ok (names, feats), s).
Proof.
  intros Hall. pose proof (derive_backbone_cases d s) as H.
  destruct (derive_backbone d s) as [[[names feats]|e] s'].
  - destruct H as (-> & _). eauto.
  - destruct H as (_ & _ & Hex). apply Exists_exists in Hex as (x & Hin & Hx).
    rewrite Forall_forall in Hall. destruct (Hall x Hin) as (k & Hk). congruence.
Qed.

Lemma lift_index {A} (l : list A) i x s :
  l !! i = Some x -> lift (index l i) s = (Ok x, s).
Proof. intros H. unfold lift, index. rewrite H. reflexivity. Qed.

Lemma pyramid_loop_returns fw bn bf :
  accepts_all fw ->
  Forall (fun N => exists l, level_of N = Ok l) bn ->
  length bf = length bn ->
  (2 <= length bn)%nat ->
  forall k i pn pf pu s,
    (i + k = length bn)%nat ->
    ((0 < i)%nat -> pu <> []) ->
    exists r s', pyramid_loop fw bn bf (seq i k) pn pf pu s = (Ok r, s').
Proof.
  intros Hfw Hlevels Hlen Htwo.
  induction k as [|k IH]; intros i pn pf pu s Hi Hpu; simpl.
  - eexists _, _. reflexivity.
  - destruct (lookup_lt_is_Some_2 bn i) as [N HN]; [lia |].
    rewrite (bind_run _ _ _ _ _ (lift_index bn i N s HN)).
    rewrite Forall_forall in Hlevels.
    destruct (Hlevels N (list_elem_of_lookup_2 _ _ _ HN)) as (l & Hl).
    rewrite (bind_run (lift (level_of N)) _ s l s) by (unfold lift; rewrite Hl; reflexivity).
    destruct (lookup_lt_is_Some_2 bf i) as [b Hb]; [lia |].
    rewrite (bind_run _ _ _ _ _ (lift_index bf i b s Hb)).
    assert (Hbranch : exists u a,
               (if (i =? 0)%nat
                then bind (lift (index bf (i + 1))) (fun u => ret (Some u, None))
                else if (i =? length bn - 1)%nat
                     then bind (lift (index_last pu)) (fun a => ret (None, a))
                     else bind (lift (index bf (i + 1)))
                            (fun u => bind (lift (index_last pu))
                                        (fun a => ret (Some u, a)))) s
               = (Ok (u, a), s)).
    { assert (Hlast : (0 < i)%nat -> exists a, lift (index_last pu) s = (Ok a, s)).
      { intros H0. specialize (Hpu H0). unfold lift, index_last.
        destruct (exists_last Hpu) as (pu' & a & ->). rewrite last_snoc. eauto. }
      destruct (i =? 0)%nat eqn:H0.
      - apply Nat.eqb_eq in H0. subst i.
        destruct (lookup_lt_is_Some_2 bf 1) as [u Hu]; [lia |].
        exists (Some u), None.
        rewrite (bind_run _ _ _ _ _ (lift_index bf (0 + 1) u s Hu)). reflexivity.
      - apply Nat.eqb_neq in H0. destruct Hlast as (a & Ha); [lia |].
        destruct (i =? length bn - 1)%nat eqn:H1.
        + exists None, a. rewrite (bind_run _ _ _ _ _ Ha). reflexivity.
        + apply Nat.eqb_neq in H1.
          destruct (lookup_lt_is_Some_2 bf (i + 1)) as [u Hu]; [lia |].
          exists (Some u), a.
          rewrite (bind_run _ _ _ _ _ (lift_index bf (i + 1) u s Hu)).
          rewrite (bind_run _ _ _ _ _ Ha). reflexivity. }
    destruct Hbranch as (u & a & Hbranch).
    rewrite (bind_run _ _ _ _ _ Hbranch). cbv beta iota.
    destruct (create_pyramid_level_returns fw b u a l 256 s Hfw) as (s1 & Hc).
    rewrite (bind_run _ _ _ _ _ Hc). cbv beta iota.
    apply IH; [lia |]. intros _ Hnil. apply app_eq_nil in Hnil as [_ Hnil].
    discriminate.
Qed.

(** X7: with a framework that accepts every call, a [backbone_dict] of at
    least two entries whose names all have an integer after their first
    character makes [__create_pyramid_features] return. *)
Theorem pyramid_features_returns fw g bn bf fs s d :
  accepts_all fw ->
  backbone_dict g = Some d ->
  (2 <= length d)%nat ->
  Forall (fun x => exists k, sort_key x = Ok k) (dict_keys d) ->
  exists pn pf s',
    __create_pyramid_features fw g bn bf fs s = (Ok (pn, pf), s').
Proof.
  intros Hfw Hg Htwo Hall. unfold __create_pyramid_features. rewrite Hg.
  rewrite (bind_run _ _ s d s eq_refl).
  destruct (derive_backbone_returns d s Hall) as (names & feats & Hder).
  rewrite (bind_run _ _ _ _ _ Hder). cbv beta iota.
  apply derive_backbone_Ok in Hder as (_ & sorted & Hnames & Hperm & Hkeys & _ & Hfeats).
  assert (Hlen : length names = length d).
  { rewrite Hnames, Hperm. unfold dict_keys. apply length_fmap. }
  assert (Hlevels : Forall (fun N => exists l, level_of N = Ok l) (reverse names)).
  { rewrite reverse_Permutation, Hnames. apply Forall_fmap.
    eapply Forall_impl; [exact Hkeys |]. intros [k x] Hk.
    eapply sort_key_has_level, Hk. }
  destruct (pyramid_loop_returns fw (reverse names) (reverse feats) Hfw Hlevels)
    with (k := length (reverse names)) (i := 0%nat) (pn := @nil string)
         (pf := @nil tensor) (pu := @nil (option tensor)) (s := s)
    as ([[pn0 pf0] pu0] & s1 & Hloop).
  { rewrite !length_reverse. symmetry. apply (Forall2_length _ _ _ Hfeats). }
  { rewrite length_reverse. lia. }
  { reflexivity. }
  { lia. }
  rewrite (bind_run _ _ _ _ _ Hloop). cbv beta iota.
  destruct (lookup_lt_is_Some_2 (reverse names) 0) as [N HN];
    [rewrite length_reverse; lia |].
  rewrite (bind_run _ _ _ _ _ (lift_index _ _ N s1 HN)).
  destruct (lookup_lt_is_Some_2 (reverse feats) 0) as [F HF];
    [rewrite length_reverse, <- (Forall2_length _ _ _ Hfeats); lia |].
  rewrite (bind_run _ _ _ _ _ (lift_index _ _ F s1 HF)).
  rewrite Forall_forall in Hlevels.
  destruct (Hlevels N (list_elem_of_lookup_2 _ _ _ HN)) as (l & Hl).
  rewrite (bind_run (lift (level_of N)) _ s1 l s1) by (unfold lift; rewrite Hl; reflexivity).
  rewrite (bind_run _ _ _ _ _ (apply_layer_accept _ _ _ _ (Hfw _ _ _))).
  rewrite (bind_run (lift (level_of N)) _ _ l _) by (unfold lift; rewrite Hl; reflexivity).
  rewrite (bind_run _ _ _ _ _ (apply_layer_accept _ _ _ _ (Hfw _ _ _))).
  rewrite (bind_run _ _ _ _ _ (apply_layer_accept _ _ _ _ (Hfw _ _ _))).
  eexists _, _, _. reflexivity.
Qed.

Lemma pyramid_features_returns_witness :
  exists pn pf s',
    __create_pyramid_features permissive three_levels [] [] 256 empty_state
    = (Ok (pn, pf), s').
Proof.
  apply (pyramid_features_returns permissive three_levels [] [] 256 empty_state
           [("C4", Given 4%nat); ("C3", Given 3%nat); ("C5", Given 5%nat)]).
  - intros gr l xs. reflexivity.
  - reflexivity.
  - simpl. lia.
  - repeat constructor; eexists; vm_compute; reflexivity.
Defined.

(** ** What the semantic head computes *)

Lemma semantic_upsample_result fw x n nf tg s r s' :
  semantic_upsample fw x n nf tg s = (Ok r, s') ->
  r = upsample_result nf tg n x.
Proof.
  intros H. unfold upsample_result. destruct (n <? 0) eqn:Hn.
  - apply Z.ltb_lt in Hn. rewrite semantic_upsample_negative in H by exact Hn.
    inversion H. reflexivity.
  - apply Z.ltb_ge in Hn. apply semantic_upsample_Ok in H as (Hr & _); assumption.
Qed.

Lemma add_all_Ok fw :
  forall rest x s r s', add_all fw x rest s = (Ok r, s') -> r = sum_spec x rest.
Proof.
  intros rest. induction rest as [|f rest IH]; intros x s r s' H; simpl in H.
  - inversion H. reflexivity.
  - apply bind_Ok in H as (y & s1 & Hy & H).
    apply apply_layer_Ok in Hy as (_ & -> & _).
    apply IH in H. exact H.
Qed.

Lemma shape_at_dim fw t i s d s' :
  shape_at fw t i s = (Ok d, s') ->
  exists x, t = Some x /\ fw_dim fw x i = Some d.
Proof.
  unfold shape_at. destruct t as [x|]; [| discriminate].
  destruct (fw_dim fw x i) as [d'|] eqn:Hd; intros H; inversion H; subst. eauto.
Qed.

Lemma semantic_prediction_closed fw names feats tl it nf nd nc s t s' :
  semantic_prediction fw names feats tl it nf nd nc s = (Ok t, s') ->
  exists f0 rest last_name min_level i d1 d2 d3,
    feats = f0 :: rest /\
    last names = Some last_name /\
    level_of last_name = Ok min_level /\
    it = Some i /\
    fw_dim fw i 1 = Some d1 /\ fw_dim fw i 2 = Some d2 /\
    fw_dim fw (upsample_result 256 it (min_level - tl) (sum_spec f0 rest)) (-1)
      = Some d3 /\
    t = prediction_spec fw [d1; d2; d3] nd nc
          (upsample_result 256 it (min_level - tl) (sum_spec f0 rest)).
Proof.
  unfold semantic_prediction. intros H.
  apply bind_Ok in H as (f0 & s1 & Hf0 & H). apply lift_Ok in Hf0 as [Hf0 _].
  apply index_Ok in Hf0.
  apply bind_Ok in H as (sum & s2 & Hsum & H). apply add_all_Ok in Hsum.
  apply bind_Ok in H as (last_name & s3 & Hlast & H).
  apply lift_Ok in Hlast as [Hlast _]. apply index_last_Ok in Hlast.
  apply bind_Ok in H as (min_level & s4 & Hmin & H). apply lift_Ok in Hmin as [Hmin _].
  apply bind_Ok in H as (x & s5 & Hx & H). apply semantic_upsample_result in Hx.
  apply bind_Ok in H as (d1 & s6 & Hd1 & H).
  apply shape_at_dim in Hd1 as (i & Hi & Hd1).
  apply bind_Ok in H as (d2 & s7 & Hd2 & H).
  apply shape_at_dim in Hd2 as (i' & Hi' & Hd2).
  assert (i' = i) by congruence. subst i'.
  apply bind_Ok in H as (d3 & s8 & Hd3 & H).
  apply shape_at_dim in Hd3 as (x' & Hx' & Hd3). inversion Hx'; subst x'.
  apply bind_Ok in H as (r & s9 & Hr & H). apply apply_layer_Ok in Hr as (_ & -> & _).
  apply bind_Ok in H as (p1 & s10 & Hp1 & H). apply apply_layer_Ok in Hp1 as (_ & -> & _).
  apply bind_Ok in H as (b & s11 & Hb & H). apply apply_layer_Ok in Hb as (_ & -> & _).
  apply bind_Ok in H as (a & s12 & Ha & H). apply apply_layer_Ok in Ha as (_ & -> & _).
  apply bind_Ok in H as (p2 & s13 & Hp2 & H). apply apply_layer_Ok in Hp2 as (_ & -> & _).
  apply apply_layer_Ok in H as (_ & -> & _).
  destruct feats as [|f0' rest]; [discriminate |].
  simpl in Hf0. inversion Hf0; subst f0'.
  change (drop 1 (f0 :: rest)) with rest in Hsum.
  exists f0, rest, last_name, min_level, i, d1, d2, d3.
  subst sum x it. repeat split; try assumption.
Qed.

(** X8: when [semantic_prediction] returns, there is at least one feature
    and an input target, and the tensor returned is the softmax, over the
    configured channel axis, of the dense layer with [n_classes] outputs,
    after the rectified batch-normalized dense layer with [n_dense]
    outputs, after the reshaping to the input's height and width, of this
    tensor: the sum of all features, added from the left, upsampled by
    [semantic_upsample] with 256 filters towards the input target as many
    times as the level of the last name exceeds [target_level].  The other
    names and the argument [n_filters] have no part in it. *)
Theorem semantic_prediction_result fw names feats tl it nf nd nc s t s' :
  semantic_prediction fw names feats tl it nf nd nc s = (Ok t, s') ->
  exists f0 rest last_name min_level i d1 d2 d3,
    feats = f0 :: rest /\
    last names = Some last_name /\
    level_of last_name = Ok min_level /\
    it = Some i /\
    fw_dim fw i 1 = Some d1 /\ fw_dim fw i 2 = Some d2 /\
    fw_dim fw (upsample_result 256 it (min_level - tl) (sum_spec f0 rest)) (-1)
      = Some d3 /\
    t = prediction_spec fw [d1; d2; d3] nd nc
          (upsample_result 256 it (min_level - tl) (sum_spec f0 rest)).
Proof. apply semantic_prediction_closed. Qed.

Lemma semantic_prediction_result_witness :
  exists t s',
    semantic_prediction permissive ["Q5"; "Q3"] [Given 5%nat; Given 3%nat] 2
      (Some (Given 0%nat)) 64 256 3 empty_state = (Ok t, s') /\
    exists f0 rest last_name min_level i d1 d2 d3,
      [Given 5%nat; Given 3%nat] = f0 :: rest /\
      last ["Q5"; "Q3"] = Some last_name /\
      level_of last_name = Ok min_level /\
      Some (Given 0%nat) = Some i /\
      fw_dim permissive i 1 = Some d1 /\ fw_dim permissive i 2 = Some d2 /\
      fw_dim permissive
        (upsample_result 256 (Some (Given 0%nat)) (min_level - 2) (sum_spec f0 rest))
        (-1) = Some d3 /\
      t = prediction_spec permissive [d1; d2; d3] 256 3
            (upsample_result 256 (Some (Given 0%nat)) (min_level - 2)
               (sum_spec f0 rest)).
Proof.
  eexists _, _. split; [vm_compute; reflexivity |].
  eapply (semantic_prediction_result permissive ["Q5"; "Q3"]
            [Given 5%nat; Given 3%nat] 2 (Some (Given 0%nat)) 64 256 3 empty_state).
  vm_compute. reflexivity.
Defined.

Lemma head_loop_Ok fw tl nf :
  forall items feats names s feats' names' s',
    head_loop fw items tl nf feats names s = (Ok (feats', names'), s') ->
    exists lv,
      Forall2 (fun it l => level_of it.1 = Ok l) items lv /\
      feats' = feats ++ head_spec nf tl (last feats) (zip lv (items.*2)) /\
      names' = names ++ ((fun l => "Q" +:+ str l) <$> lv).
Proof.
  intros items. induction items as [|[N P] items IH];
    intros feats names s feats' names' s' H; simpl in H.
  - inversion H; subst. exists []. simpl. rewrite !app_nil_r.
    repeat split. constructor.
  - apply bind_Ok in H as (level & s1 & Hl & H). apply lift_Ok in Hl as [Hl ->].
    apply bind_Ok in H as (f & s2 & Hf & H). apply semantic_upsample_result in Hf.
    apply IH in H as (lv & Hlv & Hfeats & Hnames).
    exists (level :: lv). split; [constructor; assumption |].
    rewrite last_snoc in Hfeats. subst f.
    split; [rewrite Hfeats, <- app_assoc; reflexivity |].
    rewrite Hnames, <- app_assoc. reflexivity.
Qed.

Lemma take_digits_digits cs : Forall (fun c => is_digit c = true) (take_digits cs).
Proof.
  induction cs as [|c cs IH]; simpl; [constructor |].
  destruct (is_digit c) eqn:Hc; constructor; assumption.
Qed.

Lemma first_digits_digits cs ds :
  first_digits cs = Some ds -> Forall (fun c => is_digit c = true) ds.
Proof.
  induction cs as [|c cs IH]; simpl; [discriminate |].
  destruct (is_digit c) eqn:Hc; [| exact IH].
  intros H. inversion H; subst. constructor; [exact Hc | apply take_digits_digits].
Qed.

Lemma digits_value_nonneg ds :
  Forall (fun c => is_digit c = true) ds ->
  forall acc, 0 <= acc -> 0 <= fold_left digit_step ds acc.
Proof.
  induction 1 as [|c ds Hc _ IH]; intros acc Hacc; simpl; [exact Hacc |].
  apply IH. unfold digit_step, digit_value. unfold is_digit in Hc.
  apply andb_true_iff in Hc as [Hc _]. apply Nat.leb_le in Hc. lia.
Qed.

(** A level read from a name is never negative. *)
Lemma level_of_nonneg N l : level_of N = Ok l -> 0 <= l.
Proof.
  unfold level_of. destruct (first_digits (chars N)) as [ds|] eqn:Hds; [| discriminate].
  intros H. inversion H; subst.
  apply (digits_value_nonneg ds (first_digits_digits _ _ Hds) 0). lia.
Qed.

Lemma level_of_named prefix l :
  no_digit prefix -> level_of (prefix +:+ str l) = Ok (Z.abs l).
Proof.
  intros Hpre. pose proof (level_of_numeral_gen prefix l "" Hpre I) as H.
  unfold level_of in *. rewrite !chars_app in H. rewrite chars_app.
  simpl in H. rewrite app_nil_r in H. exact H.
Qed.

Lemma create_semantic_head_closed fw rn rf it tl nc nf s ns fs t s' :
  names_heap s !! rn = Some ns ->
  feats_heap s !! rf = Some fs ->
  length ns = length fs ->
  __create_semantic_head fw rn rf it tl nc nf s = (Ok t, s') ->
  exists lv f0 rest lmin i d1 d2 d3,
    map_result level_of (reverse ns) = Ok lv /\
    head_spec nf tl None (zip lv (reverse fs)) = f0 :: rest /\
    last lv = Some lmin /\
    it = Some i /\
    fw_dim fw i 1 = Some d1 /\ fw_dim fw i 2 = Some d2 /\
    fw_dim fw (upsample_spec 256 it (Z.to_nat lmin) (sum_spec f0 rest)) (-1)
      = Some d3 /\
    t = prediction_spec fw [d1; d2; d3] 256 nc
          (upsample_spec 256 it (Z.to_nat lmin) (sum_spec f0 rest)).
Proof.
  intros Hns Hfs Hlen H. unfold __create_semantic_head in H.
  rewrite (bind_run (reverse_names rn) _ s tt _ eq_refl) in H.
  rewrite (bind_run (reverse_feats rf) _ _ tt _ eq_refl) in H.
  rewrite (bind_run (read_names rn) _ _ _ _ eq_refl) in H.
  rewrite (bind_run (read_feats rf) _ _ _ _ eq_refl) in H.
  simpl names_heap in H. simpl feats_heap in H.
  rewrite !list_lookup_alter_eq, Hns, Hfs in H. simpl default in H.
  apply bind_Ok in H as ([sem qnames] & s1 & Hloop & H).
  apply head_loop_Ok in Hloop as (lv & Hlv & Hsem & Hq).
  simpl in Hsem, Hq.
  rewrite snd_zip in Hsem by (rewrite !length_reverse; lia).
  apply (Forall2_fmap_l fst (fun N l => level_of N = Ok l)) in Hlv.
  rewrite fst_zip in Hlv by (rewrite !length_reverse; lia).
  apply semantic_prediction_closed in H
    as (f0 & rest & last_name & min_level & i & d1 & d2 & d3
        & Hf0 & Hlast & Hmin & Hit & Hd1 & Hd2 & Hd3 & Ht).
  rewrite Hq, fmap_last in Hlast.
  destruct (last lv) as [lmin|] eqn:Hlmin; [| discriminate].
  simpl in Hlast. inversion Hlast; subst last_name.
  assert (Hnonneg : 0 <= lmin).
  { rewrite last_lookup in Hlmin.
    destruct (Forall2_lookup_r _ _ _ _ _ Hlv Hlmin) as (N & _ & HN).
    eapply level_of_nonneg, HN. }
  rewrite level_of_named in Hmin by (repeat constructor).
  inversion Hmin; subst min_level.
  assert (Hup : forall x, upsample_result 256 it (Z.abs lmin - 0) x
                          = upsample_spec 256 it (Z.to_nat lmin) x).
  { intros x. unfold upsample_result.
    replace (Z.abs lmin - 0) with lmin by lia.
    destruct (lmin <? 0) eqn:Hneg; [apply Z.ltb_lt in Hneg; lia | reflexivity]. }
  rewrite Hup in Hd3, Ht.
  exists lv, f0, rest, lmin, i, d1, d2, d3.
  split; [apply Forall2_map_result, Hlv |].
  split; [rewrite <- Hf0, Hsem; reflexivity |].
  repeat split; assumption.
Qed.

(** X9: when [__create_semantic_head] is given as many names as tensors
    and returns, the levels are read from the names taken from the last to
    the first; the semantic feature of the first of them is its pyramid
    tensor upsampled level minus [target_level] times with [n_filters]
    filters, and each following one is upsampled in the same way and
    resized to the feature before it (a level below [target_level] passes
    its pyramid tensor on unchanged).  The result is the prediction, with
    256 dense units, over the sum of these features upsampled towards the
    input target as many times as the level of the first name given, with
    256 filters: [target_level] and [n_filters] do not reach
    [semantic_prediction]. *)
Theorem create_semantic_head_result fw rn rf it tl nc nf s ns fs t s' :
  names_heap s !! rn = Some ns ->
  feats_heap s !! rf = Some fs ->
  length ns = length fs ->
  __create_semantic_head fw rn rf it tl nc nf s = (Ok t, s') ->
  exists lv f0 rest lmin i d1 d2 d3,
    map_result level_of (reverse ns) = Ok lv /\
    head_spec nf tl None (zip lv (reverse fs)) = f0 :: rest /\
    last lv = Some lmin /\
    it = Some i /\
    fw_dim fw i 1 = Some d1 /\ fw_dim fw i 2 = Some d2 /\
    fw_dim fw (upsample_spec 256 it (Z.to_nat lmin) (sum_spec f0 rest)) (-1)
      = Some d3 /\
    t = prediction_spec fw [d1; d2; d3] 256 nc
          (upsample_spec 256 it (Z.to_nat lmin) (sum_spec f0 rest)).
Proof. apply create_semantic_head_closed. Qed.

Lemma create_semantic_head_result_witness :
  exists t s',
    __create_semantic_head permissive 0%nat 0%nat (Some (Given 0%nat)) 3 3 128
      two_levels = (Ok t, s') /\
    exists lv f0 rest lmin i d1 d2 d3,
      map_result level_of (reverse ["P3"; "P4"]) = Ok lv /\
      head_spec 128 3 None (zip lv (reverse [Given 3%nat; Given 4%nat])) = f0 :: rest /\
      last lv = Some lmin /\
      Some (Given 0%nat) = Some i /\
      fw_dim permissive i 1 = Some d1 /\ fw_dim permissive i 2 = Some d2 /\
      fw_dim permissive
        (upsample_spec 256 (Some (Given 0%nat)) (Z.to_nat lmin) (sum_spec f0 rest))
        (-1) = Some d3 /\
      t = prediction_spec permissive [d1; d2; d3] 256 3
            (upsample_spec 256 (Some (Given 0%nat)) (Z.to_nat lmin)
               (sum_spec f0 rest)).
Proof.
  eexists _, _. split; [vm_compute; reflexivity |].
  eapply (create_semantic_head_result permissive 0%nat 0%nat (Some (Given 0%nat))
            3 3 128 two_levels ["P3"; "P4"] [Given 3%nat; Given 4%nat]);
    [reflexivity | reflexivity | reflexivity | vm_compute; reflexivity].
Defined.

(** ** Edge cases of the semantic head *)

Lemma create_semantic_head_Ok fw rn rf it tl nc nf s t s' :
  __create_semantic_head fw rn rf it tl nc nf s = (Ok t, s') ->
  exists i shape y, it = Some i /\ t = prediction_spec fw shape 256 nc y.
Proof.
  unfold __create_semantic_head. intros H.
  rewrite (bind_run (reverse_names rn) _ s tt _ eq_refl) in H.
  rewrite (bind_run (reverse_feats rf) _ _ tt _ eq_refl) in H.
  rewrite (bind_run (read_names rn) _ _ _ _ eq_refl) in H.
  rewrite (bind_run (read_feats rf) _ _ _ _ eq_refl) in H.
  apply bind_Ok in H as ([sem qnames] & s1 & _ & H).
  apply semantic_prediction_closed in H
    as (f0 & rest & last_name & min_level & i & d1 & d2 & d3
        & _ & _ & _ & Hit & _ & _ & _ & Ht).
  eauto.
Qed.

Lemma add_all_returns fw :
  accepts_all fw ->
  forall rest x s, exists r s', add_all fw x rest s = (Ok r, s').
Proof.
  intros Hfw rest. induction rest as [|f rest IH]; intros x s; simpl.
  - eexists _, _. reflexivity.
  - rewrite (bind_run _ _ _ _ _ (apply_layer_accept _ _ _ _ (Hfw _ _ _))).
    apply IH.
Qed.

(** X10: without an input target (the default of both functions) neither
    [semantic_prediction] nor [__create_semantic_head] ever returns: they
    raise what the framework raises, [IndexError], or [AttributeError];
    when the framework accepts every call, there is a feature and the last
    name has a level, [semantic_prediction] raises [AttributeError], at
    the reshaping, after the sum and the upsampling have been built. *)
Theorem no_input_target_never_returns fw :
  (forall names feats tl nf nd nc s,
     exists e s',
       semantic_prediction fw names feats tl None nf nd nc s = (Raise e, s') /\
       (is_framework_error e = true \/ e = IndexError \/ e = AttributeError))
  /\ (forall rn rf tl nc nf s,
        exists e s',
          __create_semantic_head fw rn rf None tl nc nf s = (Raise e, s') /\
          (is_framework_error e = true \/ e = IndexError \/ e = AttributeError))
  /\ (forall names feats tl nf nd nc s f0 N l,
        accepts_all fw ->
        feats !! 0%nat = Some f0 ->
        last names = Some N ->
        level_of N = Ok l ->
        exists s',
          semantic_prediction fw names feats tl None nf nd nc s
          = (Raise AttributeError, s')).
Proof.
  split; [| split].
  - intros.
    destruct (semantic_prediction fw names feats tl None nf nd nc s)
      as [[t|e] s'] eqn:H.
    + apply semantic_prediction_closed in H
        as (? & ? & ? & ? & ? & ? & ? & ? & _ & _ & _ & Hit & _). discriminate.
    + exists e, s'. split; [reflexivity |].
      pose proof (sound_errors fw _ _ _ _ _
                    (sound_semantic_prediction fw names feats tl None nf nd nc) H)
        as [He | [He | [_ He]]]; auto.
  - intros.
    destruct (__create_semantic_head fw rn rf None tl nc nf s) as [[t|e] s'] eqn:H.
    + apply create_semantic_head_Ok in H as (i & _ & _ & Hit & _). discriminate.
    + exists e, s'. split; [reflexivity |].
      apply create_semantic_head_run in H as (_ & _ & _ & He).
      destruct (He e eq_refl) as [He' | [He' | [_ He']]]; auto.
  - intros * Hfw Hf0 HN Hl. unfold semantic_prediction.
    rewrite (bind_run _ _ _ _ _ (lift_index feats 0 f0 s Hf0)).
    destruct (add_all_returns fw Hfw (drop 1 feats) f0 s) as (sum & s1 & Hsum).
    rewrite (bind_run _ _ _ _ _ Hsum).
    rewrite (bind_run (lift (index_last names)) _ s1 N s1)
      by (unfold lift, index_last; rewrite HN; reflexivity).
    rewrite (bind_run (lift (level_of N)) _ s1 l s1)
      by (unfold lift; rewrite Hl; reflexivity).
    destruct (semantic_upsample_returns fw sum (l - tl) 256 None s1 Hfw)
      as (x & s2 & Hx).
    rewrite (bind_run _ _ _ _ _ Hx).
    exists s2. reflexivity.
Qed.

Lemma no_input_target_never_returns_witness :
  exists s',
    semantic_prediction permissive ["Q4"; "Q3"] [Given 4%nat; Given 3%nat] 0 None
      256 256 3 empty_state
    = (Raise AttributeError, s')
    /\ length (graph s') = 7%nat.
Proof.
  destruct (proj2 (proj2 (no_input_target_never_returns permissive))
              ["Q4"; "Q3"] [Given 4%nat; Given 3%nat] 0 256 256 3 empty_state
              (Given 4%nat) "Q3" 3) as (s' & Hs').
  - intros gr l xs. reflexivity.
  - reflexivity.
  - reflexivity.
  - reflexivity.
  - exists s'. split; [exact Hs' |].
    vm_compute in Hs'. inversion Hs'. reflexivity.
Defined.

(** X11: if either list given to [__create_semantic_head] is empty, it
    raises [IndexError] (there is no feature to start the sum with) and
    adds nothing to the graph. *)
Theorem create_semantic_head_empty fw rn rf it tl nc nf s :
  names_heap s !! rn = Some [] \/ feats_heap s !! rf = Some [] ->
  exists s',
    __create_semantic_head fw rn rf it tl nc nf s = (Raise IndexError, s') /\
    graph s' = graph s.
Proof.
  intros Hempty. unfold __create_semantic_head.
  rewrite (bind_run (reverse_names rn) _ s tt _ eq_refl).
  rewrite (bind_run (reverse_feats rf) _ _ tt _ eq_refl).
  rewrite (bind_run (read_names rn) _ _ _ _ eq_refl).
  rewrite (bind_run (read_feats rf) _ _ _ _ eq_refl).
  simpl names_heap. simpl feats_heap. rewrite !list_lookup_alter_eq.
  assert (Hzip : zip (default [] (reverse <$> names_heap s !! rn))
                     (default [] (reverse <$> feats_heap s !! rf)) = []).
  { destruct Hempty as [-> | ->]; [reflexivity | apply zip_with_nil_r]. }
  rewrite Hzip. eexists. split; reflexivity.
Qed.

Lemma create_semantic_head_empty_witness :
  exists s',
    __create_semantic_head permissive 0%nat 0%nat (Some (Given 0%nat)) 2 3 128
      {| names_heap := [[]]; feats_heap := [[Given 3%nat]]; graph := [] |}
    = (Raise IndexError, s') /\
    graph s' = [].
Proof.
  apply (create_semantic_head_empty permissive 0%nat 0%nat (Some (Given 0%nat))
           2 3 128
           {| names_heap := [[]]; feats_heap := [[Given 3%nat]]; graph := [] |}).
  left. reflexivity.
Defined.

(** X12: two calls of [__create_semantic_head] on the same two list
    objects, whatever the other arguments and whether the calls return or
    raise, leave every list object as it was before the first call: the
    second call undoes the reversal of the first. *)
Theorem create_semantic_head_twice
    fw rn rf it tl nc nf it' tl' nc' nf' s r1 s1 r2 s2 :
  __create_semantic_head fw rn rf it tl nc nf s = (r1, s1) ->
  __create_semantic_head fw rn rf it' tl' nc' nf' s1 = (r2, s2) ->
  names_heap s2 = names_heap s /\ feats_heap s2 = feats_heap s.
Proof.
  intros H1 H2.
  apply create_semantic_head_run in H1 as (Hn1 & Hf1 & _).
  apply create_semantic_head_run in H2 as (Hn2 & Hf2 & _).
  rewrite Hn2, Hf2, Hn1, Hf1, !list_alter_alter_eq.
  split; apply list_alter_id; intros l; apply reverse_involutive.
Qed.

Lemma create_semantic_head_twice_witness :
  exists r1 s1 r2 s2,
    __create_semantic_head permissive 0%nat 0%nat (Some (Given 0%nat)) 3 3 128
      two_levels = (r1, s1) /\
    __create_semantic_head permissive 0%nat 0%nat None 3 3 128 s1 = (r2, s2) /\
    names_heap s2 = names_heap two_levels /\
    feats_heap s2 = feats_heap two_levels.
Proof.
  eexists _, _, _, _. split; [vm_compute; reflexivity |].
  split; [vm_compute; reflexivity |].
  eapply (create_semantic_head_twice permissive 0%nat 0%nat (Some (Given 0%nat))
            3 3 128 None 3 3 128 two_levels);
    vm_compute; reflexivity.
Defined.

(** ** [FPNet] when the free names are bound *)

(** X13: [FPNet] can only return when a caller of the module has bound
    both [get_pyramid_layer_outputs] and [backbone_dict]; what it returns
    then is the model with the given name, whose input is the tensor given
    as [inputs], or a new [Input] of the given shape when none is given,
    and whose output is the softmax prediction over [n_classes] classes. *)
Theorem FPNet_result fw g backbone input_shape inputs nm w p rc nc name s m s' :
  FPNet fw g backbone input_shape inputs nm w p rc nc name s = (Ok m, s') ->
  (exists d f, backbone_dict g = Some d /\ get_pyramid_layer_outputs g = Some f) /\
  model_inputs m = default (Apply (Input input_shape) []) inputs /\
  model_name m = name /\
  exists shape y, model_outputs m = prediction_spec fw shape 256 nc y.
Proof.
  unfold FPNet. intros H.
  apply bind_Ok in H as (i & s1 & Hi & H).
  assert (Hin : i = default (Apply (Input input_shape) []) inputs).
  { destruct inputs as [t|]; simpl.
    - inversion Hi. reflexivity.
    - apply apply_layer_Ok in Hi as (_ & -> & _). reflexivity. }
  apply bind_Ok in H as (norm & s2 & _ & H).
  apply bind_Ok in H as (fixed & s3 & _ & H).
  apply bind_Ok in H as (f & s4 & Hf & H).
  destruct (get_pyramid_layer_outputs g) as [f'|] eqn:Hg1; [| discriminate Hf].
  apply bind_Ok in H as ([bnames bfeats] & s5 & _ & H).
  apply bind_Ok in H as ([fpn_names fpn_features] & s6 & Hpyr & H).
  assert (Hd : exists d, backbone_dict g = Some d).
  { unfold __create_pyramid_features in Hpyr.
    apply bind_Ok in Hpyr as (d & s7 & Hd & _).
    destruct (backbone_dict g) as [d'|]; [eauto | discriminate Hd]. }
  destruct Hd as (d & Hd).
  apply bind_Ok in H as (levels & s7 & _ & H).
  apply bind_Ok in H as (target_level & s8 & _ & H).
  apply bind_Ok in H as (rn & s9 & _ & H).
  apply bind_Ok in H as (rf & s10 & _ & H).
  apply bind_Ok in H as (x & s11 & Hx & H).
  apply create_semantic_head_Ok in Hx as (_ & shape & y & _ & Hx).
  unfold make_model in H.
  destruct (fw_model_rejects fw (graph s11) i x name); [discriminate |].
  inversion H; subst m. simpl.
  split; [eauto |]. split; [exact Hin |]. split; [reflexivity | eauto].
Qed.

Lemma FPNet_result_witness :
  exists m s',
    FPNet permissive bound_levels "resnet50" [Some 32; Some 32; Some 1] None
      (Some "whole_image") None None 3 3 "fpnet" empty_state = (Ok m, s') /\
    (exists d f,
        backbone_dict bound_levels = Some d /\
        get_pyramid_layer_outputs bound_levels = Some f) /\
    model_inputs m = Apply (Input [Some 32; Some 32; Some 1]) [] /\
    model_name m = "fpnet" /\
    exists shape y, model_outputs m = prediction_spec permissive shape 256 3 y.
Proof.
  eexists _, _. split; [vm_compute; reflexivity |].
  eapply (FPNet_result permissive bound_levels "resnet50"
            [Some 32; Some 32; Some 1] None (Some "whole_image") None None 3 3
            "fpnet" empty_state).
  vm_compute. reflexivity.
Defined.

(** ** A refused layer in [create_pyramid_level] *)

(** X14: when [create_pyramid_level] raises, the framework has refused one
    of its layers: the exception carries the class of that layer, the
    nodes built before it stay in the graph, in their order, and nothing
    is built after it. *)
Theorem create_pyramid_level_failure fw b u a level fs s e s' :
  create_pyramid_level fw b u a level fs s = (Raise e, s') ->
  exists k l xs,
    level_nodes b u a level fs !! k = Some (Apply l xs) /\
    graph s' = graph s ++ take k (level_nodes b u a level fs) /\
    fw_rejects fw (graph s') l xs = true /\
    e = FrameworkError (layer_class l).
Proof.
  unfold create_pyramid_level. intros H.
  apply bind_Raise in H as [H | (p & s1 & Hp & H)].
  { apply apply_layer_Raise in H as (Hrej & -> & ->).
    eexists 0%nat, _, _. split; [reflexivity |].
    split; [rewrite take_0, app_nil_r; reflexivity |].
    split; [exact Hrej | reflexivity]. }
  apply apply_layer_Ok in Hp as (_ & -> & ->).
  apply bind_Raise in H as [H | (pu & s2 & Hu & H)].
  { destruct u as [t|]; [| discriminate H].
    apply bind_Raise in H as [H | (x & s3 & _ & H)]; [| discriminate H].
    apply apply_layer_Raise in H as (Hrej & -> & ->).
    eexists 1%nat, _, _. split; [reflexivity |].
    split; [reflexivity | split; [exact Hrej | reflexivity]]. }
  assert (Hs2 : graph s2 = graph s ++ conv1x1 fs level b
                             :: option_list (upsampled level (conv1x1 fs level b) <$> u)).
  { destruct u as [t|].
    - apply bind_Ok in Hu as (x & s3 & Hx & Hu).
      apply apply_layer_Ok in Hx as (_ & -> & ->). inversion Hu; subst.
      simpl. rewrite <- app_assoc. reflexivity.
    - inversion Hu; subst. reflexivity. }
  apply bind_Raise in H as [H | (p2 & s3 & Ha & H)].
  { destruct a as [t|]; [| discriminate H].
    apply apply_layer_Raise in H as (Hrej & -> & ->).
    destruct u as [t'|].
    - eexists 2%nat, _, _. split; [reflexivity |].
      split; [rewrite Hs2; reflexivity | split; [exact Hrej | reflexivity]].
    - eexists 1%nat, _, _. split; [reflexivity |].
      split; [rewrite Hs2; reflexivity | split; [exact Hrej | reflexivity]]. }
  assert (Hs3 : p2 = merged level (conv1x1 fs level b) a /\
                graph s3 = graph s2
                  ++ match a with
                     | Some _ => [merged level (conv1x1 fs level b) a]
                     | None => []
                     end).
  { destruct a as [t|].
    - apply apply_layer_Ok in Ha as (_ & -> & ->). auto.
    - inversion Ha; subst. rewrite app_nil_r. auto. }
  destruct Hs3 as [-> Hs3].
  apply bind_Raise in H as [H | (pf & s4 & _ & H)]; [| discriminate H].
  apply apply_layer_Raise in H as (Hrej & -> & ->).
  destruct u as [t'|], a as [t|]; simpl in Hs2, Hs3.
  - eexists 3%nat, _, _. split; [reflexivity |].
    split; [rewrite Hs3, Hs2, <- app_assoc; reflexivity |].
    split; [exact Hrej | reflexivity].
  - eexists 2%nat, _, _. split; [reflexivity |].
    split; [rewrite Hs3, Hs2, app_nil_r; reflexivity |].
    split; [exact Hrej | reflexivity].
  - eexists 2%nat, _, _. split; [reflexivity |].
    split; [rewrite Hs3, Hs2, <- app_assoc; reflexivity |].
    split; [exact Hrej | reflexivity].
  - eexists 1%nat, _, _. split; [reflexivity |].
    split; [rewrite Hs3, Hs2, app_nil_r; reflexivity |].
    split; [exact Hrej | reflexivity].
Qed.

Lemma create_pyramid_level_failure_witness :
  exists k l xs,
    create_pyramid_level no_merge (Given 0%nat) (Some (Given 1%nat))
      (Some (Given 2%nat)) 5 256 empty_state
    = (Raise (FrameworkError "Add"),
       {| names_heap := []; feats_heap := [];
          graph := [conv1x1 256 5 (Given 0%nat);
                    upsampled 5 (conv1x1 256 5 (Given 0%nat)) (Given 1%nat)] |}) /\
    level_nodes (Given 0%nat) (Some (Given 1%nat)) (Some (Given 2%nat)) 5 256 !! k
      = Some (Apply l xs) /\
    [conv1x1 256 5 (Given 0%nat);
     upsampled 5 (conv1x1 256 5 (Given 0%nat)) (Given 1%nat)]
    = [] ++ take k (level_nodes (Given 0%nat) (Some (Given 1%nat))
                      (Some (Given 2%nat)) 5 256) /\
    fw_rejects no_merge
      [conv1x1 256 5 (Given 0%nat);
       upsampled 5 (conv1x1 256 5 (Given 0%nat)) (Given 1%nat)] l xs = true /\
    FrameworkError "Add" = FrameworkError (layer_class l).
Proof.
  destruct (create_pyramid_level_failure no_merge (Given 0%nat) (Some (Given 1%nat))
              (Some (Given 2%nat)) 5 256 empty_state (FrameworkError "Add")
              {| names_heap := []; feats_heap := [];
                 graph := [conv1x1 256 5 (Given 0%nat);
                           upsampled 5 (conv1x1 256 5 (Given 0%nat)) (Given 1%nat)] |}
              eq_refl)
    as (k & l & xs & H).
  exists k, l, xs. split; [reflexivity | exact H].
Defined.

(** ** Upsampling in two steps *)

Lemma upsample_loop_no_target fw nf :
  forall idxs idxs' n n' x s,
    length idxs = length idxs' ->
    upsample_loop fw idxs n nf None x s = upsample_loop fw idxs' n' nf None x s.
Proof.
  intros idxs. induction idxs as [|i idxs IH]; intros [|i' idxs'] n n' x s Hlen;
    try discriminate Hlen; [reflexivity |].
  simpl. unfold bind.
  destruct (apply_layer fw _ [x] s) as [[c|e] s1]; [| reflexivity].
  destruct (apply_layer fw (UpSampling2D (2, 2)) [c] s1) as [[y|e] s2]; [| reflexivity].
  apply IH. simpl in Hlen. lia.
Qed.

Lemma upsample_loop_app fw n nf tg :
  forall l1 l2 x s,
    upsample_loop fw (l1 ++ l2) n nf tg x s
    = bind (upsample_loop fw l1 n nf tg x)
        (fun y => upsample_loop fw l2 n nf tg y) s.
Proof.
  intros l1. induction l1 as [|i l1 IH]; intros l2 x s; [reflexivity |].
  simpl. unfold bind.
  destruct (apply_layer fw _ [x] s) as [[c|e] s1]; [| reflexivity].
  assert (Hstep : forall (m : M tensor),
             match m s1 with
             | (Ok a, s2) => upsample_loop fw (l1 ++ l2) n nf tg a s2
             | (Raise e, s2) => (Raise e, s2)
             end
             = (let (r, s2) :=
                  match m s1 with
                  | (Ok a, s2) => upsample_loop fw l1 n nf tg a s2
                  | (Raise e, s2) => (Raise e, s2)
                  end in
                match r with
                | Ok a => upsample_loop fw l2 n nf tg a s2
                | Raise e => (Raise e, s2)
                end)).
  { intros m. destruct (m s1) as [[y|e] s2]; [| reflexivity].
    rewrite IH. reflexivity. }
  apply Hstep.
Qed.

Lemma semantic_upsample_no_target fw x n nf s :
  1 <= n ->
  semantic_upsample fw x n nf None s
  = upsample_loop fw (range n) n nf None x s.
Proof.
  intros Hn. unfold semantic_upsample, bind.
  destruct (upsample_loop fw (range n) n nf None x s) as [[y|e] s1]; [| reflexivity].
  assert (Hz : (n =? 0) = false) by (apply Z.eqb_neq; lia).
  rewrite Hz. reflexivity.
Qed.

(** X15: without a target, upsampling [n] times and then [m] times, for
    [n] and [m] at least 1, is upsampling [n + m] times: the same layers
    are called in the same order on the same graph, so the result, the
    exception and the final state are the same. *)
Theorem semantic_upsample_compose fw x n m nf s :
  1 <= n -> 1 <= m ->
  semantic_upsample fw x (n + m) nf None s
  = bind (semantic_upsample fw x n nf None)
      (fun y => semantic_upsample fw y m nf None) s.
Proof.
  intros Hn Hm.
  rewrite semantic_upsample_no_target by lia.
  rewrite (upsample_loop_no_target fw nf (range (n + m)) (range n ++ range m)
             (n + m) n x s)
    by (unfold range; rewrite length_app, !length_seqZ; lia).
  rewrite upsample_loop_app. unfold bind.
  rewrite <- (semantic_upsample_no_target fw x n nf s) by exact Hn.
  destruct (semantic_upsample fw x n nf None s) as [[y|e] s1]; [| reflexivity].
  rewrite (semantic_upsample_no_target fw y m nf s1) by exact Hm.
  apply upsample_loop_no_target. reflexivity.
Qed.

Lemma semantic_upsample_compose_witness :
  semantic_upsample permissive (Given 0%nat) (1 + 2) 64 None empty_state
  = bind (semantic_upsample permissive (Given 0%nat) 1 64 None)
      (fun y => semantic_upsample permissive y 2 64 None) empty_state.
Proof.
  apply (semantic_upsample_compose permissive (Given 0%nat) 1 2 64 empty_state); lia.
Defined.

(** ** [FPNet] as the composition of the pyramid and the head *)

Lemma pyramid_features_lengths fw g bn bf fs s pn pf s' :
  __create_pyramid_features fw g bn bf fs s = (Ok (pn, pf), s') ->
  length pn = length pf.
Proof.
  intros H.
  assert (Hd : exists d, backbone_dict g = Some d).
  { unfold __create_pyramid_features in H.
    apply bind_Ok in H as (d & s1 & Hd & _).
    destruct (backbone_dict g) as [d'|]; [eauto | discriminate Hd]. }
  destruct Hd as (d & Hd).
  destruct (pyramid_features_closed_form fw g bn bf fs s pn pf s' d Hd H)
    as (names & feats & levels & N & F & top & Hder & Hlv & _ & _ & _ & -> & ->).
  apply derive_backbone_Ok in Hder as (_ & sorted & _ & _ & _ & _ & Hfeats).
  apply map_result_Forall2 in Hlv.
  rewrite !length_app, length_fmap, length_reverse, length_top_down,
    length_zip_with, !length_reverse.
  rewrite <- (Forall2_length _ _ _ Hlv), <- (Forall2_length _ _ _ Hfeats).
  simpl. lia.
Qed.

Lemma foldl_min_le (l : list Z) :
  forall acc,
    foldl Z.min acc l <= acc /\ Forall (fun x => foldl Z.min acc l <= x) l.
Proof.
  induction l as [|x l IH]; intros acc; simpl; [split; [lia | constructor] |].
  destruct (IH (Z.min acc x)) as [H1 H2].
  split; [lia |]. constructor; [lia | exact H2].
Qed.

Lemma py_min_le l t : py_min l = Ok t -> Forall (fun x => t <= x) l.
Proof.
  destruct l as [|x l]; [discriminate |]. simpl. intros H. inversion H; subst.
  destruct (foldl_min_le l x) as [H1 H2]. constructor; assumption.
Qed.

Lemma but_last_length {A} (l : list A) : length (but_last l) = (length l - 1)%nat.
Proof. unfold but_last. rewrite length_take. lia. Qed.

(** X16: when [FPNet] returns, its output is the semantic head of the
    pyramid that [__create_pyramid_features] returned without its last
    level, with 128 filters, the model's own input as input target and the
    lowest level of the whole pyramid as target level: no level of the
    head is below the target level. *)
Theorem FPNet_composition
    fw g backbone input_shape inputs nm w p rc nc name s m s' :
  FPNet fw g backbone input_shape inputs nm w p rc nc name s = (Ok m, s') ->
  exists bn bf sb pn pf sp levels target lv f0 rest lmin d1 d2 d3,
    __create_pyramid_features fw g bn bf 256 sb = (Ok (pn, pf), sp) /\
    map_result level_of pn = Ok levels /\
    py_min levels = Ok target /\
    map_result level_of (reverse (but_last pn)) = Ok lv /\
    Forall (fun l => target <= l) lv /\
    head_spec 128 target None (zip lv (reverse (but_last pf))) = f0 :: rest /\
    last lv = Some lmin /\
    model_outputs m
    = prediction_spec fw [d1; d2; d3] 256 nc
        (upsample_spec 256 (Some (model_inputs m)) (Z.to_nat lmin)
           (sum_spec f0 rest)).
Proof.
  unfold FPNet. intros H.
  apply bind_Ok in H as (i & s1 & _ & H).
  apply bind_Ok in H as (norm & s2 & _ & H).
  apply bind_Ok in H as (fixed & s3 & _ & H).
  apply bind_Ok in H as (f & s4 & _ & H).
  apply bind_Ok in H as ([bn bf] & sb & _ & H).
  apply bind_Ok in H as ([pn pf] & sp & Hpyr & H).
  apply bind_Ok in H as (levels & s7 & Hlevels & H).
  apply lift_Ok in Hlevels as [Hlevels ->].
  apply bind_Ok in H as (target & s8 & Htarget & H).
  apply lift_Ok in Htarget as [Htarget ->].
  apply bind_Ok in H as (rn & s9 & Hrn & H).
  apply bind_Ok in H as (rf & s10 & Hrf & H).
  apply bind_Ok in H as (x & s11 & Hx & H).
  unfold alloc_names in Hrn. inversion Hrn; subst rn s9; clear Hrn.
  unfold alloc_feats in Hrf. inversion Hrf; subst rf s10; clear Hrf.
  simpl in Hx.
  pose proof (pyramid_features_lengths _ _ _ _ _ _ _ _ _ Hpyr) as Hlen.
  apply (create_semantic_head_closed fw _ _ _ _ _ _ _
           (but_last pn) (but_last pf)) in Hx
    as (lv & f0 & rest & lmin & i' & d1 & d2 & d3
        & Hlv & Hsem & Hlmin & Hi & _ & _ & _ & Hx).
  2: { simpl. apply list_lookup_middle. reflexivity. }
  2: { simpl. apply list_lookup_middle. reflexivity. }
  2: { rewrite !but_last_length, Hlen. reflexivity. }
  unfold make_model in H.
  destruct (fw_model_rejects fw (graph s11) i x name); [discriminate |].
  inversion H; subst m. simpl.
  exists bn, bf, sb, pn, pf, sp, levels, target, lv, f0, rest, lmin, d1, d2, d3.
  split; [exact Hpyr |]. split; [exact Hlevels |]. split; [exact Htarget |].
  split; [exact Hlv |]. split; [| auto].
  apply py_min_le in Htarget.
  apply map_result_Forall2 in Hlevels. apply map_result_Forall2 in Hlv.
  assert (Hsub : Forall2 (fun N l => level_of N = Ok l)
                   (reverse (but_last pn)) (reverse (take (length pn - 1) levels))).
  { apply Forall2_reverse. unfold but_last. apply Forall2_take, Hlevels. }
  rewrite (level_of_functional _ _ _ Hlv Hsub).
  rewrite reverse_Permutation. apply Forall_take, Htarget.
Qed.

Lemma FPNet_composition_witness :
  exists m s',
    FPNet permissive bound_levels "resnet50" [Some 32; Some 32; Some 1] None
      (Some "whole_image") None None 3 3 "fpnet" empty_state = (Ok m, s') /\
    exists bn bf sb pn pf sp levels target lv f0 rest lmin d1 d2 d3,
      __create_pyramid_features permissive bound_levels bn bf 256 sb
        = (Ok (pn, pf), sp) /\
      map_result level_of pn = Ok levels /\
      py_min levels = Ok target /\
      map_result level_of (reverse (but_last pn)) = Ok lv /\
      Forall (fun l => target <= l) lv /\
      head_spec 128 target None (zip lv (reverse (but_last pf))) = f0 :: rest /\
      last lv = Some lmin /\
      model_outputs m
      = prediction_spec permissive [d1; d2; d3] 256 3
          (upsample_spec 256 (Some (model_inputs m)) (Z.to_nat lmin)
             (sum_spec f0 rest)).
Proof.
  eexists _, _. split; [vm_compute; reflexivity |].
  eapply (FPNet_composition permissive bound_levels "resnet50"
            [Some 32; Some 32; Some 1] None (Some "whole_image") None None 3 3
            "fpnet" empty_state).
  vm_compute. reflexivity.
Defined.
